(** * TS-Features: lag columns and date-time features

    A shallow embedding of [ts_features/target_based/lag.py] (class [Lag]) and
    [ts_features/datetime_features/dt_features.py] (class [DateTimeFeatures]),
    together with the properties of the two transformers.

    Both classes work on a pandas [DataFrame], which is not part of the
    repository.  The part of pandas the two classes call is modelled in
    [Module Pandas]: a frame is an ordered list of named columns, a column is
    a dtype tag and a list of cells, and a cell is either missing or holds a
    value.  Rows are positional.  Column labels are strings, as the
    annotations of both classes say ([List[str]]), and a frame is meant to
    hold a label once: a column is looked up by the first occurrence of its
    name.  Labels of another type and repeated labels, which pandas allows,
    are outside this model.

    Cell payloads are opaque to [Lag], which only moves them around; the
    one conversion pandas applies on the way, from int64 to float64 when
    [Series.shift] makes room for missing cells, is a parameter
    ([to_float64]), as are the element conversions of [astype]. *)

From Stdlib Require Import String Ascii DecimalString DecimalZ.
From Stdlib Require Import ZArith Bool Lia List.
Import ListNotations.

Local Open Scope list_scope.

(** ** Exceptions and the state-and-exception monad

    Python methods mutate [self] and the frame in place and may raise.  A
    mutation done before an exception is raised stays visible afterwards, so
    the world is threaded through failures as well. *)

Inductive exn : Type :=
| AssertionError
| KeyError (label : string)
| TypeError
| ValueError
| AttributeError
| OverflowError.

Definition M (W A : Type) : Type := W -> W * (exn + A).

Definition ret {W A} (a : A) : M W A := fun w => (w, inr a).

Definition raise {W A} (e : exn) : M W A := fun w => (w, inl e).

Definition bind {W A B} (m : M W A) (k : A -> M W B) : M W B :=
  fun w =>
    match m w with
    | (w', inl e) => (w', inl e)
    | (w', inr a) => k a w'
    end.

Definition get {W} : M W W := fun w => (w, inr w).

Definition modify {W} (f : W -> W) : M W unit := fun w => (f w, inr tt).

Declare Scope py_scope.
Delimit Scope py_scope with py.

Notation "x <- m ;; k" := (bind m (fun x => k))
  (at level 100, m at next level, right associativity) : py_scope.
Notation "m ;; k" := (bind m (fun _ => k))
  (at level 100, right associativity) : py_scope.

Local Open Scope py_scope.

(** [assert cond] *)
Definition assert {W} (cond : bool) : M W unit :=
  if cond then ret tt else raise AssertionError.

(** [for x in l: body(x)] *)
Fixpoint for_each {W A} (l : list A) (body : A -> M W unit) : M W unit :=
  match l with
  | [] => ret tt
  | x :: l' => body x ;; for_each l' body
  end.

(** ** Python [dict] with string keys

    Insertion ordered: assigning to an existing key keeps its position and
    replaces its value, a new key goes to the end. *)

Module Dict.

Definition dict (A : Type) : Type := list (string * A).

Definition keys {A} (d : dict A) : list string := map fst d.

Fixpoint get {A} (k : string) (d : dict A) : option A :=
  match d with
  | [] => None
  | (k', v) :: d' => if String.eqb k' k then Some v else get k d'
  end.

(** [d[k] = v] *)
Fixpoint set {A} (k : string) (v : A) (d : dict A) : dict A :=
  match d with
  | [] => [(k, v)]
  | (k', v') :: d' =>
      if String.eqb k' k then (k', v) :: d' else (k', v') :: set k v d'
  end.

(** [d.pop(k)]: [None] stands for the KeyError of a missing key. *)
Fixpoint pop {A} (k : string) (d : dict A) : option (dict A) :=
  match d with
  | [] => None
  | (k', v') :: d' =>
      if String.eqb k' k then Some d'
      else option_map (cons (k', v')) (pop k d')
  end.

(** [k in d.keys()] *)
Definition mem {A} (k : string) (d : dict A) : bool :=
  existsb (String.eqb k) (keys d).

End Dict.

(** ** The pandas operations used by the two transformers *)

Module Pandas.

Inductive dtype : Type :=
| Int64 | Float64 | Bool | Object | Category | Datetime64.

(** Can a column of this dtype hold a missing cell? *)
Definition nullable (t : dtype) : bool :=
  match t with
  | Int64 | Bool => false
  | _ => true
  end.

(** The dtype of [s.shift(k)]: the missing cells it introduces force
    integers to float64 and booleans to object. *)
Definition shift_dtype (t : dtype) : dtype :=
  match t with
  | Int64 => Float64
  | Bool => Object
  | t => t
  end.

Section Frame.

Variable V : Type.

(** [None] is the missing sentinel. *)
Definition cell : Type := option V.

Record Series : Type := mkSeries { dtype_of : dtype; values : list cell }.

Definition DataFrame : Type := list (string * Series).

(** [X.columns] *)
Definition columns (X : DataFrame) : list string := map fst X.

(** [X.loc[:, name]] as an expression; [None] is the KeyError. *)
Fixpoint loc (X : DataFrame) (name : string) : option Series :=
  match X with
  | [] => None
  | (n, s) :: X' => if String.eqb n name then Some s else loc X' name
  end.

(** [X.loc[:, name] = s] and [X[name] = s]: an existing column is
    replaced where it stands, a new one is added on the right. *)
Fixpoint set_loc (X : DataFrame) (name : string) (s : Series) : DataFrame :=
  match X with
  | [] => [(name, s)]
  | (n, s') :: X' =>
      if String.eqb n name then (n, s) :: X' else (n, s') :: set_loc X' name s
  end.

Definition nrows (X : DataFrame) : nat :=
  match X with
  | [] => 0
  | (_, s) :: _ => length (values s)
  end.

(** The cells of [s.shift(k)]: for [k >= 0] every cell moves [k] rows
    down and the first [k] rows become missing; for [k < 0] every cell
    moves [-k] rows up and the last [-k] rows become missing.  The length
    is kept. *)
Definition shift_values (k : Z) (vs : list cell) : list cell :=
  if (0 <=? k)%Z
  then firstn (length vs) (repeat None (Z.to_nat k) ++ vs)
  else skipn (Z.to_nat (- k)) vs ++ repeat None (Nat.min (Z.to_nat (- k)) (length vs)).

(** numpy's conversion of an int64 to the nearest float64, owned by
    pandas: exact up to [2^53] in absolute value, rounding beyond. *)
Variable to_float64 : V -> V.

(** The value a column of dtype [t] holds for [v] once [shift] has promoted
    it: integers become floats, every other value is kept (booleans as
    objects). *)
Definition promote_value (t : dtype) (v : V) : V :=
  match t with
  | Int64 => to_float64 v
  | _ => v
  end.

Definition promote (t : dtype) (vs : list cell) : list cell :=
  map (option_map (promote_value t)) vs.

(** [Series.shift] hands a shift amount other than 0 to numpy as a C long
    ([np.intp]) when the column has cells to move. *)
Definition fits_c_long (k : Z) : bool :=
  ((- 2 ^ 63 <=? k) && (k <? 2 ^ 63))%Z.

(** The column [s.shift(k)] returns for [k <> 0]. *)
Definition shifted (k : Z) (s : Series) : Series :=
  mkSeries (shift_dtype (dtype_of s)) (shift_values k (promote (dtype_of s) (values s))).

(** An empty column has no cell to move, and any amount will do. *)
Definition can_shift (k : Z) (s : Series) : bool :=
  match values s with
  | [] => true
  | _ :: _ => fits_c_long k
  end.

(** [s.shift(k)]: a copy for [k = 0]; otherwise the promoted column with
    its cells moved, or OverflowError when the column is not empty and [k]
    does not fit a C long. *)
Definition shift (k : Z) (s : Series) : exn + Series :=
  if (k =? 0)%Z then inr s
  else if can_shift k s then inr (shifted k s)
  else inl OverflowError.

Definition is_missing (c : cell) : bool :=
  match c with None => true | Some _ => false end.

(** Row [i] has a value in every column. *)
Definition row_complete (X : DataFrame) (i : nat) : bool :=
  forallb (fun p => match nth_error (values (snd p)) i with
                    | Some (Some _) => true
                    | _ => false
                    end) X.

Definition take (rows : list nat) (vs : list cell) : list cell :=
  flat_map (fun i => match nth_error vs i with
                     | Some c => [c]
                     | None => []
                     end) rows.

(** [X.dropna()]: keep the rows without a missing cell, in order. *)
Definition dropna (X : DataFrame) : DataFrame :=
  let rows := filter (row_complete X) (seq 0 (nrows X)) in
  map (fun p => (fst p, mkSeries (dtype_of (snd p)) (take rows (values (snd p))))) X.

(** [X.drop(columns=names)]: every name must be a column. *)
Definition drop (X : DataFrame) (names : list string) : exn + DataFrame :=
  match find (fun n => negb (existsb (String.eqb n) (columns X))) names with
  | Some n => inl (KeyError n)
  | None => inr (filter (fun p => negb (existsb (String.eqb (fst p)) names)) X)
  end.

(** Element conversions of [astype], owned by pandas: [cast_value t v] is
    [v] converted to dtype [t] ([None] when pandas raises), and
    [cast_missing t] is what a missing cell becomes under a dtype that
    cannot hold one ([None] when pandas raises, as it does for
    integers). *)
Variable cast_value : dtype -> V -> option V.
Variable cast_missing : dtype -> option V.

Definition astype_cell (t : dtype) (c : cell) : option cell :=
  match c with
  | Some v => option_map Some (cast_value t v)
  | None => if nullable t then Some None else option_map Some (cast_missing t)
  end.

Fixpoint astype_cells (t : dtype) (cs : list cell) : option (list cell) :=
  match cs with
  | [] => Some []
  | c :: cs' =>
      match astype_cell t c, astype_cells t cs' with
      | Some c', Some cs'' => Some (c' :: cs'')
      | _, _ => None
      end
  end.

(** [s.astype(t)] *)
Definition astype (t : dtype) (s : Series) : exn + Series :=
  match astype_cells t (values s) with
  | Some cs => inr (mkSeries t cs)
  | None => inl ValueError
  end.

End Frame.

Arguments mkSeries {V}.
Arguments dtype_of {V}.
Arguments values {V}.
Arguments columns {V}.
Arguments loc {V}.
Arguments set_loc {V}.
Arguments nrows {V}.
Arguments shift_values {V}.
Arguments promote_value {V}.
Arguments promote {V}.
Arguments shifted {V}.
Arguments can_shift {V}.
Arguments shift {V}.
Arguments is_missing {V}.
Arguments row_complete {V}.
Arguments take {V}.
Arguments dropna {V}.
Arguments drop {V}.
Arguments astype_cell {V}.
Arguments astype_cells {V}.
Arguments astype {V}.

End Pandas.

(** Python's [str(n)] for an [int]. *)
Definition str (n : Z) : string := NilEmpty.string_of_int (Z.to_int n).

(** Python's [range(lo, hi)]. *)
Definition range (lo hi : Z) : list Z :=
  map (fun i => lo + Z.of_nat i)%Z (seq 0 (Z.to_nat (hi - lo))).

(** ** [ts_features/target_based/lag.py] *)

Module lag.

Import Pandas.

Section Lag.

Variable V : Type.
Variable to_float64 : V -> V.
Variable cast_value : dtype -> V -> option V.
Variable cast_missing : dtype -> option V.

(** The attributes of a [Lag] object.  [lag_name_suffix] is the constant
    format string ["_LAG-{}"] and is given as a function below. *)
Record Lag : Type := mkLag {
  n_periods : Z;
  shift_columns : option (list string);
  drop_na_rows : bool;
  drop_original_columns : bool;
  only_one_column_for_periods : bool;
  new_columns : list string;
  column_dtype_map : Dict.dict dtype
}.

(** [self.lag_name_suffix.format(lag)] *)
Definition lag_name_suffix (lag : Z) : string :=
  ("_LAG-" ++ str lag)%string.

(** [original_column + self.lag_name_suffix.format(lag)] *)
Definition lag_column_name (original_column : string) (lag : Z) : string :=
  (original_column ++ lag_name_suffix lag)%string.

Definition __init__ (n_periods : Z) (shift_columns : option (list string))
    (drop_na_rows drop_original_columns generate_one_col_pro_period : bool)
  : exn + Lag :=
  if (n_periods >? 0)%Z
  then inr (mkLag n_periods shift_columns drop_na_rows drop_original_columns
                  generate_one_col_pro_period [] [])
  else inl AssertionError.

Definition fit (self : Lag) (X : DataFrame V) : Lag :=
  match shift_columns self with
  | None =>
      mkLag (n_periods self) (Some (columns X)) (drop_na_rows self)
            (drop_original_columns self) (only_one_column_for_periods self)
            (new_columns self) (column_dtype_map self)
  | Some _ => self
  end.

(** The world of the mutating methods: the object and the frame. *)
Definition world : Type := Lag * DataFrame V.

Definition get_self : M world Lag := fun w => (w, inr (fst w)).
Definition get_X : M world (DataFrame V) := fun w => (w, inr (snd w)).
Definition set_self (f : Lag -> Lag) : M world unit :=
  modify (fun w => (f (fst w), snd w)).
Definition set_X (f : DataFrame V -> DataFrame V) : M world unit :=
  modify (fun w => (fst w, f (snd w))).

(** [X.loc[:, name]] read in the current frame. *)
Definition read_column (name : string) : M world (Series V) :=
  X <- get_X ;;
  match loc X name with
  | Some s => ret s
  | None => raise (KeyError name)
  end.

(** [self.new_columns.append(name)] *)
Definition append_new_column (name : string) (self : Lag) : Lag :=
  mkLag (n_periods self) (shift_columns self) (drop_na_rows self)
        (drop_original_columns self) (only_one_column_for_periods self)
        (new_columns self ++ [name]) (column_dtype_map self).

(** [self.column_dtype_map[name] = t] *)
Definition record_dtype (name : string) (t : dtype) (self : Lag) : Lag :=
  mkLag (n_periods self) (shift_columns self) (drop_na_rows self)
        (drop_original_columns self) (only_one_column_for_periods self)
        (new_columns self) (Dict.set name t (column_dtype_map self)).

Definition _generate_lag_column_and_update_dtype_map
    (original_col_name new_column_name : string) (period : Z)
  : M world (Series V) :=
  assert (period >? 0)%Z ;;
  set_self (append_new_column new_column_name) ;;
  s <- read_column original_col_name ;;
  set_self (record_dtype new_column_name (dtype_of s)) ;;
  s' <- read_column original_col_name ;;
  match shift to_float64 period s' with
  | inl e => raise e
  | inr lagged => ret lagged
  end.

(** One pass of the loop body of [transform]:
    [X.loc[:, new_column_name] = self._generate_lag_column_and_update_dtype_map(...)] *)
Definition assign_lag_column (original_column : string) (lag : Z) : M world unit :=
  let new_column_name := lag_column_name original_column lag in
  s <- _generate_lag_column_and_update_dtype_map original_column new_column_name lag ;;
  set_X (fun X => set_loc X new_column_name s).

(** The body of the outer loop of [transform] (lines 59-75): the lag
    columns of one source column. *)
Definition generate_for_column (original_column : string) : M world unit :=
  self <- get_self ;;
  match only_one_column_for_periods self with
  | false =>
      for_each (range 1 (n_periods self + 1))
               (fun lag => assign_lag_column original_column lag)
  | true => assign_lag_column original_column (n_periods self)
  end.

(** The generation loop of [transform], over [self.shift_columns]
    (line 58); iterating over [None] is a TypeError. *)
Definition generate_lag_columns : M world unit :=
  self <- get_self ;;
  match shift_columns self with
  | None => raise TypeError
  | Some cols => for_each cols generate_for_column
  end.

(** [X[col] = X[col].astype(_type, copy=False)] *)
Definition cast_column (item : string * dtype) : M world unit :=
  let '(col, _type) := item in
  s <- read_column col ;;
  match astype cast_value cast_missing _type s with
  | inl e => raise e
  | inr s' => set_X (fun X => set_loc X col s')
  end.

Definition _cast_cols_dtypes_to_original : M world unit :=
  self <- get_self ;;
  for_each (column_dtype_map self) cast_column.

(** [X.drop(columns=self.shift_columns, inplace=True)].  The loop above has
    iterated over [self.shift_columns], which is a list here. *)
Definition drop_shift_columns : M world unit :=
  self <- get_self ;;
  X <- get_X ;;
  match shift_columns self with
  | None => raise TypeError
  | Some cols =>
      match drop X cols with
      | inl e => raise e
      | inr X' => set_X (fun _ => X')
      end
  end.

Definition transform : M world (DataFrame V) :=
  generate_lag_columns ;;
  self <- get_self ;;
  (if drop_na_rows self
   then set_X (@dropna V) ;; _cast_cols_dtypes_to_original
   else ret tt) ;;
  self <- get_self ;;
  (if drop_original_columns self then drop_shift_columns else ret tt) ;;
  get_X.

End Lag.

End lag.

Arguments lag.fit {V}.
Arguments lag.get_self {V}.
Arguments lag.get_X {V}.
Arguments lag.set_self {V}.
Arguments lag.set_X {V}.
Arguments lag.read_column {V}.
Arguments lag._generate_lag_column_and_update_dtype_map {V}.
Arguments lag.assign_lag_column {V}.
Arguments lag.generate_for_column {V}.
Arguments lag.generate_lag_columns {V}.
Arguments lag.cast_column {V}.
Arguments lag._cast_cols_dtypes_to_original {V}.
Arguments lag.drop_shift_columns {V}.
Arguments lag.transform {V}.

(** Python's [str.upper()] on ASCII text. *)
Definition upper_ascii (c : ascii) : ascii :=
  let n := nat_of_ascii c in
  if andb (97 <=? n) (n <=? 122) then ascii_of_nat (n - 32) else c.

Fixpoint upper (s : string) : string :=
  match s with
  | EmptyString => EmptyString
  | String c s' => String (upper_ascii c) (upper s')
  end.

(** ** [ts_features/datetime_features/dt_features.py] *)

Module dt_features.

Import Pandas.

(** The attributes of a pandas [Timestamp] read by the extraction methods. *)
Record Timestamp : Type := mkTimestamp {
  year : Z;
  month : Z;
  day : Z;
  dayofyear : Z;
  dayofweek : Z;
  hour : Z;
  minute : Z;
  second : Z
}.

(** What a cell of the frames of this transformer can hold.  The methods
    below tell NaT, the missing timestamp, from the other missing markers
    ([NaT.year] is nan, while [nan.year] and [None.year] raise), so NaT is
    a value of its own here and a missing cell [None] is NaN or Python's
    None.  [VObject attrs] is any other Python object, given by those of
    the attributes read below that it has, with their integer values: a
    [datetime.datetime] has year, month, day, hour, minute and second, a
    pandas [Period] has all eight, a float or a list has none. *)
Inductive value : Type :=
| VTimestamp (t : Timestamp)
| VNaT
| VInt (z : Z)
| VBool (b : bool)
| VStr (s : string)
| VObject (attrs : Dict.dict Z).

(** An extraction method receives the content of one cell and returns the
    content of the new cell. *)
Definition method : Type := cell value -> exn + cell value.

(** Reading the integer attribute [dt.<name>]: the field of a timestamp,
    nan on NaT, the attribute of another object when it has one, and
    AttributeError otherwise, as on an int, a bool, a string, NaN or
    None. *)
Definition attribute (name : string) (field : Timestamp -> Z) (dt : cell value)
  : exn + option Z :=
  match dt with
  | Some (VTimestamp t) => inr (Some (field t))
  | Some VNaT => inr None
  | Some (VObject attrs) =>
      match Dict.get name attrs with
      | Some z => inr (Some z)
      | None => inl AttributeError
      end
  | _ => inl AttributeError
  end.

Definition int_method (name : string) (field : Timestamp -> Z) : method :=
  fun dt =>
    match attribute name field dt with
    | inl e => inl e
    | inr a => inr (option_map VInt a)
    end.

Definition _get_year : method := int_method "year" year.
Definition _get_month : method := int_method "month" month.
Definition _get_day_of_month : method := int_method "day" day.
Definition _get_day_of_year : method := int_method "dayofyear" dayofyear.
Definition _get_day_of_week : method := int_method "dayofweek" dayofweek.
Definition _get_hour : method := int_method "hour" hour.
Definition _get_minute : method := int_method "minute" minute.
Definition _get_second : method := int_method "second" second.

Definition _get_is_weekend : method :=
  fun dt =>
    match attribute "dayofweek" dayofweek dt with
    | inl e => inl e
    | inr (Some 5%Z) => inr (Some (VBool true))
    | inr (Some 6%Z) => inr (Some (VBool true))
    | inr _ => inr (Some (VBool false))
    end.

Record DateTimeFeatures : Type := mkDateTimeFeatures {
  dt_columns : list string;
  exclude_features : option (list string);
  drop_original_columns : bool;
  included_features_and_methods_map : Dict.dict method
}.

(** The dict literal of [__init__]. *)
Definition catalog : Dict.dict method :=
  [ ("year"%string, _get_year);
    ("month"%string, _get_month);
    ("day-of-month"%string, _get_day_of_month);
    ("day-of-year"%string, _get_day_of_year);
    ("day-of-week"%string, _get_day_of_week);
    ("is-weekend"%string, _get_is_weekend);
    ("hour"%string, _get_hour);
    ("minute"%string, _get_minute);
    ("second"%string, _get_second) ].

(** First loop of [handle_excluded_features]: check each feature against
    the keys of the map and collect it in [features_to_pop]. *)
Fixpoint check_features (features features_to_pop : list string)
  : M DateTimeFeatures (list string) :=
  match features with
  | [] => ret features_to_pop
  | feature :: rest =>
      self <- get ;;
      assert (Dict.mem feature (included_features_and_methods_map self)) ;;
      check_features rest (features_to_pop ++ [feature])
  end.

(** [self.included_features_and_methods_map.pop(feature)] *)
Definition pop_feature (feature : string) : M DateTimeFeatures unit :=
  self <- get ;;
  match Dict.pop feature (included_features_and_methods_map self) with
  | None => raise (KeyError feature)
  | Some d =>
      modify (fun self => mkDateTimeFeatures (dt_columns self) (exclude_features self)
                                             (drop_original_columns self) d)
  end.

Definition handle_excluded_features : M DateTimeFeatures unit :=
  self <- get ;;
  match exclude_features self with
  | None => ret tt
  | Some features =>
      features_to_pop <- check_features features [] ;;
      for_each features_to_pop pop_feature
  end.

Definition __init__ (dt_columns : list string) (exclude_features : option (list string))
    (drop_original_columns : bool) : exn + DateTimeFeatures :=
  match handle_excluded_features
          (mkDateTimeFeatures dt_columns exclude_features drop_original_columns catalog) with
  | (_, inl e) => inl e
  | (self, inr _) => inr self
  end.

Definition fit (self : DateTimeFeatures) (X : DataFrame value) : DateTimeFeatures := self.

Definition _get_new_feature_name (original_column_name new_feature_name : string) : string :=
  (original_column_name ++ "_" ++ upper new_feature_name)%string.

(** [s.map(f)] on the cells, top to bottom. *)
Fixpoint map_cells (f : method) (cs : list (cell value)) : exn + list (cell value) :=
  match cs with
  | [] => inr []
  | c :: cs' =>
      match f c with
      | inl e => inl e
      | inr c' =>
          match map_cells f cs' with
          | inl e => inl e
          | inr cs'' => inr (c' :: cs'')
          end
      end
  end.

(** The dtype pandas infers for the result of [map]. *)
Definition infer_dtype (cs : list (cell value)) : dtype :=
  if forallb (fun c => match c with Some (VBool _) => true | _ => false end) cs then Bool
  else if forallb (fun c => match c with Some (VInt _) => true | _ => false end) cs then Int64
  else if forallb (fun c => match c with Some (VInt _) | None => true | _ => false end) cs
       then Float64
  else Object.

Definition series_map (f : method) (s : Series value) : exn + Series value :=
  match map_cells f (values s) with
  | inl e => inl e
  | inr cs => inr (mkSeries (infer_dtype cs) cs)
  end.

(** [X.loc[:, new_column_name] = X.loc[:, original_column].map(method)] *)
Definition assign_feature (original_column : string) (item : string * method)
  : M (DataFrame value) unit :=
  let '(new_feature_name, method) := item in
  let new_column_name := _get_new_feature_name original_column new_feature_name in
  X <- get ;;
  match loc X original_column with
  | None => raise (KeyError original_column)
  | Some s =>
      match series_map method s with
      | inl e => raise e
      | inr s' => modify (fun X => set_loc X new_column_name s')
      end
  end.

Definition transform (self : DateTimeFeatures) : M (DataFrame value) (DataFrame value) :=
  for_each (dt_columns self) (fun original_column =>
    for_each (included_features_and_methods_map self) (assign_feature original_column)) ;;
  (if drop_original_columns self
   then X <- get ;;
        match drop X (dt_columns self) with
        | inl e => raise e
        | inr X' => modify (fun _ => X')
        end
   else ret tt) ;;
  get.

End dt_features.

(** ** Vocabulary of the properties *)

Module lag_props.

Import Pandas lag.

(** The shift amounts one source column is generated with: lines 59-75. *)
Definition lag_periods (self : Lag) : list Z :=
  if only_one_column_for_periods self
  then [n_periods self]
  else range 1 (n_periods self + 1).

(** The (source column, shift amount) pairs of one [transform] call, in the
    order of the two nested loops. *)
Definition schedule (self : Lag) (cols : list string) : list (string * Z) :=
  flat_map (fun c => map (pair c) (lag_periods self)) cols.

Definition names_for (self : Lag) (c : string) : list string :=
  map (lag_column_name c) (lag_periods self).

Definition generated_names (self : Lag) (cols : list string) : list string :=
  flat_map (names_for self) cols.

(** One pass of the inner loop body, on a pair of the schedule. *)
Definition lag_step {V} to_float64 (p : string * Z) : M (lag.world V) unit :=
  assign_lag_column to_float64 (fst p) (snd p).

Definition step_name (p : string * Z) : string := lag_column_name (fst p) (snd p).

(** The constructor arguments kept by the object. *)
Definition same_config (a b : Lag) : Prop :=
  n_periods a = n_periods b /\
  shift_columns a = shift_columns b /\
  drop_na_rows a = drop_na_rows b /\
  drop_original_columns a = drop_original_columns b /\
  only_one_column_for_periods a = only_one_column_for_periods b.

(** The code of [transform] before the final removal of the source
    columns: generation, then row dropping and casting when asked for. *)
Definition widen_and_clean {V} to_float64 cast_value cast_missing : M (lag.world V) unit :=
  (generate_lag_columns to_float64 ;;
   self <- get_self ;;
   if drop_na_rows self
   then set_X (@dropna V) ;; _cast_cols_dtypes_to_original cast_value cast_missing
   else ret tt)%py.

Section Frames.

Variable V : Type.
Variable to_float64 : V -> V.
Variable cast_value : dtype -> V -> option V.
Variable cast_missing : dtype -> option V.

(** Objects obtained from the constructor by any sequence of [fit] and
    [transform] calls, failed calls included. *)
Inductive reachable : Lag -> Prop :=
| reach_init n cols dna doc one self :
    __init__ n cols dna doc one = inr self -> reachable self
| reach_fit self (X : DataFrame V) :
    reachable self -> reachable (fit self X)
| reach_transform self (X : DataFrame V) :
    reachable self ->
    reachable (fst (fst (transform to_float64 cast_value cast_missing (self, X)))).

(** Every column has as many cells as the frame has rows. *)
Definition well_formed (X : DataFrame V) : Prop :=
  Forall (fun p => length (values (snd p)) = nrows X) X.

Definition no_missing (X : DataFrame V) : Prop :=
  forall n s c, In (n, s) X -> In c (values s) -> c <> None.

End Frames.

Arguments well_formed {V}.
Arguments no_missing {V}.

End lag_props.

Module dt_props.

Import Pandas dt_features.

Definition catalog_keys : list string :=
  [ "year"; "month"; "day-of-month"; "day-of-year"; "day-of-week";
    "is-weekend"; "hour"; "minute"; "second" ]%string.

Definition enabled (self : DateTimeFeatures) : list string :=
  Dict.keys (included_features_and_methods_map self).

Definition feature_names (self : DateTimeFeatures) (d : string) : list string :=
  map (_get_new_feature_name d) (enabled self).

Definition generated_names (self : DateTimeFeatures) : list string :=
  flat_map (feature_names self) (dt_columns self).

(** The features named for exclusion, none when the argument is [None]. *)
Definition excluded (exclude_features : option (list string)) : list string :=
  match exclude_features with
  | None => []
  | Some features => features
  end.

(** The (column, feature) pairs of one [transform] call, in loop order. *)
Definition dt_schedule (self : DateTimeFeatures) : list (string * (string * method)) :=
  flat_map (fun d => map (pair d) (included_features_and_methods_map self))
           (dt_columns self).

Definition dt_step (p : string * (string * method)) : M (DataFrame value) unit :=
  assign_feature (fst p) (snd p).

Definition dt_step_name (p : string * (string * method)) : string :=
  _get_new_feature_name (fst p) (fst (snd p)).

(** A cell a timestamp column can hold: a timestamp or NaT. *)
Definition timestamp_cell (c : cell value) : Prop :=
  match c with
  | Some (VTimestamp _) | Some VNaT => True
  | _ => False
  end.

(** The method filed under [kind] in the catalog returns [r] on [dt]. *)
Definition extracts (kind : string) (dt : cell value) (r : exn + cell value) : Prop :=
  exists f : method, Dict.get kind catalog = Some f /\ f dt = r.

(** The nine kinds with the name the spec gives their columns: the kind
    in upper case. *)
Definition catalog_names : list (string * string) :=
  [ ("year", "YEAR"); ("month", "MONTH"); ("day-of-month", "DAY-OF-MONTH");
    ("day-of-year", "DAY-OF-YEAR"); ("day-of-week", "DAY-OF-WEEK");
    ("is-weekend", "IS-WEEKEND"); ("hour", "HOUR"); ("minute", "MINUTE");
    ("second", "SECOND") ]%string.

End dt_props.

(** ** Sample frames and objects *)

Module samples.

Import Pandas.

(** Numbers with an integral value as payloads: an element of an int64
    column, or a float of that value in a float64 column.  [round_float64]
    is the conversion of an int64 to float64: an integer of at most 53
    bits is kept, a longer one is rounded to 53 significant bits, to the
    nearest, ties to even. *)
Definition round_float64 (z : Z) : Z :=
  let a := Z.abs z in
  let extra := (Z.log2 a + 1 - 53)%Z in
  if (extra <=? 0)%Z then z
  else
    let q := Z.shiftr a extra in
    let r := (a - Z.shiftl q extra)%Z in
    let half := Z.shiftl 1 (extra - 1) in
    let q' := if (half <? r)%Z || ((r =? half)%Z && Z.odd q) then (q + 1)%Z else q in
    (Z.sgn z * Z.shiftl q' extra)%Z.

(** Conversions of [astype] that keep the payload, and integers that
    refuse a missing cell. *)
Definition keep_value : dtype -> Z -> option Z := fun _ v => Some v.
Definition refuse_missing : dtype -> option Z := fun _ => None.

Definition ints (l : list Z) : Series Z := mkSeries Int64 (map Some l).

(** The frame of [lag_test], without its date column. *)
Definition X_test : DataFrame Z :=
  [ ("x1"%string, ints [1; 2; 3; 4; 5]%Z);
    ("x2"%string, ints [6; 7; 8; 9; 10]%Z) ].

(** A frame that already has a column called like a lag column. *)
Definition X_clash : DataFrame Z :=
  [ ("x"%string, ints [1; 2]%Z);
    ("x_LAG-1"%string, ints [7; 8]%Z) ].

Definition X_single : DataFrame Z := [ ("x"%string, ints [1; 2; 3]%Z) ].

(** An int64 column with [2^53 + 1], which no float64 holds. *)
Definition X_big : DataFrame Z := [ ("x"%string, ints [9007199254740993; 1]%Z) ].

Definition lag_of (n : Z) (cols : option (list string)) (dna doc one : bool) : lag.Lag :=
  lag.mkLag n cols dna doc one [] [].

(** 1994-08-15 00:00:00, a Monday. *)
Definition monday : dt_features.Timestamp :=
  dt_features.mkTimestamp 1994 8 15 227 0 0 0 0.

Definition X_dates : DataFrame dt_features.value :=
  [ ("dt1"%string, mkSeries Datetime64 [Some (dt_features.VTimestamp monday)]) ].

(** The object of the demo of [dt_features.py], on one column. *)
Definition dtf_demo : dt_features.DateTimeFeatures :=
  match dt_features.__init__ ["dt1"%string]
          (Some ["is-weekend"%string; "second"%string]) false with
  | inr self => self
  | inl _ => dt_features.mkDateTimeFeatures [] None false []
  end.

(** The object of [lag_test]. *)
Definition lag_demo : lag.Lag :=
  lag_of 2 (Some ["x1"%string; "x2"%string]) false false true.

(** The same with a column per step, row dropping and source removal. *)
Definition lag_full : lag.Lag :=
  lag_of 2 (Some ["x1"%string; "x2"%string]) true true false.

(** A lag of one step over [x] and over the lag column of [x]. *)
Definition lag_chain : lag.Lag :=
  lag_of 1 (Some ["x"%string; "x_LAG-1"%string]) false true false.

Definition lag_one : lag.Lag := lag_of 1 (Some ["x"%string]) false false false.

(** The [transform] calls on the samples. *)
Definition run_full := lag.transform round_float64 keep_value refuse_missing (lag_full, X_test).
Definition run_chain := lag.transform round_float64 keep_value refuse_missing (lag_chain, X_single).
Definition run_one := lag.transform round_float64 keep_value refuse_missing (lag_one, X_single).
Definition run_clash := lag.transform round_float64 keep_value refuse_missing (lag_one, X_clash).
Definition run_big := lag.transform round_float64 keep_value refuse_missing (lag_one, X_big).
Definition run_demo := lag.transform round_float64 keep_value refuse_missing (lag_demo, X_test).

End samples.

(** ** More sample objects *)

Module more_samples.

Import Pandas samples.

(** An object whose second source column is not in [X_single]. *)
Definition lag_gap : lag.Lag :=
  lag_of 1 (Some ["x"%string; "zz"%string]) false false false.

Definition run_gap := lag.transform round_float64 keep_value refuse_missing (lag_gap, X_single).

(** The object [lag_one] after two [transform] calls on [X_single]. *)
Definition lag_used : lag.Lag :=
  fst (fst (lag.transform round_float64 keep_value refuse_missing
              (fst (fst run_one), X_single))).

(** An object built without [shift_columns] that drops rows. *)
Definition lag_fresh_dropna : lag.Lag := lag_of 1 None true false false.

(** A shift amount that is no C long. *)
Definition lag_huge : lag.Lag :=
  lag_of 9223372036854775808 (Some ["x"%string]) false false true.

Definition run_huge := lag.transform round_float64 keep_value refuse_missing (lag_huge, X_single).

Definition run_dates := dt_features.transform dtf_demo X_dates.

(** A timestamp column with a NaT, and an object column with a None. *)
Definition X_nat : DataFrame dt_features.value :=
  [ ("d"%string, mkSeries Datetime64 [Some (dt_features.VTimestamp monday);
                                      Some dt_features.VNaT]) ].

Definition X_none : DataFrame dt_features.value :=
  [ ("d"%string, mkSeries Object [Some (dt_features.VTimestamp monday); None]) ].

(** An object with the whole catalog. *)
Definition dtf_all : dt_features.DateTimeFeatures :=
  dt_features.mkDateTimeFeatures ["d"%string] None false dt_features.catalog.

End more_samples.

(** * Proofs *)

(** ** Loops in the monad *)

Section ForEach.

Context {W A : Type}.
Implicit Types (l : list A) (body : A -> M W unit) (w : W).

Lemma for_each_cons x l body w :
  for_each (x :: l) body w =
  match body x w with
  | (w', inl e) => (w', inl e)
  | (w', inr _) => for_each l body w'
  end.
Proof. reflexivity. Qed.

Lemma for_each_app l1 l2 body w :
  for_each (l1 ++ l2) body w =
  match for_each l1 body w with
  | (w', inl e) => (w', inl e)
  | (w', inr _) => for_each l2 body w'
  end.
Proof.
  revert w; induction l1 as [|x l1 IH]; intro w; simpl.
  - reflexivity.
  - unfold bind. destruct (body x w) as [w' [e|u]]; [reflexivity|apply IH].
Qed.

Lemma for_each_map {B} (f : B -> A) (l : list B) body w :
  for_each (map f l) body w = for_each l (fun x => body (f x)) w.
Proof.
  revert w; induction l as [|x l IH]; intro w; simpl; [reflexivity|].
  unfold bind. destruct (body (f x) w) as [w' [e|u]]; [reflexivity|apply IH].
Qed.

Lemma for_each_flat_map {B} (f : B -> list A) (l : list B) body w :
  for_each (flat_map f l) body w = for_each l (fun x => for_each (f x) body) w.
Proof.
  revert w; induction l as [|x l IH]; intro w; simpl; [reflexivity|].
  rewrite for_each_app. unfold bind.
  destruct (for_each (f x) body w) as [w' [e|[]]]; [reflexivity|apply IH].
Qed.

(** Two bodies that agree on the worlds of an invariant run the same loop. *)
Lemma for_each_ext_inv (P : W -> Prop) l body1 body2 :
  (forall x w, In x l -> P w -> body1 x w = body2 x w) ->
  (forall x w, In x l -> P w -> P (fst (body2 x w))) ->
  forall w, P w -> for_each l body1 w = for_each l body2 w.
Proof.
  induction l as [|x l IH]; intros Heq Hinv w Hw; simpl; [reflexivity|].
  unfold bind. rewrite (Heq x w (or_introl eq_refl) Hw).
  pose proof (Hinv x w (or_introl eq_refl) Hw) as Hw'.
  destruct (body2 x w) as [w' [e|u]]; [reflexivity|].
  apply IH; auto.
  - intros; apply Heq; simpl; auto.
  - intros; apply Hinv; simpl; auto.
Qed.

(** An invariant of the body is an invariant of the loop, and the loop
    raises only what the body raises. *)
Lemma for_each_inv (P : W -> Prop) (E : exn -> Prop) l body :
  (forall x w, In x l -> P w ->
     P (fst (body x w)) /\ forall e, snd (body x w) = inl e -> E e) ->
  forall w, P w ->
    P (fst (for_each l body w)) /\ forall e, snd (for_each l body w) = inl e -> E e.
Proof.
  induction l as [|x l IH]; intros Hb w Hw; simpl.
  - split; [exact Hw|discriminate].
  - unfold bind.
    destruct (Hb x w (or_introl eq_refl) Hw) as [Hw' He].
    destruct (body x w) as [w' [e|u]]; simpl in *.
    + split; [exact Hw'|exact He].
    + apply IH; [intros; apply Hb; simpl; auto|exact Hw'].
Qed.

End ForEach.

(** ** Strings: decimal numerals and upper case *)

Lemma str_inj (a b : Z) : str a = str b -> a = b.
Proof.
  unfold str; intro H.
  apply DecimalZ.to_int_inj.
  pose proof (NilEmpty.isi (Z.to_int a)) as Ha.
  pose proof (NilEmpty.isi (Z.to_int b)) as Hb.
  rewrite H in Ha. congruence.
Qed.

Lemma append_inv_head (p a b : string) : (p ++ a)%string = (p ++ b)%string -> a = b.
Proof.
  induction p as [|c p IH]; simpl; intro H; [exact H|].
  injection H as H. auto.
Qed.

Lemma list_ascii_of_string_app (a b : string) :
  list_ascii_of_string (a ++ b)%string = list_ascii_of_string a ++ list_ascii_of_string b.
Proof. induction a as [|c a IH]; simpl; [reflexivity|now rewrite IH]. Qed.

Lemma list_ascii_of_string_inj (a b : string) :
  list_ascii_of_string a = list_ascii_of_string b -> a = b.
Proof.
  intro H. rewrite <- (string_of_list_ascii_of_string a), H.
  apply string_of_list_ascii_of_string.
Qed.

(** A decimal numeral of a natural number has no minus sign. *)
Lemma string_of_uint_no_dash (d : Decimal.uint) :
  ~ In "-"%char (list_ascii_of_string (NilEmpty.string_of_uint d)).
Proof. induction d; simpl; intuition discriminate. Qed.

Lemma str_pos_no_dash (k : Z) : (0 < k)%Z -> ~ In "-"%char (list_ascii_of_string (str k)).
Proof.
  destruct k as [|p|p]; try lia. intros _. unfold str. simpl.
  apply string_of_uint_no_dash.
Qed.

(** Texts that agree after being cut at their last minus sign. *)
Lemma split_at_last_dash (a a' d d' : list ascii) :
  ~ In "-"%char d -> ~ In "-"%char d' ->
  a ++ "-"%char :: d = a' ++ "-"%char :: d' -> a = a' /\ d = d'.
Proof.
  intros Hd Hd'. revert a'. induction a as [|x a IH]; intros [|x' a'] H; simpl in H.
  - injection H as H. auto.
  - injection H as <- H. exfalso. apply Hd. rewrite H. apply in_elt.
  - injection H as -> H. exfalso. apply Hd'. rewrite <- H. apply in_elt.
  - injection H as <- H. destruct (IH _ H) as [-> ->]. auto.
Qed.

Lemma range_spec (lo hi k : Z) : In k (range lo hi) <-> (lo <= k < hi)%Z.
Proof.
  unfold range. rewrite in_map_iff. split.
  - intros [i [<- Hi]]. apply in_seq in Hi. lia.
  - intro H. exists (Z.to_nat (k - lo)). split; [lia|]. apply in_seq. lia.
Qed.

Lemma range_length (lo hi : Z) : length (range lo hi) = Z.to_nat (hi - lo).
Proof. unfold range. now rewrite length_map, length_seq. Qed.

Lemma NoDup_map_on {A B} (f : A -> B) (l : list A) :
  (forall x y, In x l -> In y l -> f x = f y -> x = y) ->
  NoDup l -> NoDup (map f l).
Proof.
  induction l as [|a l IH]; intros Hinj Hnd; simpl; [constructor|].
  inversion Hnd as [|? ? Hna Hnd']; subst. constructor.
  - rewrite in_map_iff. intros [b [Hb Hin]].
    apply Hinj in Hb; simpl; auto. subst b. contradiction.
  - apply IH; [|exact Hnd']. intros; apply Hinj; simpl; auto.
Qed.

Lemma range_NoDup (lo hi : Z) : NoDup (range lo hi).
Proof.
  unfold range. apply NoDup_map_on; [|apply seq_NoDup].
  intros i j _ _ H. lia.
Qed.

(** ** The dict *)

Section DictFacts.

Context {A : Type}.
Implicit Types (d : Dict.dict A) (k : string) (v : A).

Lemma dict_get_set_eq k v d : Dict.get k (Dict.set k v d) = Some v.
Proof.
  induction d as [|[k' v'] d IH]; simpl.
  - now rewrite String.eqb_refl.
  - destruct (String.eqb k' k) eqn:E; simpl; rewrite E; auto.
Qed.

Lemma dict_get_set_neq k k' v d : k <> k' -> Dict.get k' (Dict.set k v d) = Dict.get k' d.
Proof.
  intro Hne. induction d as [|[k0 v0] d IH]; simpl.
  - destruct (String.eqb k k') eqn:E; [apply String.eqb_eq in E; contradiction|reflexivity].
  - destruct (String.eqb k0 k) eqn:E; simpl.
    + apply String.eqb_eq in E; subst k0.
      destruct (String.eqb k k') eqn:E'; [apply String.eqb_eq in E'; contradiction|reflexivity].
    + now rewrite IH.
Qed.

Lemma dict_mem_In k d : Dict.mem k d = true <-> In k (Dict.keys d).
Proof.
  unfold Dict.mem. rewrite existsb_exists. split.
  - intros [x [Hin Hx]]. apply String.eqb_eq in Hx. now subst.
  - intro H. exists k. split; [exact H|apply String.eqb_refl].
Qed.

Lemma dict_get_In k d : Dict.get k d <> None <-> In k (Dict.keys d).
Proof.
  induction d as [|[k' v'] d IH]; simpl.
  - split; [congruence|tauto].
  - destruct (String.eqb k' k) eqn:E.
    + apply String.eqb_eq in E. split; [auto|congruence].
    + rewrite IH. split; [auto|]. intros [H|H]; [|exact H].
      subst. now rewrite String.eqb_refl in E.
Qed.

(** Assigning a key that is present keeps the keys as they are; a new key
    goes to the end. *)
Lemma dict_keys_set k v d :
  Dict.keys (Dict.set k v d) =
  if Dict.mem k d then Dict.keys d else Dict.keys d ++ [k].
Proof.
  unfold Dict.mem. induction d as [|[k' v'] d IH]; simpl; [reflexivity|].
  rewrite (String.eqb_sym k k').
  destruct (String.eqb k' k) eqn:E; simpl; [reflexivity|].
  rewrite IH. now destruct (existsb (String.eqb k) (Dict.keys d)).
Qed.

Lemma dict_keys_set_incl k v d : incl (Dict.keys d) (Dict.keys (Dict.set k v d)).
Proof.
  rewrite dict_keys_set. destruct (Dict.mem k d); [apply incl_refl|apply incl_appl, incl_refl].
Qed.

Lemma dict_set_NoDup k v d : NoDup (Dict.keys d) -> NoDup (Dict.keys (Dict.set k v d)).
Proof.
  intro Hnd. rewrite dict_keys_set. destruct (Dict.mem k d) eqn:E; [exact Hnd|].
  apply NoDup_app; [exact Hnd|repeat constructor; simpl; tauto|].
  intros x Hx [<-|[]]. apply dict_mem_In in Hx. congruence.
Qed.


Lemma dict_In_get k v d : NoDup (Dict.keys d) -> In (k, v) d -> Dict.get k d = Some v.
Proof.
  induction d as [|[k' v'] d IH]; simpl; [tauto|].
  intros Hnd [H|H]; inversion Hnd as [|? ? Hn Hnd']; subst.
  - injection H as -> ->. now rewrite String.eqb_refl.
  - destruct (String.eqb k' k) eqn:E; [|auto].
    apply String.eqb_eq in E; subst k'. exfalso. apply Hn.
    apply in_map_iff. exists (k, v). auto.
Qed.

Lemma dict_keys_pop k d d' :
  Dict.pop k d = Some d' ->
  NoDup (Dict.keys d) ->
  Dict.keys d' = filter (fun x => negb (String.eqb x k)) (Dict.keys d).
Proof.
  revert d'. induction d as [|[k' v'] d IH]; simpl; intros d' H Hnd; [discriminate|].
  inversion Hnd as [|? ? Hn Hnd']; subst.
  destruct (String.eqb k' k) eqn:E; simpl.
  - injection H as <-. apply String.eqb_eq in E; subst k'.
    symmetry. apply forallb_filter_id. apply forallb_forall.
    intros x Hx. destruct (String.eqb x k) eqn:E'; [|reflexivity].
    apply String.eqb_eq in E'; subst. contradiction.
  - destruct (Dict.pop k d) as [d0|] eqn:Ep; [|discriminate].
    injection H as <-. simpl. f_equal. now apply IH.
Qed.

Lemma dict_pop_Some k d : In k (Dict.keys d) -> exists d', Dict.pop k d = Some d'.
Proof.
  induction d as [|[k' v'] d IH]; simpl; [tauto|].
  destruct (String.eqb k' k) eqn:E; [eauto|].
  intros [H|H]; [subst; now rewrite String.eqb_refl in E|].
  destruct (IH H) as [d' ->]. simpl. eauto.
Qed.

Lemma dict_pop_None k d : ~ In k (Dict.keys d) -> Dict.pop k d = None.
Proof.
  induction d as [|[k' v'] d IH]; simpl; [reflexivity|].
  intro H. destruct (String.eqb k' k) eqn:E.
  - apply String.eqb_eq in E. tauto.
  - rewrite IH; [reflexivity|tauto].
Qed.

End DictFacts.

(** ** Frames *)

Section FrameFacts.

Import Pandas.

Context {V : Type}.
Implicit Types (X : DataFrame V) (s : Series V) (n m : string).

Lemma loc_set_loc_eq X n s : loc (set_loc X n s) n = Some s.
Proof.
  induction X as [|[n' s'] X IH]; simpl.
  - now rewrite String.eqb_refl.
  - destruct (String.eqb n' n) eqn:E; simpl; rewrite E; auto.
Qed.

Lemma loc_set_loc_neq X n m s : n <> m -> loc (set_loc X n s) m = loc X m.
Proof.
  intro Hne. induction X as [|[n' s'] X IH]; simpl.
  - destruct (String.eqb n m) eqn:E; [apply String.eqb_eq in E; contradiction|reflexivity].
  - destruct (String.eqb n' n) eqn:E; simpl.
    + apply String.eqb_eq in E; subst n'.
      destruct (String.eqb n m) eqn:E'; [apply String.eqb_eq in E'; contradiction|reflexivity].
    + now rewrite IH.
Qed.

Lemma loc_columns X n : loc X n <> None <-> In n (columns X).
Proof.
  induction X as [|[n' s'] X IH]; simpl.
  - split; [congruence|tauto].
  - destruct (String.eqb n' n) eqn:E.
    + apply String.eqb_eq in E. split; [auto|congruence].
    + rewrite IH. split; [auto|]. intros [H|H]; [|exact H].
      subst. now rewrite String.eqb_refl in E.
Qed.

Lemma loc_Some_In X n s : loc X n = Some s -> In (n, s) X.
Proof.
  induction X as [|[n' s'] X IH]; simpl; [discriminate|].
  destruct (String.eqb n' n) eqn:E; [|auto].
  apply String.eqb_eq in E. intros [= ->]. subst. auto.
Qed.

Lemma mem_columns n (l : list string) : existsb (String.eqb n) l = true <-> In n l.
Proof.
  rewrite existsb_exists. split.
  - intros [x [Hin Hx]]. apply String.eqb_eq in Hx. now subst.
  - intro H. exists n. split; [exact H|apply String.eqb_refl].
Qed.

Lemma columns_set_loc X n s :
  columns (set_loc X n s) =
  if existsb (String.eqb n) (columns X) then columns X else columns X ++ [n].
Proof.
  induction X as [|[n' s'] X IH]; simpl; [reflexivity|].
  rewrite (String.eqb_sym n n').
  destruct (String.eqb n' n) eqn:E; simpl; [reflexivity|].
  rewrite IH. now destruct (existsb (String.eqb n) (columns X)).
Qed.

Lemma in_columns_set_loc X n m s :
  In m (columns (set_loc X n s)) <-> m = n \/ In m (columns X).
Proof.
  rewrite columns_set_loc. destruct (existsb (String.eqb n) (columns X)) eqn:E.
  - apply mem_columns in E. split; [auto|]. intros [->|H]; auto.
  - rewrite in_app_iff. simpl. intuition.
Qed.

(** What [set_loc] stores: the new column and columns that were there. *)
Lemma in_set_loc X n s p : In p (set_loc X n s) -> p = (n, s) \/ In p X.
Proof.
  induction X as [|[n' s'] X IH]; simpl.
  - intros [<-|[]]; auto.
  - destruct (String.eqb n' n) eqn:E; simpl.
    + apply String.eqb_eq in E; subst n'. intros [<-|H]; auto.
    + intros [<-|H]; [auto|]. destruct (IH H) as [->|Hin]; auto.
Qed.

Lemma length_set_loc X n s :
  length (set_loc X n s) =
  if existsb (String.eqb n) (columns X) then length X else S (length X).
Proof.
  rewrite <- (length_map fst (set_loc X n s)). fold (columns (set_loc X n s)).
  rewrite columns_set_loc. unfold columns.
  destruct (existsb (String.eqb n) (map fst X)).
  - apply length_map.
  - rewrite length_app, length_map. simpl. lia.
Qed.

(** *** [shift] *)

Lemma shift_values_length k (vs : list (cell V)) :
  length (shift_values k vs) = length vs.
Proof.
  unfold shift_values. destruct (0 <=? k)%Z.
  - rewrite length_firstn, length_app, repeat_length.
    apply Nat.min_l, Nat.le_add_l.
  - rewrite length_app, length_skipn, repeat_length.
    generalize (length vs). intro n. lia.
Qed.

Lemma shift_values_nth k (vs : list (cell V)) i :
  (0 <= k)%Z ->
  i < length vs ->
  nth_error (shift_values k vs) i =
  if (Z.of_nat i <? k)%Z then Some None else nth_error vs (i - Z.to_nat k).
Proof.
  intros Hk Hi. unfold shift_values.
  replace (0 <=? k)%Z with true by (symmetry; now apply Z.leb_le).
  rewrite nth_error_firstn.
  apply Nat.ltb_lt in Hi. rewrite Hi.
  destruct (Z.of_nat i <? k)%Z eqn:E.
  - apply Z.ltb_lt in E. rewrite nth_error_app1 by (rewrite repeat_length; lia).
    apply nth_error_repeat. lia.
  - apply Z.ltb_ge in E. rewrite nth_error_app2 by (rewrite repeat_length; lia).
    now rewrite repeat_length.
Qed.

Variable to_float64 : V -> V.

Lemma promote_length t (vs : list (cell V)) : length (promote to_float64 t vs) = length vs.
Proof. unfold promote. apply length_map. Qed.

Lemma promote_nth t (vs : list (cell V)) i :
  nth_error (promote to_float64 t vs) i =
  option_map (option_map (promote_value to_float64 t)) (nth_error vs i).
Proof. unfold promote. apply nth_error_map. Qed.

Lemma shifted_length k s : length (values (shifted to_float64 k s)) = length (values s).
Proof. simpl. now rewrite shift_values_length, promote_length. Qed.

(** The cells of a column shifted down by [k]: missing above row [k], the
    promoted cell of [k] rows earlier from row [k] on. *)
Lemma shifted_nth k s i :
  (0 <= k)%Z ->
  i < length (values s) ->
  nth_error (values (shifted to_float64 k s)) i =
  if (Z.of_nat i <? k)%Z then Some None
  else option_map (option_map (promote_value to_float64 (dtype_of s)))
                  (nth_error (values s) (i - Z.to_nat k)).
Proof.
  intros Hk Hi. simpl. rewrite shift_values_nth by (rewrite ?promote_length; assumption).
  now rewrite promote_nth.
Qed.

Lemma can_shift_fits k s : (- 2 ^ 63 <= k < 2 ^ 63)%Z -> can_shift k s = true.
Proof.
  intro Hk. unfold can_shift, fits_c_long. destruct (values s); [reflexivity|].
  apply andb_true_intro. split; [apply Z.leb_le|apply Z.ltb_lt]; lia.
Qed.

Lemma can_shift_false k s :
  can_shift k s = false -> values s <> [] /\ ((k < - 2 ^ 63)%Z \/ (2 ^ 63 <= k)%Z).
Proof.
  unfold can_shift, fits_c_long. destruct (values s); [discriminate|].
  intro H. split; [discriminate|]. apply andb_false_iff in H.
  destruct H as [H|H]; [left; now apply Z.leb_gt|right; now apply Z.ltb_ge].
Qed.

Lemma in_firstn {A} (x : A) (len : nat) (l : list A) : In x (firstn len l) -> In x l.
Proof. intro H. rewrite <- (firstn_skipn len l). apply in_or_app. now left. Qed.

Lemma in_skipn {A} (x : A) (len : nat) (l : list A) : In x (skipn len l) -> In x l.
Proof. intro H. rewrite <- (firstn_skipn len l). apply in_or_app. now right. Qed.

(** A value of a shifted column is the promoted value of a cell of the
    column. *)
Lemma in_shifted k s v' :
  In (Some v') (values (shifted to_float64 k s)) ->
  exists v, In (Some v) (values s) /\ v' = promote_value to_float64 (dtype_of s) v.
Proof.
  simpl. unfold shift_values. intro H.
  assert (Hin : In (Some v') (promote to_float64 (dtype_of s) (values s))).
  { destruct (0 <=? k)%Z.
    - apply in_firstn, in_app_or in H. destruct H as [H|H]; [|exact H].
      apply repeat_spec in H. discriminate.
    - apply in_app_or in H. destruct H as [H|H]; [now apply in_skipn in H|].
      apply repeat_spec in H. discriminate. }
  unfold promote in Hin. apply in_map_iff in Hin. destruct Hin as [[v|] [Hv Hin]]; [|discriminate].
  injection Hv as <-. eauto.
Qed.

(** A shift by [k <> 0] either returns the shifted column or raises
    OverflowError. *)
Lemma shift_eq k s :
  k <> 0%Z ->
  shift to_float64 k s =
  if can_shift k s then inr (shifted to_float64 k s) else inl OverflowError.
Proof.
  intro Hk. unfold shift. now replace (k =? 0)%Z with false by (symmetry; now apply Z.eqb_neq).
Qed.

(** *** [dropna] *)

Lemma columns_dropna X : columns (dropna X) = columns X.
Proof. unfold dropna, columns. rewrite map_map. reflexivity. Qed.

Lemma in_take rows (vs : list (cell V)) c :
  In c (take rows vs) <-> exists i, In i rows /\ nth_error vs i = Some c.
Proof.
  unfold take. rewrite in_flat_map. split.
  - intros [i [Hi Hc]]. exists i. split; [exact Hi|].
    destruct (nth_error vs i); simpl in Hc; [|tauto]. intuition congruence.
  - intros [i [Hi Hc]]. exists i. split; [exact Hi|]. rewrite Hc. simpl; auto.
Qed.

Lemma dropna_no_missing X : lag_props.no_missing (dropna X).
Proof.
  intros n s c Hin Hc. unfold dropna in Hin.
  apply in_map_iff in Hin. destruct Hin as [p [Hp Hin]].
  injection Hp as _ <-. simpl in Hc.
  apply in_take in Hc. destruct Hc as [i [Hi Hc]].
  apply filter_In in Hi. destruct Hi as [_ Hi].
  unfold row_complete in Hi. rewrite forallb_forall in Hi.
  specialize (Hi p Hin). rewrite Hc in Hi.
  destruct c; [discriminate|discriminate].
Qed.

Lemma loc_dropna X n :
  loc (dropna X) n =
  option_map (fun s => mkSeries (dtype_of s)
                         (take (filter (row_complete X) (seq 0 (nrows X))) (values s)))
             (loc X n).
Proof.
  unfold dropna. generalize (filter (row_complete X) (seq 0 (nrows X))) as rows.
  intro rows. induction X as [|[n' s'] X IH]; simpl; [reflexivity|].
  destruct (String.eqb n' n); [reflexivity|apply IH].
Qed.

(** *** [astype] *)

Variable cast_value : dtype -> V -> option V.
Variable cast_missing : dtype -> option V.

Lemma astype_cells_no_new_missing t (cs cs' : list (cell V)) :
  astype_cells cast_value cast_missing t cs = Some cs' ->
  In None cs' -> In None cs.
Proof.
  revert cs'. induction cs as [|c cs IH]; simpl; intros cs' H Hin.
  - injection H as <-. exact Hin.
  - destruct (astype_cell cast_value cast_missing t c) as [c'|] eqn:Ec; [|discriminate].
    destruct (astype_cells cast_value cast_missing t cs) as [cs''|]; [|discriminate].
    injection H as <-. destruct Hin as [->|Hin]; [|right; eauto].
    left. destruct c as [v|]; [|reflexivity].
    simpl in Ec. destruct (cast_value t v); discriminate.
Qed.

Lemma astype_cells_length t (cs cs' : list (cell V)) :
  astype_cells cast_value cast_missing t cs = Some cs' -> length cs' = length cs.
Proof.
  revert cs'. induction cs as [|c cs IH]; simpl; intros cs' H.
  - now injection H as <-.
  - destruct (astype_cell cast_value cast_missing t c); [|discriminate].
    destruct (astype_cells cast_value cast_missing t cs); [|discriminate].
    injection H as <-. simpl. f_equal. now apply IH.
Qed.

Lemma astype_inr t s s' :
  astype cast_value cast_missing t s = inr s' ->
  dtype_of s' = t /\
  length (values s') = length (values s) /\
  (In None (values s') -> In None (values s)).
Proof.
  unfold astype. destruct (astype_cells cast_value cast_missing t (values s)) as [cs|] eqn:E;
    [|discriminate].
  intros [= <-]. simpl. repeat split.
  - eapply astype_cells_length; eauto.
  - eapply astype_cells_no_new_missing; eauto.
Qed.

Lemma astype_inl t s e : astype cast_value cast_missing t s = inl e -> e = ValueError.
Proof.
  unfold astype. destruct (astype_cells cast_value cast_missing t (values s)); congruence.
Qed.

Lemma no_missing_set_loc X n s :
  lag_props.no_missing X -> ~ In None (values s) -> lag_props.no_missing (set_loc X n s).
Proof.
  intros HX Hs n' s' c Hin Hc ->.
  apply in_set_loc in Hin. destruct Hin as [[= -> ->]|Hin]; [contradiction|].
  now apply (HX n' s' None Hin Hc).
Qed.

Lemma no_missing_loc X n s : lag_props.no_missing X -> loc X n = Some s -> ~ In None (values s).
Proof.
  intros HX Hl Hin. apply loc_Some_In in Hl. now apply (HX n s None Hl Hin).
Qed.

End FrameFacts.

(** ** [Lag]: the loops, the properties, failures and repeated calls *)

Section LagProofs.

Import Pandas lag lag_props.

Context {V : Type}.
Variable to_float64 : V -> V.
Variable cast_value : dtype -> V -> option V.
Variable cast_missing : dtype -> option V.
Implicit Types (self : Lag) (X : DataFrame V) (c : string) (k : Z).

(** *** The generation loop of [Lag.transform] *)

(** The four ways one assignment of the loop can end: the column is
    stored; the shift overflows, after the name was logged and the dtype
    recorded; the source column is missing, after the name was logged; the
    period check fails. *)
Lemma assign_lag_column_eq c k self X :
  assign_lag_column to_float64 c k (self, X) =
  if (k >? 0)%Z then
    match loc X c with
    | Some s =>
        if can_shift k s then
          ((record_dtype (lag_column_name c k) (dtype_of s)
              (append_new_column (lag_column_name c k) self),
            set_loc X (lag_column_name c k) (shifted to_float64 k s)), inr tt)
        else
          ((record_dtype (lag_column_name c k) (dtype_of s)
              (append_new_column (lag_column_name c k) self), X), inl OverflowError)
    | None => ((append_new_column (lag_column_name c k) self, X), inl (KeyError c))
    end
  else ((self, X), inl AssertionError).
Proof.
  unfold assign_lag_column, _generate_lag_column_and_update_dtype_map, read_column,
    assert, bind, set_self, set_X, get_X, modify, ret, raise.
  destruct (k >? 0)%Z eqn:Hk; simpl; [|reflexivity].
  destruct (loc X c) as [s|] eqn:E; simpl; rewrite ?E; [|reflexivity].
  rewrite (shift_eq to_float64) by (apply Z.gtb_lt in Hk; lia).
  destruct (can_shift k s); reflexivity.
Qed.

Lemma same_config_refl self : same_config self self.
Proof. repeat split. Qed.

Lemma same_config_trans (a b d : Lag) : same_config a b -> same_config b d -> same_config a d.
Proof. unfold same_config. intuition congruence. Qed.

Lemma same_config_periods a b : same_config a b -> lag_periods a = lag_periods b.
Proof. unfold same_config, lag_periods. intros (-> & _ & _ & _ & ->). reflexivity. Qed.

Lemma lag_step_config p self X :
  same_config self (fst (fst ((lag_step to_float64) p (self, X)))).
Proof.
  unfold lag_step. rewrite assign_lag_column_eq.
  destruct (snd p >? 0)%Z; [destruct (loc X (fst p)) as [s|]; [destruct (can_shift (snd p) s)|]|];
    repeat split.
Qed.

Lemma for_each_singleton {W A} (x : A) (body : A -> M W unit) w :
  for_each [x] body w = body x w.
Proof.
  simpl. unfold bind, ret. destruct (body x w) as [w' [e|[]]]; reflexivity.
Qed.

Lemma generate_for_column_eq c self X :
  generate_for_column to_float64 c (self, X) =
  for_each (map (pair c) (lag_periods self)) (lag_step to_float64) (self, X).
Proof.
  unfold generate_for_column, lag_periods, bind, get_self. simpl.
  destruct (only_one_column_for_periods self).
  - simpl map. now rewrite for_each_singleton.
  - now rewrite for_each_map.
Qed.

Lemma schedule_config sched self X :
  same_config self (fst (fst (for_each sched (lag_step to_float64) (self, X)))).
Proof.
  apply (for_each_inv (fun w => same_config self (fst w)) (fun _ => True));
    [|apply same_config_refl].
  intros p [self1 X1] _ H. split; [|trivial].
  eapply same_config_trans; [exact H|apply lag_step_config].
Qed.

(** The two nested loops run the schedule. *)
Lemma generate_lag_columns_eq self X :
  generate_lag_columns to_float64 (self, X) =
  match shift_columns self with
  | None => ((self, X), inl TypeError)
  | Some cols => for_each (schedule self cols) (lag_step to_float64) (self, X)
  end.
Proof.
  unfold generate_lag_columns, bind, get_self. simpl.
  destruct (shift_columns self) as [cols|]; [|reflexivity].
  unfold schedule. rewrite for_each_flat_map.
  apply (for_each_ext_inv (fun w => same_config self (fst w))).
  - intros c [self1 X1] _ H. rewrite generate_for_column_eq.
    now rewrite (same_config_periods _ _ H).
  - intros c [self1 X1] _ H. eapply same_config_trans; [exact H|].
    apply schedule_config.
  - apply same_config_refl.
Qed.

(** *** Invariants of a run of the schedule, whatever its outcome *)

Lemma lag_step_eq p self X :
  (lag_step to_float64) p (self, X) =
  if (snd p >? 0)%Z then
    match loc X (fst p) with
    | Some s =>
        if can_shift (snd p) s then
          ((record_dtype (step_name p) (dtype_of s) (append_new_column (step_name p) self),
            set_loc X (step_name p) (shifted to_float64 (snd p) s)), inr tt)
        else
          ((record_dtype (step_name p) (dtype_of s) (append_new_column (step_name p) self),
            X), inl OverflowError)
    | None => ((append_new_column (step_name p) self, X), inl (KeyError (fst p)))
    end
  else ((self, X), inl AssertionError).
Proof. unfold lag_step. apply assign_lag_column_eq. Qed.

(** The outcomes of one step, in the order: stored, overflow, missing
    source column, failed period check. *)
Ltac step_cases p self X :=
  rewrite lag_step_eq;
  destruct (snd p >? 0)%Z eqn:?;
    [destruct (loc X (fst p)) as [?s|] eqn:?;
       [destruct (can_shift (snd p) _) eqn:?|]|]; simpl.

Lemma schedule_keys sched self X :
  let self' := fst (fst (for_each sched (lag_step to_float64) (self, X))) in
  incl (Dict.keys (column_dtype_map self)) (Dict.keys (column_dtype_map self')) /\
  (NoDup (Dict.keys (column_dtype_map self)) -> NoDup (Dict.keys (column_dtype_map self'))).
Proof.
  simpl.
  apply (for_each_inv
           (fun w => incl (Dict.keys (column_dtype_map self))
                          (Dict.keys (column_dtype_map (fst w))) /\
                     (NoDup (Dict.keys (column_dtype_map self)) ->
                      NoDup (Dict.keys (column_dtype_map (fst w)))))
           (fun _ => True)); [|split; [apply incl_refl|auto]].
  intros p [self1 X1] _ [Hi Hn]. split; [|trivial]. simpl in *.
  step_cases p self1 X1; split; auto.
  - eapply incl_tran; [exact Hi|apply dict_keys_set_incl].
  - intro H. apply dict_set_NoDup. auto.
  - eapply incl_tran; [exact Hi|apply dict_keys_set_incl].
  - intro H. apply dict_set_NoDup. auto.
Qed.

Lemma schedule_frame sched self X :
  let X' := snd (fst (for_each sched (lag_step to_float64) (self, X))) in
  (forall m, ~ In m (map step_name sched) -> loc X' m = loc X m) /\
  (forall m, In m (columns X) -> In m (columns X')).
Proof.
  simpl.
  apply (for_each_inv
           (fun w => (forall m, ~ In m (map step_name sched) -> loc (snd w) m = loc X m) /\
                     (forall m, In m (columns X) -> In m (columns (snd w))))
           (fun _ => True)); [|split; auto].
  intros p [self1 X1] Hp [Hl Hc]. split; [|trivial]. simpl in *.
  step_cases p self1 X1; split; auto.
  - intros m Hm. rewrite loc_set_loc_neq; [auto|].
    intros <-. apply Hm. now apply in_map.
  - intros m Hm. apply in_columns_set_loc. auto.
Qed.

Lemma well_formed_set_loc X n (s s0 : Series V) c :
  well_formed X -> loc X c = Some s0 ->
  length (values s) = length (values s0) ->
  well_formed (set_loc X n s) /\ nrows (set_loc X n s) = nrows X.
Proof.
  intros Hwf Hc Hlen.
  assert (Hs0 : length (values s0) = nrows X).
  { apply loc_Some_In in Hc. unfold well_formed in Hwf. rewrite Forall_forall in Hwf.
    exact (Hwf _ Hc). }
  assert (Hrows : nrows (set_loc X n s) = nrows X).
  { destruct X as [|[n' s'] X]; [discriminate|]. simpl in Hs0 |- *.
    destruct (String.eqb n' n); simpl; [|reflexivity].
    now rewrite Hlen. }
  split; [|exact Hrows].
  unfold well_formed in *. rewrite Forall_forall in *. intros p Hp. rewrite Hrows.
  apply in_set_loc in Hp. destruct Hp as [->|Hp]; [simpl; congruence|auto].
Qed.

Lemma schedule_well_formed sched self X :
  well_formed X ->
  let X' := snd (fst (for_each sched (lag_step to_float64) (self, X))) in
  well_formed X' /\ nrows X' = nrows X.
Proof.
  intro Hwf. simpl.
  apply (for_each_inv (fun w => well_formed (snd w) /\ nrows (snd w) = nrows X)
                      (fun _ => True)); [|split; auto].
  intros p [self1 X1] _ [Hw Hr]. split; [|trivial]. simpl in *.
  step_cases p self1 X1; auto.
  destruct (well_formed_set_loc X1 (step_name p) (shifted to_float64 (snd p) s) s (fst p))
    as [H1 H2]; auto.
  - apply shifted_length.
  - split; [exact H1|congruence].
Qed.

(** With positive shift amounts the period check never fires: the only
    exceptions are the KeyError of a missing source column and the
    OverflowError of a shift. *)
Lemma schedule_exn sched self X e :
  (forall p, In p sched -> (0 < snd p)%Z) ->
  snd (for_each sched (lag_step to_float64) (self, X)) = inl e ->
  (exists c, e = KeyError c) \/ e = OverflowError.
Proof.
  intros Hpos.
  apply (for_each_inv (fun _ => True)
           (fun e => (exists c, e = KeyError c) \/ e = OverflowError)); [|trivial].
  intros p [self1 X1] Hp _. split; [trivial|].
  intro e'. step_cases p self1 X1; try discriminate.
  - intros [= <-]. now right.
  - intros [= <-]. eauto.
  - specialize (Hpos p Hp). lia.
Qed.

(** *** The names logged by a run *)

Lemma schedule_new_columns sched self X :
  let r := for_each sched (lag_step to_float64) (self, X) in
  (exists m, new_columns (fst (fst r)) = new_columns self ++ firstn m (map step_name sched)) /\
  (snd r = inr tt -> new_columns (fst (fst r)) = new_columns self ++ map step_name sched).
Proof.
  simpl. revert self X. induction sched as [|p sched IH]; intros self X.
  - simpl. split; [exists 0; simpl|intros _]; now rewrite app_nil_r.
  - rewrite for_each_cons. step_cases p self X.
    + match goal with |- context [for_each sched (lag_step to_float64) (?a, ?b)] =>
        destruct (IH a b) as [[m Hm] Hok] end.
      simpl in Hm, Hok. rewrite <- app_assoc in Hm, Hok. split.
      * exists (S m). exact Hm.
      * exact Hok.
    + split; [|discriminate]. exists 1. reflexivity.
    + split; [|discriminate]. exists 1. reflexivity.
    + split; [|discriminate]. exists 0. simpl. now rewrite app_nil_r.
Qed.

(** *** Runs that succeed *)

Lemma schedule_success sched self X :
  (forall p, In p sched -> (0 < snd p < 2 ^ 63)%Z) ->
  (forall p, In p sched -> In (fst p) (columns X)) ->
  snd (for_each sched (lag_step to_float64) (self, X)) = inr tt.
Proof.
  revert self X. induction sched as [|p sched IH]; intros self X Hpos Hcol; [reflexivity|].
  rewrite for_each_cons.
  pose proof (Hpos p (or_introl eq_refl)) as Hp.
  pose proof (Hcol p (or_introl eq_refl)) as Hc.
  apply loc_columns in Hc.
  step_cases p self X; [| |congruence|lia].
  2:{ rewrite can_shift_fits in * by lia. discriminate. }
  apply IH.
  - intros; apply Hpos; simpl; auto.
  - intros q Hq. apply in_columns_set_loc. right. apply Hcol; simpl; auto.
Qed.

Lemma schedule_columns sched self X self' X' :
  for_each sched (lag_step to_float64) (self, X) = ((self', X'), inr tt) ->
  (forall m, In m (columns X') <-> In m (columns X) \/ In m (map step_name sched)) /\
  (forall p, In p sched -> In (step_name p) (Dict.keys (column_dtype_map self'))).
Proof.
  revert self X. induction sched as [|p sched IH]; intros self X.
  - simpl. unfold ret. intros [= <- <-]. split; [intro m; tauto|intros p []].
  - rewrite for_each_cons. step_cases p self X; try discriminate.
    intro H. destruct (IH _ _ H) as [Hc Hk]. split.
    + intro m. rewrite Hc, in_columns_set_loc. intuition.
    + intros q [<-|Hq]; [|auto].
      pose proof (schedule_keys sched
        (record_dtype (step_name p) (dtype_of s) (append_new_column (step_name p) self))
        (set_loc X (step_name p) (shifted to_float64 (snd p) s))) as [Hi _].
      rewrite H in Hi. simpl in Hi. apply Hi.
      apply dict_get_In. rewrite dict_get_set_eq. discriminate.
Qed.

Lemma schedule_columns_fresh sched self X self' X' :
  for_each sched (lag_step to_float64) (self, X) = ((self', X'), inr tt) ->
  NoDup (map step_name sched) ->
  (forall m, In m (map step_name sched) -> ~ In m (columns X)) ->
  columns X' = columns X ++ map step_name sched.
Proof.
  revert self X. induction sched as [|p sched IH]; intros self X.
  - simpl. unfold ret. intros [= <- <-] _ _. now rewrite app_nil_r.
  - rewrite for_each_cons. step_cases p self X; try discriminate.
    intros Hrun Hnd Hfresh. simpl in Hnd. inversion Hnd as [|? ? Hp Hnd']; subst.
    assert (Hcols : columns (set_loc X (step_name p) (shifted to_float64 (snd p) s))
                    = columns X ++ [step_name p]).
    { rewrite columns_set_loc.
      destruct (existsb (String.eqb (step_name p)) (columns X)) eqn:E; [|reflexivity].
      apply mem_columns in E. exfalso. apply (Hfresh (step_name p)); simpl; auto. }
    rewrite (IH _ _ Hrun Hnd'); [rewrite Hcols, <- app_assoc; reflexivity|].
    intros m Hm. rewrite Hcols, in_app_iff. simpl. intros [H|[<-|[]]]; [|contradiction].
    apply (Hfresh m); simpl; auto.
Qed.

Lemma schedule_dict_other sched self X m :
  ~ In m (map step_name sched) ->
  Dict.get m (column_dtype_map (fst (fst (for_each sched (lag_step to_float64) (self, X))))) =
  Dict.get m (column_dtype_map self).
Proof.
  intro Hm.
  apply (for_each_inv
           (fun w => Dict.get m (column_dtype_map (fst w)) = Dict.get m (column_dtype_map self))
           (fun _ => True)); [|reflexivity].
  intros p [self1 X1] Hp H. split; [|trivial]. simpl in *.
  step_cases p self1 X1; auto;
    (rewrite dict_get_set_neq; [exact H|]; intros <-; apply Hm; now apply in_map).
Qed.

(** When every name is generated once and no source column is itself a
    generated name, each generated column ends as the shift of the column
    the input frame holds, tracked with that column's dtype. *)
Lemma schedule_final sched self X self' X' :
  NoDup (map step_name sched) ->
  (forall p, In p sched -> ~ In (fst p) (map step_name sched)) ->
  for_each sched (lag_step to_float64) (self, X) = ((self', X'), inr tt) ->
  forall p, In p sched ->
    exists s, loc X (fst p) = Some s /\
              Dict.get (step_name p) (column_dtype_map self') = Some (dtype_of s) /\
              loc X' (step_name p) = Some (shifted to_float64 (snd p) s).
Proof.
  revert self X. induction sched as [|q sched IH]; intros self X Hnd Hsrc Hrun p Hp;
    [destruct Hp|].
  rewrite for_each_cons in Hrun. revert Hrun. step_cases q self X; try discriminate.
  intro Hrun. simpl in Hnd. inversion Hnd as [|? ? Hq Hnd']; subst.
  destruct Hp as [<-|Hp].
  - exists s. split; [assumption|].
    pose proof (schedule_frame sched
      (record_dtype (step_name q) (dtype_of s) (append_new_column (step_name q) self))
      (set_loc X (step_name q) (shifted to_float64 (snd q) s))) as [Hloc _].
    rewrite Hrun in Hloc. simpl in Hloc. split.
    + pose proof (schedule_dict_other sched
        (record_dtype (step_name q) (dtype_of s) (append_new_column (step_name q) self))
        (set_loc X (step_name q) (shifted to_float64 (snd q) s)) (step_name q) Hq) as Hd.
      rewrite Hrun in Hd. simpl in Hd. rewrite Hd. apply dict_get_set_eq.
    + rewrite (Hloc _ Hq). apply loc_set_loc_eq.
  - destruct (IH _ _ Hnd' (fun r Hr H => Hsrc r (or_intror Hr) (or_intror H)) Hrun p Hp)
      as [s0 [Hs0 Hrest]].
    exists s0. split; [|exact Hrest].
    rewrite <- Hs0. symmetry. apply loc_set_loc_neq.
    intro Heq. apply (Hsrc p (or_intror Hp)). left. exact Heq.
Qed.

(** In a run that succeeds, every shift went through. *)
Lemma schedule_shifts sched self X self' X' :
  (forall p, In p sched -> ~ In (fst p) (map step_name sched)) ->
  for_each sched (lag_step to_float64) (self, X) = ((self', X'), inr tt) ->
  forall p (s : Series V), In p sched -> loc X (fst p) = Some s -> can_shift (snd p) s = true.
Proof.
  revert self X. induction sched as [|q sched IH]; intros self X Hsrc Hrun p s0 Hp Hs0;
    [destruct Hp|].
  rewrite for_each_cons in Hrun. revert Hrun. step_cases q self X; try discriminate.
  intro Hrun. destruct Hp as [<-|Hp]; [congruence|].
  apply (IH _ _ (fun r Hr H => Hsrc r (or_intror Hr) (or_intror H)) Hrun p s0 Hp).
  rewrite <- Hs0. apply loc_set_loc_neq.
  intro Heq. apply (Hsrc p (or_intror Hp)). left. exact Heq.
Qed.

(** *** The schedule of an object *)

Lemma schedule_names self cols :
  map step_name (schedule self cols) = generated_names self cols.
Proof.
  unfold schedule, generated_names, names_for.
  induction cols as [|c cols IH]; simpl; [reflexivity|].
  rewrite map_app, IH, map_map. reflexivity.
Qed.

Lemma in_schedule self cols p :
  In p (schedule self cols) <-> In (fst p) cols /\ In (snd p) (lag_periods self).
Proof.
  unfold schedule. rewrite in_flat_map. split.
  - intros [c [Hc Hp]]. apply in_map_iff in Hp. destruct Hp as [k [<- Hk]]. auto.
  - intros [Hc Hk]. exists (fst p). split; [exact Hc|].
    apply in_map_iff. exists (snd p). split; [now destruct p|exact Hk].
Qed.

Lemma lag_periods_pos self k :
  (0 < n_periods self)%Z -> In k (lag_periods self) -> (0 < k <= n_periods self)%Z.
Proof.
  unfold lag_periods. intro Hn. destruct (only_one_column_for_periods self).
  - intros [<-|[]]. lia.
  - rewrite range_spec. lia.
Qed.

Lemma schedule_pos self cols p :
  (0 < n_periods self)%Z -> In p (schedule self cols) -> (0 < snd p)%Z.
Proof.
  intros Hn Hp. apply in_schedule in Hp. destruct Hp as [_ Hk].
  now apply (lag_periods_pos self).
Qed.

(** The name of a lag column determines its source column and its shift
    amount. *)
Lemma lag_column_name_inj c k c' k' :
  (0 < k)%Z -> (0 < k')%Z ->
  lag_column_name c k = lag_column_name c' k' -> c = c' /\ k = k'.
Proof.
  intros Hk Hk' H. unfold lag_column_name, lag_name_suffix in H.
  apply (f_equal list_ascii_of_string) in H.
  rewrite !list_ascii_of_string_app in H.
  simpl in H.
  assert (E : forall (l rest : list ascii),
            l ++ "_"%char :: "L"%char :: "A"%char :: "G"%char :: rest =
            (l ++ ["_"; "L"; "A"; "G"]%char) ++ rest)
    by (intros; now rewrite <- app_assoc).
  rewrite (E (list_ascii_of_string c) ("-"%char :: list_ascii_of_string (str k))),
          (E (list_ascii_of_string c') ("-"%char :: list_ascii_of_string (str k'))) in H.
  apply split_at_last_dash in H; try now apply str_pos_no_dash.
  destruct H as [Hc Hs]. split.
  - apply app_inv_tail in Hc. now apply list_ascii_of_string_inj.
  - apply list_ascii_of_string_inj in Hs. now apply str_inj.
Qed.

Lemma schedule_NoDup self cols : NoDup cols -> NoDup (schedule self cols).
Proof.
  assert (Hp : NoDup (lag_periods self)).
  { unfold lag_periods. destruct (only_one_column_for_periods self);
      [repeat constructor; simpl; tauto|apply range_NoDup]. }
  unfold schedule. induction 1 as [|c cols Hc _ IH]; simpl; [constructor|].
  apply NoDup_app.
  - apply NoDup_map_on; [|exact Hp]. now intros x y _ _ [= ->].
  - exact IH.
  - intros p Hp1 Hp2. apply in_map_iff in Hp1. destruct Hp1 as [k [<- _]].
    apply in_flat_map in Hp2. destruct Hp2 as [c0 [Hc0 Hp2]].
    apply in_map_iff in Hp2. destruct Hp2 as [k0 [[= ->] _]]. contradiction.
Qed.

(** Distinct source columns give distinct generated names. *)
Lemma generated_names_NoDup self cols :
  (0 < n_periods self)%Z -> NoDup cols -> NoDup (generated_names self cols).
Proof.
  intros Hn Hnd. rewrite <- schedule_names. apply NoDup_map_on.
  - intros [c k] [c' k'] Hp Hp' H. unfold step_name in H. simpl in H.
    apply lag_column_name_inj in H.
    + destruct H as [-> ->]. reflexivity.
    + exact (schedule_pos self cols _ Hn Hp).
    + exact (schedule_pos self cols _ Hn Hp').
  - now apply schedule_NoDup.
Qed.

(** *** Casting the tracked columns *)

Lemma cast_column_eq col t self X :
  cast_column cast_value cast_missing (col, t) (self, X) =
  match loc X col with
  | None => ((self, X), inl (KeyError col))
  | Some s =>
      match astype cast_value cast_missing t s with
      | inl e => ((self, X), inl e)
      | inr s' => ((self, set_loc X col s'), inr tt)
      end
  end.
Proof.
  unfold cast_column, read_column, bind, get_X, set_X, modify, ret, raise. simpl.
  destruct (loc X col); [|reflexivity].
  destruct (astype cast_value cast_missing t s); reflexivity.
Qed.

Lemma cast_loop d self X self' X' :
  for_each d (cast_column cast_value cast_missing) (self, X) = ((self', X'), inr tt) ->
  self' = self /\
  columns X' = columns X /\
  (no_missing X -> no_missing X') /\
  (forall n, ~ In n (Dict.keys d) -> loc X' n = loc X n) /\
  (forall n, In n (Dict.keys d) -> In n (columns X)) /\
  (NoDup (Dict.keys d) ->
   forall n t, In (n, t) d -> exists s, loc X' n = Some s /\ dtype_of s = t).
Proof.
  revert X. induction d as [|[col t] d IH]; intros X.
  - simpl. unfold ret. intros [= <- <-]. repeat split; auto; tauto.
  - rewrite for_each_cons, cast_column_eq.
    destruct (loc X col) as [s|] eqn:Hloc; [|discriminate].
    destruct (astype cast_value cast_missing t s) as [e|s'] eqn:Hcast; [discriminate|].
    intro H. destruct (IH _ H) as (-> & Hcols & Hmiss & Hother & Hpresent & Htyped).
    assert (Hin : In col (columns X)) by (apply loc_columns; congruence).
    assert (Hsame : columns (set_loc X col s') = columns X).
    { rewrite columns_set_loc.
      destruct (existsb (String.eqb col) (columns X)) eqn:E; [reflexivity|].
      apply mem_columns in Hin. congruence. }
    destruct (astype_inr _ _ _ _ _ Hcast) as (Hdt & _ & Hnone).
    repeat split.
    + congruence.
    + intro HX. apply Hmiss. apply no_missing_set_loc; [exact HX|].
      intro Hn. apply Hnone in Hn. revert Hn. eapply no_missing_loc; eauto.
    + intros n Hn. simpl in Hn. rewrite Hother by tauto.
      apply loc_set_loc_neq. tauto.
    + intros n [<-|Hn]; [exact Hin|]. rewrite <- Hsame. auto.
    + intros Hnd n t' [[= <- <-]|Hn].
      * inversion Hnd as [|? ? Hnot _]; subst. exists s'.
        rewrite Hother by exact Hnot. rewrite loc_set_loc_eq. auto.
      * inversion Hnd; subst. auto.
Qed.

Lemma cast_loop_self d self X :
  fst (fst (for_each d (cast_column cast_value cast_missing) (self, X))) = self /\
  forall e, snd (for_each d (cast_column cast_value cast_missing) (self, X)) = inl e ->
            e <> AssertionError.
Proof.
  apply (for_each_inv (fun w => fst w = self) (fun e => e <> AssertionError)); [|reflexivity].
  intros [col t] [self1 X1] _ H. simpl in H. subst self1. rewrite cast_column_eq.
  destruct (loc X1 col) as [s|]; simpl; [|split; [reflexivity|intros e [= <-]; discriminate]].
  destruct (astype cast_value cast_missing t s) as [e|s'] eqn:Hc; simpl;
    split; try reflexivity; try discriminate.
  intros e' [= <-]. apply astype_inl in Hc. subst. discriminate.
Qed.

(** The casts go through on a frame without missing cells that holds the
    tracked columns, when pandas can convert the values. *)
Lemma astype_total t (s : Series V) :
  (forall t v, cast_value t v <> None) ->
  ~ In None (values s) ->
  exists s', astype cast_value cast_missing t s = inr s'.
Proof.
  intros Hcast Hs. unfold astype.
  assert (H : exists cs, astype_cells cast_value cast_missing t (values s) = Some cs).
  { induction (values s) as [|c cs IH]; simpl; [eauto|].
    destruct c as [v|]; [|exfalso; apply Hs; now left].
    simpl. destruct (cast_value t v) as [v'|] eqn:E; [|now apply Hcast in E].
    destruct IH as [cs' ->]; [intro H; apply Hs; now right|]. simpl. eauto. }
  destruct H as [cs ->]. eauto.
Qed.

Lemma cast_loop_success d self X :
  (forall t v, cast_value t v <> None) ->
  no_missing X ->
  (forall n, In n (Dict.keys d) -> In n (columns X)) ->
  snd (for_each d (cast_column cast_value cast_missing) (self, X)) = inr tt.
Proof.
  intro Hcast. revert X. induction d as [|[col t] d IH]; intros X Hmiss Hkeys; [reflexivity|].
  rewrite for_each_cons, cast_column_eq.
  destruct (loc X col) as [s|] eqn:Hloc;
    [|exfalso; apply (proj2 (loc_columns X col)) in Hloc; [exact Hloc|apply Hkeys; now left]].
  destruct (astype_total t s Hcast (no_missing_loc X col s Hmiss Hloc)) as [s' Hs'].
  rewrite Hs'. destruct (astype_inr _ _ _ _ _ Hs') as (_ & _ & Hnone).
  apply IH.
  - apply no_missing_set_loc; [exact Hmiss|].
    intro H. apply Hnone in H. revert H. now apply (no_missing_loc X col s).
  - intros n Hn. apply in_columns_set_loc. right. apply Hkeys. now right.
Qed.

Lemma schedule_keys_bound sched self X :
  incl (Dict.keys (column_dtype_map (fst (fst (for_each sched (lag_step to_float64) (self, X))))))
       (Dict.keys (column_dtype_map self) ++ map step_name sched).
Proof.
  apply (for_each_inv
           (fun w => incl (Dict.keys (column_dtype_map (fst w)))
                          (Dict.keys (column_dtype_map self) ++ map step_name sched))
           (fun _ => True)); [|apply incl_appl, incl_refl].
  intros p [self1 X1] Hp H. split; [|trivial]. simpl in *.
  step_cases p self1 X1; auto;
    (rewrite dict_keys_set;
     destruct (Dict.mem (step_name p) (column_dtype_map self1)); [exact H|];
     apply incl_app; [exact H|]; intros m [<-|[]]; apply in_or_app; right; now apply in_map).
Qed.

(** *** [transform] as the sequence of its three phases *)

Lemma widen_and_clean_eq self X :
  widen_and_clean to_float64 cast_value cast_missing (self, X) =
  match generate_lag_columns to_float64 (self, X) with
  | (w1, inl e) => (w1, inl e)
  | ((self1, X1), inr _) =>
      if drop_na_rows self1
      then for_each (column_dtype_map self1) (cast_column cast_value cast_missing)
                    (self1, dropna X1)
      else ((self1, X1), inr tt)
  end.
Proof.
  unfold widen_and_clean, bind.
  destruct (generate_lag_columns to_float64 (self, X)) as [[self1 X1] [e|u]]; [reflexivity|].
  unfold get_self. simpl. destruct (drop_na_rows self1); reflexivity.
Qed.

Lemma transform_eq self X :
  transform to_float64 cast_value cast_missing (self, X) =
  match widen_and_clean to_float64 cast_value cast_missing (self, X) with
  | (w1, inl e) => (w1, inl e)
  | ((self1, X1), inr _) =>
      if drop_original_columns self1 then
        match shift_columns self1 with
        | None => ((self1, X1), inl TypeError)
        | Some cols =>
            match drop X1 cols with
            | inl e => ((self1, X1), inl e)
            | inr X2 => ((self1, X2), inr X2)
            end
        end
      else ((self1, X1), inr X1)
  end.
Proof.
  rewrite widen_and_clean_eq. unfold transform, bind.
  destruct (generate_lag_columns to_float64 (self, X)) as [[self1 X1] [e|u]]; [reflexivity|].
  unfold get_self at 1. simpl.
  assert (Hdrop : forall w : world V,
    (let (w', s) :=
       (if drop_original_columns (fst w) then drop_shift_columns else ret tt) w in
     match s with
     | inl e => (w', inl e)
     | inr _ => get_X w'
     end) =
    (if drop_original_columns (fst w) then
       match shift_columns (fst w) with
       | None => (w, inl TypeError)
       | Some cols =>
           match drop (snd w) cols with
           | inl e => (w, inl e)
           | inr X2 => ((fst w, X2), inr X2)
           end
       end
     else (w, inr (snd w)))).
  { intros [s0 X0]. simpl. destruct (drop_original_columns s0); [|reflexivity].
    unfold drop_shift_columns, bind, get_self, get_X, set_X, modify, raise. simpl.
    destruct (shift_columns s0) as [cols|]; [|reflexivity].
    destruct (drop X0 cols); reflexivity. }
  destruct (drop_na_rows self1).
  - unfold _cast_cols_dtypes_to_original, set_X, modify, bind, get_self. simpl.
    destruct (for_each (column_dtype_map self1) (cast_column cast_value cast_missing)
                (self1, dropna X1)) as [[self2 X2] [e|u']]; [reflexivity|].
    unfold get_self. simpl. apply (Hdrop (self2, X2)).
  - unfold ret at 1. unfold get_self. simpl. apply (Hdrop (self1, X1)).
Qed.

(** Generation is the only phase that changes the object. *)
Lemma widen_and_clean_self self X :
  fst (fst (widen_and_clean to_float64 cast_value cast_missing (self, X))) =
  fst (fst (generate_lag_columns to_float64 (self, X))).
Proof.
  rewrite widen_and_clean_eq.
  destruct (generate_lag_columns to_float64 (self, X)) as [[self1 X1] [e|u]]; [reflexivity|].
  simpl. destruct (drop_na_rows self1); [|reflexivity].
  apply cast_loop_self.
Qed.

Lemma transform_self self X :
  fst (fst (transform to_float64 cast_value cast_missing (self, X))) =
  fst (fst (generate_lag_columns to_float64 (self, X))).
Proof.
  rewrite <- widen_and_clean_self, transform_eq.
  destruct (widen_and_clean to_float64 cast_value cast_missing (self, X)) as [[self1 X1] [e|u]];
    [reflexivity|].
  simpl. destruct (drop_original_columns self1); [|reflexivity].
  destruct (shift_columns self1) as [cols|]; [|reflexivity].
  destruct (drop X1 cols); reflexivity.
Qed.

Lemma generate_config self X :
  same_config self (fst (fst (generate_lag_columns to_float64 (self, X)))).
Proof.
  rewrite generate_lag_columns_eq. destruct (shift_columns self); [|apply same_config_refl].
  apply schedule_config.
Qed.

(** *** [drop] *)

Lemma loc_filter_names X (names : list string) m :
  loc (filter (fun p => negb (existsb (String.eqb (fst p)) names)) X) m =
  if existsb (String.eqb m) names then None else loc X m.
Proof.
  induction X as [|[n s] X IH]; simpl; [now destruct (existsb _ names)|].
  destruct (existsb (String.eqb n) names) eqn:En; simpl.
  - rewrite IH. destruct (String.eqb n m) eqn:E; [|reflexivity].
    apply String.eqb_eq in E; subst. now rewrite En.
  - destruct (String.eqb n m) eqn:E; [|exact IH].
    apply String.eqb_eq in E; subst. now rewrite En.
Qed.

Lemma columns_filter_names X (names : list string) :
  columns (filter (fun p => negb (existsb (String.eqb (fst p)) names)) X) =
  filter (fun m => negb (existsb (String.eqb m) names)) (columns X).
Proof.
  induction X as [|[n s] X IH]; simpl; [reflexivity|].
  destruct (existsb (String.eqb n) names); simpl; now rewrite IH.
Qed.

Lemma drop_inr X names X' :
  drop X names = inr X' ->
  X' = filter (fun p => negb (existsb (String.eqb (fst p)) names)) X /\
  (forall c, In c names -> In c (columns X)).
Proof.
  unfold drop.
  destruct (find (fun n => negb (existsb (String.eqb n) (columns X))) names) eqn:E;
    [discriminate|].
  intros [= <-]. split; [reflexivity|].
  intros c Hc. pose proof (find_none _ _ E c Hc) as H. simpl in H.
  apply negb_false_iff in H. now apply mem_columns.
Qed.

Lemma drop_total X (names : list string) :
  (forall c, In c names -> In c (columns X)) -> exists X', drop X names = inr X'.
Proof.
  intro H. unfold drop.
  destruct (find (fun n => negb (existsb (String.eqb n) (columns X))) names) eqn:E; [|eauto].
  apply find_some in E. destruct E as [E1 E2]. apply negb_true_iff in E2.
  apply H, mem_columns in E1. congruence.
Qed.

(** *** Calls that return *)

Lemma schedule_fits self cols p :
  (0 < n_periods self < 2 ^ 63)%Z -> In p (schedule self cols) -> (0 < snd p < 2 ^ 63)%Z.
Proof.
  intros Hn Hp. apply in_schedule in Hp. destruct Hp as [_ Hk].
  apply (lag_periods_pos self) in Hk; lia.
Qed.

Lemma transform_returns self X cols :
  shift_columns self = Some cols ->
  (0 < n_periods self < 2 ^ 63)%Z ->
  (forall c, In c cols -> In c (columns X)) ->
  (drop_na_rows self = true ->
   (forall t v, cast_value t v <> None) /\
   (forall m, In m (Dict.keys (column_dtype_map self)) ->
              In m (columns X) \/ In m (generated_names self cols))) ->
  exists self' X',
    transform to_float64 cast_value cast_missing (self, X) = ((self', X'), inr X').
Proof.
  intros Hs Hn Hsrc Hdna. rewrite transform_eq, widen_and_clean_eq.
  pose proof (generate_config self X) as Hcfg.
  pose proof (schedule_keys_bound (schedule self cols) self X) as Hbound.
  assert (Hok : snd (generate_lag_columns to_float64 (self, X)) = inr tt).
  { rewrite generate_lag_columns_eq, Hs. apply schedule_success.
    - intros p Hp. now apply (schedule_fits self cols).
    - intros p Hp. apply in_schedule in Hp. apply Hsrc, Hp. }
  rewrite generate_lag_columns_eq, Hs in Hcfg, Hok |- *.
  destruct (for_each (schedule self cols) (lag_step to_float64) (self, X)) as [[self1 Xw] [e|[]]] eqn:Hgen;
    [discriminate|].
  simpl in Hcfg, Hbound. destruct Hcfg as (_ & Hsc & Hd & Hdoc & _).
  destruct (schedule_columns _ _ _ _ _ Hgen) as [Hcols _].
  rewrite schedule_names in Hcols, Hbound.
  assert (Hdrop : forall X1, columns X1 = columns Xw ->
    exists self' X',
      (if drop_original_columns self1 then
         match shift_columns self1 with
         | None => ((self1, X1), inl TypeError)
         | Some cols => match drop X1 cols with
                        | inl e => ((self1, X1), inl e)
                        | inr X2 => ((self1, X2), inr X2)
                        end
         end
       else ((self1, X1), inr X1)) = ((self', X'), inr X')).
  { intros X1 HX1. destruct (drop_original_columns self1); [|eauto].
    rewrite <- Hsc, Hs.
    destruct (drop_total X1 cols) as [X2 ->]; [|eauto].
    intros c Hc. rewrite HX1. apply Hcols. left. now apply Hsrc. }
  rewrite <- Hd. destruct (drop_na_rows self) eqn:Hdrows; [|now apply Hdrop].
  destruct (Hdna eq_refl) as [Hcast Hkeys].
  pose proof (cast_loop_success (column_dtype_map self1) self1 (dropna Xw) Hcast
                (dropna_no_missing Xw)) as Hc.
  destruct (for_each (column_dtype_map self1) (cast_column cast_value cast_missing)
              (self1, dropna Xw)) as [[self2 Xc] [e|[]]] eqn:Hcl.
  - simpl in Hc. discriminate Hc.
    intros m Hm. rewrite columns_dropna. apply Hcols.
    apply Hbound, in_app_iff in Hm. destruct Hm as [Hm|Hm]; [|now right].
    destruct (Hkeys m Hm); [now left|now right].
  - destruct (cast_loop _ _ _ _ _ Hcl) as (-> & Hcc & _).
    apply Hdrop. now rewrite Hcc, columns_dropna.
Qed.

(** The casts go through when every tracked column, as it stands before
    the loop, holds only cells that convert to the recorded dtype. *)
Lemma astype_cells_success t (cs : list (cell V)) :
  (forall cl, In cl cs -> astype_cell cast_value cast_missing t cl <> None) ->
  exists cs', astype_cells cast_value cast_missing t cs = Some cs'.
Proof.
  induction cs as [|cl cs IH]; intro H; simpl; [eauto|].
  destruct (astype_cell cast_value cast_missing t cl) as [c'|] eqn:E;
    [|exfalso; apply (H cl); [now left|exact E]].
  destruct IH as [cs' ->]; [intros; apply H; now right|]. eauto.
Qed.

Lemma cast_loop_success_if d self X :
  NoDup (Dict.keys d) ->
  (forall col t, In (col, t) d ->
     exists s, loc X col = Some s /\
               forall cl, In cl (values s) ->
                          astype_cell cast_value cast_missing t cl <> None) ->
  snd (for_each d (cast_column cast_value cast_missing) (self, X)) = inr tt.
Proof.
  revert X. induction d as [|[col t] d IH]; intros X Hnd Hall; [reflexivity|].
  rewrite for_each_cons, cast_column_eq.
  destruct (Hall col t (or_introl eq_refl)) as [s [Hs Hcells]]. rewrite Hs.
  destruct (astype_cells_success t (values s) Hcells) as [cs' Hcs].
  unfold astype. rewrite Hcs.
  simpl in Hnd. inversion Hnd as [|? ? Hcol Hnd']; subst.
  apply IH; [exact Hnd'|].
  intros col' t' Hin. destruct (Hall col' t' (or_intror Hin)) as [s0 [Hs0 H0]].
  exists s0. split; [|exact H0]. rewrite <- Hs0. apply loc_set_loc_neq.
  intros <-. apply Hcol. apply in_map_iff. exists (col, t'). auto.
Qed.

(** A call returns when the names it generates are distinct from the
    source columns, the columns tracked so far are among them, and every
    value of a source column, once promoted by [shift], converts back to
    the dtype of the column. *)
Lemma transform_returns_fresh self X cols :
  shift_columns self = Some cols ->
  (0 < n_periods self < 2 ^ 63)%Z ->
  (forall c, In c cols -> In c (columns X)) ->
  (drop_na_rows self = true ->
   NoDup cols /\
   (forall m, In m (generated_names self cols) -> ~ In m cols) /\
   NoDup (Dict.keys (column_dtype_map self)) /\
   incl (Dict.keys (column_dtype_map self)) (generated_names self cols) /\
   (forall c (s : Series V) v,
      In c cols -> loc X c = Some s -> In (Some v) (values s) ->
      cast_value (dtype_of s) (promote_value to_float64 (dtype_of s) v) <> None)) ->
  exists self' X',
    transform to_float64 cast_value cast_missing (self, X) = ((self', X'), inr X').
Proof.
  intros Hs Hn Hsrc Hdna. rewrite transform_eq, widen_and_clean_eq.
  pose proof (generate_config self X) as Hcfg.
  pose proof (schedule_keys_bound (schedule self cols) self X) as Hbound.
  pose proof (schedule_keys (schedule self cols) self X) as [_ Hkeys].
  assert (Hok : snd (generate_lag_columns to_float64 (self, X)) = inr tt).
  { rewrite generate_lag_columns_eq, Hs. apply schedule_success.
    - intros p Hp. now apply (schedule_fits self cols).
    - intros p Hp. apply in_schedule in Hp. apply Hsrc, Hp. }
  rewrite generate_lag_columns_eq, Hs in Hcfg, Hok |- *.
  destruct (for_each (schedule self cols) (lag_step to_float64) (self, X))
    as [[self1 Xw] [e|[]]] eqn:Hgen; [discriminate|].
  simpl in Hcfg, Hbound, Hkeys. destruct Hcfg as (_ & Hsc & Hd & Hdoc & _).
  destruct (schedule_columns _ _ _ _ _ Hgen) as [Hcols _].
  rewrite schedule_names in Hcols, Hbound.
  assert (Hdrop : forall X1, columns X1 = columns Xw ->
    exists self' X',
      (if drop_original_columns self1 then
         match shift_columns self1 with
         | None => ((self1, X1), inl TypeError)
         | Some cols => match drop X1 cols with
                        | inl e => ((self1, X1), inl e)
                        | inr X2 => ((self1, X2), inr X2)
                        end
         end
       else ((self1, X1), inr X1)) = ((self', X'), inr X')).
  { intros X1 HX1. destruct (drop_original_columns self1); [|eauto].
    rewrite <- Hsc, Hs.
    destruct (drop_total X1 cols) as [X2 ->]; [|eauto].
    intros c Hc. rewrite HX1. apply Hcols. left. now apply Hsrc. }
  rewrite <- Hd. destruct (drop_na_rows self) eqn:Hdrows; [|now apply Hdrop].
  destruct (Hdna eq_refl) as (Hnd & Hfresh & Hndk & Hold & Hcast).
  assert (Hnames : NoDup (map step_name (schedule self cols))).
  { rewrite schedule_names. apply generated_names_NoDup; tauto. }
  assert (Hsources : forall p, In p (schedule self cols) ->
                               ~ In (fst p) (map step_name (schedule self cols))).
  { intros p Hp H. rewrite schedule_names in H. apply (Hfresh _ H).
    apply in_schedule in Hp. tauto. }
  pose proof (schedule_final _ _ _ _ _ Hnames Hsources Hgen) as Hfin.
  assert (Hc : snd (for_each (column_dtype_map self1) (cast_column cast_value cast_missing)
                      (self1, dropna Xw)) = inr tt).
  { apply cast_loop_success_if; [now apply Hkeys|].
    intros col t Hin.
    assert (Hcol : In col (map step_name (schedule self cols))).
    { rewrite schedule_names.
      assert (Hk : In col (Dict.keys (column_dtype_map self1)))
        by (apply in_map_iff; exists (col, t); auto).
      apply Hbound, in_app_iff in Hk. destruct Hk as [Hk|Hk]; [now apply Hold|exact Hk]. }
    apply in_map_iff in Hcol. destruct Hcol as [p [<- Hp]].
    destruct (Hfin p Hp) as (s & Hsp & Hget & Hlag).
    apply (dict_In_get _ _ _ (Hkeys Hndk)) in Hin. rewrite Hget in Hin. injection Hin as <-.
    rewrite loc_dropna, Hlag. simpl. eexists. split; [reflexivity|]. simpl.
    intros cl Hc.
    assert (Hnone : cl <> None).
    { apply (dropna_no_missing Xw (step_name p)
               (mkSeries (shift_dtype (dtype_of s))
                  (take (filter (row_complete Xw) (seq 0 (nrows Xw)))
                        (shift_values (snd p) (promote to_float64 (dtype_of s) (values s)))))).
      - apply loc_Some_In. rewrite loc_dropna, Hlag. reflexivity.
      - exact Hc. }
    destruct cl as [v'|]; [|contradiction]. simpl.
    apply in_take in Hc. destruct Hc as [i [_ Hi]]. apply nth_error_In in Hi.
    destruct (in_shifted to_float64 (snd p) s v' Hi) as [v [Hv ->]].
    apply in_schedule in Hp.
    pose proof (Hcast (fst p) s v (proj1 Hp) Hsp Hv) as Hne.
    destruct (cast_value (dtype_of s) (promote_value to_float64 (dtype_of s) v));
      [discriminate|contradiction]. }
  destruct (for_each (column_dtype_map self1) (cast_column cast_value cast_missing)
              (self1, dropna Xw)) as [[self2 Xc] [e|[]]] eqn:Hcl; [discriminate|].
  destruct (cast_loop _ _ _ _ _ Hcl) as (-> & Hcc & _).
  apply Hdrop. now rewrite Hcc, columns_dropna.
Qed.

(** The lag names of a source column, written out. *)
Lemma names_for_explicit self c :
  names_for self c =
  if only_one_column_for_periods self
  then [(c ++ "_LAG-" ++ str (n_periods self))%string]
  else map (fun i => (c ++ "_LAG-" ++ str (Z.of_nat i))%string)
           (seq 1 (Z.to_nat (n_periods self))).
Proof.
  unfold names_for, lag_periods. destruct (only_one_column_for_periods self); [reflexivity|].
  unfold range. replace (n_periods self + 1 - 1)%Z with (n_periods self) by lia.
  rewrite <- seq_shift, !map_map. apply map_ext. intro i.
  unfold lag_column_name, lag_name_suffix. do 3 f_equal. lia.
Qed.

(** *** Properties of [Lag] *)

(** C1 (as amended).  The loop of [transform] runs one assignment per pair
    of its schedule.  For every frame, every source column [c] of
    [shift_columns] that the frame holds and every shift amount [k] of the
    loop ([1..n_periods] with one column per step, [n_periods] alone
    otherwise; [n_periods] below [2^63]), the assignment for [(c, k)]
    succeeds and stores under [c + "_LAG-" + str(k)] a column of the same
    length as [c] and of the dtype [shift] promotes [c] to.  The column is
    missing at every row [i < k], and has at every row [i >= k] the cell
    that [c] has at row [i - k] when the column is generated: the very
    cell, except in an int64 column, whose values are converted to
    float64.  When the source columns are pairwise distinct and no
    generated name is itself a source column, this is also the column
    found under that name in the frame the whole loop returns, and in the
    frame [transform] returns without [drop_na_rows], so the cells are
    those of the input frame. *)
Theorem lag_column_values self X cols c k (s : Series V) :
  shift_columns self = Some cols ->
  In c cols ->
  (0 < n_periods self < 2 ^ 63)%Z ->
  (if only_one_column_for_periods self
   then k = n_periods self
   else (1 <= k <= n_periods self)%Z) ->
  loc X c = Some s ->
  generate_lag_columns to_float64 (self, X) =
    for_each (schedule self cols)
             (fun p => assign_lag_column to_float64 (fst p) (snd p)) (self, X) /\
  In (c, k) (schedule self cols) /\
  exists self' X' s',
    assign_lag_column to_float64 c k (self, X) = ((self', X'), inr tt) /\
    loc X' (c ++ "_LAG-" ++ str k)%string = Some s' /\
    length (values s') = length (values s) /\
    dtype_of s' = shift_dtype (dtype_of s) /\
    (forall i, i < length (values s) ->
      ((Z.of_nat i < k)%Z -> nth_error (values s') i = Some None) /\
      ((k <= Z.of_nat i)%Z ->
       nth_error (values s') i =
       option_map (fun cell => match dtype_of s with
                               | Int64 => option_map to_float64 cell
                               | _ => cell
                               end)
                  (nth_error (values s) (i - Z.to_nat k)))) /\
    (NoDup cols ->
     (forall m, In m (generated_names self cols) -> ~ In m cols) ->
     (forall self2 X2,
        generate_lag_columns to_float64 (self, X) = ((self2, X2), inr tt) ->
        loc X2 (c ++ "_LAG-" ++ str k)%string = Some s') /\
     (drop_na_rows self = false ->
      forall self2 X2 R,
        transform to_float64 cast_value cast_missing (self, X) = ((self2, X2), inr R) ->
        loc R (c ++ "_LAG-" ++ str k)%string = Some s')).
Proof.
  intros Hcols Hc Hn Hk Hloc.
  assert (Hin : In k (lag_periods self)).
  { unfold lag_periods. destruct (only_one_column_for_periods self).
    - left. now symmetry.
    - apply range_spec. lia. }
  assert (Hpos : (0 < k <= n_periods self)%Z) by (apply (lag_periods_pos self k); tauto).
  assert (Hfinal : NoDup cols ->
            (forall m, In m (generated_names self cols) -> ~ In m cols) ->
            forall self2 X2,
              generate_lag_columns to_float64 (self, X) = ((self2, X2), inr tt) ->
              loc X2 (c ++ "_LAG-" ++ str k)%string = Some (shifted to_float64 k s)).
  { intros Hnd Hfresh self2 X2 Hrun.
    apply (generated_names_NoDup self cols (proj1 Hn)) in Hnd.
    rewrite generate_lag_columns_eq, Hcols in Hrun.
    rewrite <- schedule_names in Hnd, Hfresh.
    assert (Hp : In (c, k) (schedule self cols)) by (apply in_schedule; simpl; auto).
    destruct (schedule_final _ _ _ _ _ Hnd
                (fun p Hp' H => Hfresh _ H (proj1 (proj1 (in_schedule _ _ _) Hp')))
                Hrun (c, k) Hp) as [s0 (Hs0 & _ & Hfin)].
    simpl in Hs0, Hfin. rewrite Hloc in Hs0. injection Hs0 as <-. exact Hfin. }
  split; [|split].
  - rewrite generate_lag_columns_eq, Hcols. reflexivity.
  - apply in_schedule. simpl. auto.
  - rewrite assign_lag_column_eq, Hloc.
    replace (k >? 0)%Z with true by (symmetry; apply Z.gtb_lt; lia).
    rewrite can_shift_fits by lia.
    eexists _, _, (shifted to_float64 k s). split; [reflexivity|].
    split; [apply loc_set_loc_eq|]. split; [apply shifted_length|].
    split; [reflexivity|]. split.
    + intros i Hi. rewrite (shifted_nth to_float64 k s i) by (lia || exact Hi).
      split; intro H.
      * apply Z.ltb_lt in H. now rewrite H.
      * apply Z.ltb_ge in H. rewrite H.
        destruct (nth_error (values s) (i - Z.to_nat k)) as [cell|]; [|reflexivity].
        simpl. unfold promote_value. destruct (dtype_of s), cell; reflexivity.
    + intros Hnd Hfresh. split; [now apply Hfinal|].
      intros Hdna self2 X2 R Hrun. rewrite transform_eq, widen_and_clean_eq in Hrun.
      pose proof (generate_config self X) as Hcfg.
      destruct (generate_lag_columns to_float64 (self, X)) as [[self1 Xw] [e|[]]] eqn:Hgen;
        [discriminate|].
      simpl in Hcfg. destruct Hcfg as (_ & Hsc & Hd & Hdoc & _).
      rewrite <- Hd, Hdna, <- Hsc, Hcols in Hrun.
      specialize (Hfinal Hnd Hfresh _ _ eq_refl).
      destruct (drop_original_columns self1).
      * destruct (drop Xw cols) as [e|X3] eqn:Hdr; [discriminate|].
        injection Hrun as _ _ <-. apply drop_inr in Hdr. destruct Hdr as [-> _].
        rewrite loc_filter_names.
        destruct (existsb (String.eqb (c ++ "_LAG-" ++ str k)%string) cols) eqn:E;
          [|exact Hfinal].
        apply mem_columns in E. exfalso. apply (Hfresh (c ++ "_LAG-" ++ str k)%string); [|exact E].
        unfold generated_names. apply in_flat_map. exists c. split; [exact Hc|].
        unfold names_for. apply in_map_iff. exists k. split; [reflexivity|exact Hin].
      * injection Hrun as _ _ <-. exact Hfinal.
Qed.

Lemma names_for_NoDup self c : NoDup (names_for self c).
Proof.
  unfold names_for. apply NoDup_map_on.
  - intros a b _ _ H. unfold lag_column_name, lag_name_suffix in H.
    apply append_inv_head in H. simpl in H. injection H as H. now apply str_inj.
  - unfold lag_periods. destruct (only_one_column_for_periods self).
    + repeat constructor. simpl. tauto.
    + apply range_NoDup.
Qed.

Lemma filter_all {A} (l : list A) : filter (fun _ => true) l = l.
Proof. induction l as [|a l IH]; simpl; [reflexivity|now rewrite IH]. Qed.

(** C2 (as amended).  Take pairwise distinct source columns and a frame
    that holds none of the names [c + "_LAG-" + str(k)] the call
    generates.  A [transform] call that returns has appended to the
    columns of the frame, for every source column [c] in order, the [n]
    columns [c_LAG-1 .. c_LAG-n] ([n = n_periods], [n] distinct names)
    when a column per step is asked for, and the single column [c_LAG-n]
    otherwise, and, with [drop_original_columns], has then removed the
    columns named in [shift_columns]: without that removal the frame has
    [n] (respectively one) more columns per source column.  The object
    logs the same names in the same order.  The call returns whenever the
    frame holds the source columns, [n_periods] is below [2^63] and, with
    [drop_na_rows], the columns tracked so far are among the generated ones
    and every value of a source column, as promoted by [shift], converts
    back to the dtype of the column. *)
Theorem lag_generated_columns self X cols :
  shift_columns self = Some cols ->
  (0 < n_periods self < 2 ^ 63)%Z ->
  NoDup cols ->
  let names := fun c =>
    if only_one_column_for_periods self
    then [(c ++ "_LAG-" ++ str (n_periods self))%string]
    else map (fun i => (c ++ "_LAG-" ++ str (Z.of_nat i))%string)
             (seq 1 (Z.to_nat (n_periods self))) in
  let count := if only_one_column_for_periods self then 1 else Z.to_nat (n_periods self) in
  (forall c m, In c cols -> In m (names c) -> ~ In m (columns X)) ->
  ((forall c, In c cols -> In c (columns X)) ->
   (drop_na_rows self = true ->
    NoDup (Dict.keys (column_dtype_map self)) /\
    (forall m, In m (Dict.keys (column_dtype_map self)) -> In m (flat_map names cols)) /\
    (forall c (s : Series V) v,
       In c cols -> loc X c = Some s -> In (Some v) (values s) ->
       cast_value (dtype_of s) (promote_value to_float64 (dtype_of s) v) <> None)) ->
   exists self' X',
     transform to_float64 cast_value cast_missing (self, X) = ((self', X'), inr X')) /\
  (forall self' X' R,
     transform to_float64 cast_value cast_missing (self, X) = ((self', X'), inr R) ->
     R = X' /\
     columns X' =
       filter (fun m => negb (drop_original_columns self && existsb (String.eqb m) cols))
              (columns X ++ flat_map names cols) /\
     (drop_original_columns self = false ->
      length (columns X') = length (columns X) + length cols * count) /\
     (forall m, In m (flat_map names cols) -> ~ In m cols -> In m (columns X')) /\
     new_columns self' = new_columns self ++ flat_map names cols) /\
  (forall c, NoDup (names c) /\ length (names c) = count) /\
  NoDup (flat_map names cols) /\
  length (flat_map names cols) = length cols * count.
Proof.
  intros Hs Hn Hnd names count Hfresh.
  assert (Hnames : forall c, names c = names_for self c)
    by (intro c; symmetry; apply names_for_explicit).
  assert (Hflat : flat_map names cols = generated_names self cols)
    by (apply flat_map_ext; intros c; apply Hnames).
  assert (Hlen : forall c, length (names c) = count).
  { intro c. unfold names, count. destruct (only_one_column_for_periods self); [reflexivity|].
    now rewrite length_map, length_seq. }
  assert (Hcount : length (flat_map names cols) = length cols * count).
  { clear -Hlen. induction cols as [|c cols IH]; simpl; [reflexivity|].
    now rewrite length_app, Hlen, IH. }
  assert (Hgen_nd : NoDup (generated_names self cols))
    by (apply generated_names_NoDup; tauto).
  assert (Hfresh' : forall m, In m (generated_names self cols) -> ~ In m (columns X)).
  { intros m Hm. rewrite <- Hflat in Hm. apply in_flat_map in Hm.
    destruct Hm as [c [Hc Hm]]. eauto. }
  split; [|split; [|split; [|split]]].
  - intros Hsrc Hdna. apply (transform_returns_fresh self X cols); auto.
    intro Hd. destruct (Hdna Hd) as (Hk1 & Hk2 & Hk3).
    split; [exact Hnd|]. split; [|split; [exact Hk1|split; [|exact Hk3]]].
    + intros m Hm Hin. exact (Hfresh' m Hm (Hsrc m Hin)).
    + intros m Hm. rewrite <- Hflat. auto.
  - intros self' X' R Hrun. rewrite transform_eq, widen_and_clean_eq in Hrun.
    pose proof (generate_config self X) as Hcfg.
    destruct (generate_lag_columns to_float64 (self, X)) as [[self1 Xw] [e|[]]] eqn:Hgen;
      [discriminate|].
    simpl in Hcfg. destruct Hcfg as (_ & Hsc & Hd & Hdoc & _).
    rewrite generate_lag_columns_eq, Hs in Hgen.
    pose proof (schedule_columns_fresh _ _ _ _ _ Hgen) as Hcols.
    destruct (schedule_new_columns (schedule self cols) self X) as [_ Hlog].
    rewrite Hgen in Hlog. simpl in Hlog. specialize (Hlog eq_refl).
    rewrite schedule_names in Hcols, Hlog. specialize (Hcols Hgen_nd Hfresh').
    assert (Hclean : exists Xc,
              (if drop_na_rows self1
               then for_each (column_dtype_map self1) (cast_column cast_value cast_missing)
                             (self1, dropna Xw)
               else ((self1, Xw), inr tt)) = ((self1, Xc), inr tt) /\
              columns Xc = columns Xw).
    { destruct (drop_na_rows self1); [|eauto].
      destruct (for_each (column_dtype_map self1) (cast_column cast_value cast_missing)
                  (self1, dropna Xw)) as [[self2 Xc] [e|[]]] eqn:Hcl; [discriminate|].
      destruct (cast_loop _ _ _ _ _ Hcl) as (-> & Hcc & _).
      exists Xc. split; [reflexivity|]. now rewrite Hcc, columns_dropna. }
    destruct Hclean as (Xc & Hc & Hcc). rewrite Hc in Hrun.
    rewrite <- Hdoc, <- Hsc, Hs in Hrun. rewrite Hflat.
    assert (Hres : R = X' /\
              columns X' =
                filter (fun m => negb (drop_original_columns self &&
                                       existsb (String.eqb m) cols))
                       (columns X ++ generated_names self cols) /\
              self' = self1).
    { destruct (drop_original_columns self).
      - destruct (drop Xc cols) as [e|X2] eqn:Hdr; [discriminate|].
        injection Hrun as <- <- <-. apply drop_inr in Hdr. destruct Hdr as [-> _].
        split; [reflexivity|]. split; [|reflexivity].
        now rewrite columns_filter_names, Hcc, Hcols.
      - injection Hrun as <- <- <-. split; [reflexivity|]. split; [|reflexivity].
        simpl. now rewrite filter_all, Hcc, Hcols. }
    destruct Hres as (HR & HX' & ->). split; [exact HR|]. split; [exact HX'|].
    split; [|split].
    + intro Hno. rewrite HX', Hno. simpl. rewrite filter_all, length_app.
      now rewrite <- Hflat, Hcount.
    + intros m Hm Hnot. rewrite HX'. apply filter_In. split; [apply in_or_app; now right|].
      apply negb_true_iff, andb_false_iff. right.
      apply not_true_is_false. intro H. apply mem_columns in H. contradiction.
    + exact Hlog.
  - intro c. split; [rewrite Hnames; apply names_for_NoDup|apply Hlen].
  - now rewrite Hflat.
  - exact Hcount.
Qed.

Lemma generate_keys self X :
  let self' := fst (fst (generate_lag_columns to_float64 (self, X))) in
  incl (Dict.keys (column_dtype_map self)) (Dict.keys (column_dtype_map self')) /\
  (NoDup (Dict.keys (column_dtype_map self)) -> NoDup (Dict.keys (column_dtype_map self'))).
Proof.
  simpl. rewrite generate_lag_columns_eq.
  destruct (shift_columns self) as [cols|]; [apply schedule_keys|].
  simpl. split; [apply incl_refl|auto].
Qed.



Lemma widen_and_clean_columns self X self1 X1 cols :
  shift_columns self = Some cols ->
  widen_and_clean to_float64 cast_value cast_missing (self, X) = ((self1, X1), inr tt) ->
  forall m, In m (columns X1) <-> In m (columns X) \/ In m (generated_names self cols).
Proof.
  intros Hs Hrun m. rewrite widen_and_clean_eq in Hrun.
  destruct (generate_lag_columns to_float64 (self, X)) as [[self0 Xw] [e|[]]] eqn:Hgen;
    [discriminate|].
  rewrite generate_lag_columns_eq, Hs in Hgen.
  destruct (schedule_columns _ _ _ _ _ Hgen) as [Hc _].
  rewrite schedule_names in Hc. rewrite <- Hc.
  destruct (drop_na_rows self0).
  - destruct (cast_loop _ _ _ _ _ Hrun) as (_ & Hcols & _).
    now rewrite Hcols, columns_dropna.
  - injection Hrun as _ <-. reflexivity.
Qed.

(** C4 (as amended).  With [drop_original_columns], a [transform] call
    returns whenever the frame holds the source columns and [n_periods] is
    below [2^63] (and, with [drop_na_rows], the casts go through), and a
    call that returns has
    first run generation and, when asked for, row dropping and
    casting, and has then removed from that frame the columns named in
    [shift_columns] and no others: the columns left are those not named in
    [shift_columns], unchanged, and every generated column whose name is
    not itself in [shift_columns] is in the returned frame. *)
Theorem lag_drop_source_columns self X :
  drop_original_columns self = true ->
  (forall cols,
     shift_columns self = Some cols ->
     (0 < n_periods self < 2 ^ 63)%Z ->
     (forall c, In c cols -> In c (columns X)) ->
     (drop_na_rows self = true ->
      (forall t v, cast_value t v <> None) /\
      (forall m, In m (Dict.keys (column_dtype_map self)) ->
                 In m (columns X) \/ In m (generated_names self cols))) ->
     exists self' X', transform to_float64 cast_value cast_missing (self, X) = ((self', X'), inr X')) /\
  forall self' X' R,
  transform to_float64 cast_value cast_missing (self, X) = ((self', X'), inr R) ->
  R = X' /\
  exists cols Xc,
    shift_columns self = Some cols /\
    widen_and_clean to_float64 cast_value cast_missing (self, X) = ((self', Xc), inr tt) /\
    X' = filter (fun p => negb (existsb (String.eqb (fst p)) cols)) Xc /\
    (forall c, In c cols -> In c (columns Xc)) /\
    (forall m, In m (columns X') <-> In m (columns Xc) /\ ~ In m cols) /\
    (forall m, ~ In m cols -> loc X' m = loc Xc m) /\
    (forall m, In m (generated_names self cols) -> ~ In m cols -> In m (columns X')).
Proof.
  intros Hdoc. split.
  { intros cols Hs Hn Hsrc Hcast.
    apply (transform_returns self X cols); auto. }
  intros self' X' R Hrun. rewrite transform_eq in Hrun.
  pose proof (widen_and_clean_self self X) as Hself.
  pose proof (generate_config self X) as Hcfg. rewrite <- Hself in Hcfg.
  destruct (widen_and_clean to_float64 cast_value cast_missing (self, X)) as [[self1 Xc] [e|[]]] eqn:Hw;
    [discriminate|].
  simpl in Hcfg. destruct Hcfg as (_ & Hsc & _ & Hd & _).
  rewrite <- Hd, Hdoc, <- Hsc in Hrun.
  destruct (shift_columns self) as [cols|] eqn:Hs; [|discriminate].
  destruct (drop Xc cols) as [e|X2] eqn:Hdr; [discriminate|].
  injection Hrun as <- <- <-. split; [reflexivity|].
  apply drop_inr in Hdr. destruct Hdr as [HX2 Hsrc].
  assert (Hloc : forall m, ~ In m cols -> loc X2 m = loc Xc m).
  { intros m Hm. rewrite HX2, loc_filter_names.
    destruct (existsb (String.eqb m) cols) eqn:E; [|reflexivity].
    apply mem_columns in E. contradiction. }
  assert (Hcolumns : forall m, In m (columns X2) <-> In m (columns Xc) /\ ~ In m cols).
  { intro m. rewrite <- !loc_columns. rewrite HX2 at 1. rewrite loc_filter_names.
    destruct (existsb (String.eqb m) cols) eqn:E.
    - apply mem_columns in E. intuition.
    - assert (~ In m cols) by (rewrite <- mem_columns; congruence). intuition. }
  exists cols, Xc. repeat split; auto; try apply Hcolumns; auto.
  intros m Hm Hn. apply Hcolumns. split; [|exact Hn].
  apply (widen_and_clean_columns _ _ _ _ _ Hs Hw). auto.
Qed.

(** C10 (as amended).  With [drop_na_rows] and [drop_original_columns] both
    false, a [transform] call returns whenever the frame holds the source
    columns and [n_periods] is below [2^63], and a call that returns leaves
    every column whose name
    is not one of the generated lag names in the frame as it was (same
    dtype, same cells), keeps every column name, and keeps the number of
    rows. *)
Theorem lag_transform_frame self X cols :
  drop_na_rows self = false ->
  drop_original_columns self = false ->
  shift_columns self = Some cols ->
  ((0 < n_periods self < 2 ^ 63)%Z ->
   (forall c, In c cols -> In c (columns X)) ->
   exists self' X', transform to_float64 cast_value cast_missing (self, X) = ((self', X'), inr X')) /\
  forall self' X' R,
  transform to_float64 cast_value cast_missing (self, X) = ((self', X'), inr R) ->
  R = X' /\
  (forall m, ~ In m (generated_names self cols) -> loc X' m = loc X m) /\
  (forall m, In m (columns X) -> In m (columns X')) /\
  (well_formed X -> well_formed X' /\ nrows X' = nrows X).
Proof.
  intros Hdna Hdoc Hs. split.
  { intros Hn Hsrc.
    apply (transform_returns self X cols); auto.
    rewrite Hdna. discriminate. }
  intros self' X' R Hrun. rewrite transform_eq, widen_and_clean_eq in Hrun.
  pose proof (generate_config self X) as Hcfg.
  destruct (generate_lag_columns to_float64 (self, X)) as [[self1 Xw] [e|[]]] eqn:Hgen;
    [discriminate|].
  simpl in Hcfg. destruct Hcfg as (_ & _ & Hd & Hd' & _).
  rewrite <- Hd, Hdna, <- Hd', Hdoc in Hrun. injection Hrun as <- <- <-.
  rewrite generate_lag_columns_eq, Hs in Hgen.
  pose proof (schedule_frame (schedule self cols) self X) as [Hloc Hcol].
  pose proof (schedule_well_formed (schedule self cols) self X) as Hwf.
  rewrite Hgen in Hloc, Hcol, Hwf. simpl in Hloc, Hcol, Hwf.
  rewrite schedule_names in Hloc. auto.
Qed.

(** *** The period check *)

Lemma drop_inl X (names : list string) e :
  drop X names = inl e -> exists n, e = KeyError n.
Proof.
  unfold drop.
  destruct (find (fun n => negb (existsb (String.eqb n) (columns X))) names);
    [|discriminate].
  intros [= <-]. eauto.
Qed.

Lemma generate_no_assertion self X :
  (0 < n_periods self)%Z ->
  snd (generate_lag_columns to_float64 (self, X)) <> inl AssertionError.
Proof.
  intros Hn H. rewrite generate_lag_columns_eq in H.
  destruct (shift_columns self) as [cols|]; [|discriminate].
  apply schedule_exn in H; [destruct H as [[c H]|H]; discriminate|].
  intros p Hp. now apply (schedule_pos self cols).
Qed.

Lemma transform_no_assertion self X :
  (0 < n_periods self)%Z ->
  snd (transform to_float64 cast_value cast_missing (self, X)) <> inl AssertionError.
Proof.
  intros Hn H. rewrite transform_eq, widen_and_clean_eq in H.
  pose proof (generate_no_assertion self X Hn) as Hgen.
  destruct (generate_lag_columns to_float64 (self, X)) as [[self1 Xw] [e|[]]];
    [simpl in *; congruence|].
  assert (Hdrop : forall (self2 : Lag) (X2 : DataFrame V),
    snd (if drop_original_columns self2 then
           match shift_columns self2 with
           | None => ((self2, X2), inl TypeError)
           | Some cols =>
               match drop X2 cols with
               | inl e => ((self2, X2), inl e)
               | inr X3 => ((self2, X3), inr X3)
               end
           end
         else ((self2, X2), inr X2)) <> inl AssertionError).
  { intros self2 X2. destruct (drop_original_columns self2); [|discriminate].
    destruct (shift_columns self2) as [cols|]; [|discriminate].
    destruct (drop X2 cols) as [e|X3] eqn:E; [|discriminate].
    apply drop_inl in E. destruct E as [n ->]. discriminate. }
  destruct (drop_na_rows self1).
  - pose proof (cast_loop_self (column_dtype_map self1) self1
                  (dropna Xw)) as [_ Hc].
    destruct (for_each (column_dtype_map self1) (cast_column cast_value cast_missing)
                (self1, dropna Xw)) as [[self2 X2] [e|[]]].
    + simpl in H. apply (Hc e); [reflexivity|congruence].
    + exact (Hdrop self2 X2 H).
  - exact (Hdrop self1 Xw H).
Qed.

Lemma reachable_periods self :
  reachable V to_float64 cast_value cast_missing self -> (0 < n_periods self)%Z.
Proof.
  induction 1 as [n cols dna doc one self Hinit|self X _ IH|self X _ IH].
  - unfold __init__ in Hinit. destruct (n >? 0)%Z eqn:E; [|discriminate].
    injection Hinit as <-. simpl. now apply Z.gtb_lt.
  - unfold fit. destruct (shift_columns self); exact IH.
  - rewrite transform_self. destruct (generate_config self X) as [<- _]. exact IH.
Qed.

(** The keys of the dict of an object are distinct. *)
Lemma reachable_dict_keys self :
  reachable V to_float64 cast_value cast_missing self -> NoDup (Dict.keys (column_dtype_map self)).
Proof.
  induction 1 as [n cols dna doc one self Hinit|self X _ IH|self X _ IH].
  - unfold __init__ in Hinit. destruct (n >? 0)%Z; [|discriminate].
    injection Hinit as <-. constructor.
  - unfold fit. destruct (shift_columns self); exact IH.
  - rewrite transform_self. now apply generate_keys.
Qed.

(** C5.  The constructor raises exactly when [n_periods <= 0], and what it
    raises is the AssertionError of its first statement.  Every object the
    constructor returns, after any sequence of [fit] and [transform] calls,
    still has [n_periods > 0]; on such an object no [transform] call ends
    in an AssertionError, and every shift amount the loop passes to
    [_generate_lag_column_and_update_dtype_map] passes its period check.
    ([fit] is total.) *)
Theorem lag_period_check n cols dna doc one :
  (__init__ n cols dna doc one = inl AssertionError <-> (n <= 0)%Z) /\
  (forall e, __init__ n cols dna doc one = inl e -> e = AssertionError) /\
  (forall self,
     reachable V to_float64 cast_value cast_missing self ->
     (0 < n_periods self)%Z /\
     forall X,
       snd (transform to_float64 cast_value cast_missing (self, X)) <> inl AssertionError /\
       snd (generate_lag_columns to_float64 (self, X)) <> inl AssertionError /\
       forall k, In k (lag_periods self) -> (k >? 0)%Z = true).
Proof.
  split; [|split].
  - unfold __init__. destruct (n >? 0)%Z eqn:E.
    + apply Z.gtb_lt in E. split; [discriminate|lia].
    + split; [intros _|reflexivity].
      destruct (Z.gtb_spec n 0); [discriminate|lia].
  - unfold __init__. destruct (n >? 0)%Z; [discriminate|]. now intros e [= <-].
  - intros self Hr. pose proof (reachable_periods self Hr) as Hn.
    split; [exact Hn|]. intro X. split; [|split].
    + now apply transform_no_assertion.
    + now apply generate_no_assertion.
    + intros k Hk. apply Z.gtb_lt. now apply (lag_periods_pos self k Hn).
Qed.

(** C8.  The constructor called without [shift_columns] leaves them unset.
    [fit] on an object without [shift_columns] sets them to the column
    names of the fitted frame, in frame order; on an object that has them
    it changes nothing, so a second [fit] on another frame keeps the first
    capture.  [fit] depends on the frame through its column names only and
    touches no other attribute.  A later [transform], on any frame, leaves
    [shift_columns] as captured and runs its loop over the captured names,
    whatever the columns of the frame it is given. *)
Theorem lag_fit_captures_columns self X :
  (forall n dna doc one self0,
     __init__ n None dna doc one = inr self0 ->
     shift_columns self0 = None /\ shift_columns (fit self0 X) = Some (columns X)) /\
  (shift_columns self = None -> shift_columns (fit self X) = Some (columns X)) /\
  (forall cols, shift_columns self = Some cols -> fit self X = self) /\
  (n_periods (fit self X) = n_periods self /\
   drop_na_rows (fit self X) = drop_na_rows self /\
   drop_original_columns (fit self X) = drop_original_columns self /\
   only_one_column_for_periods (fit self X) = only_one_column_for_periods self /\
   new_columns (fit self X) = new_columns self /\
   column_dtype_map (fit self X) = column_dtype_map self) /\
  (forall Y : DataFrame V, columns Y = columns X -> fit self Y = fit self X) /\
  (forall Y : DataFrame V, fit (fit self X) Y = fit self X) /\
  (forall Y : DataFrame V,
     shift_columns (fst (fst (transform to_float64 cast_value cast_missing (fit self X, Y)))) =
     shift_columns (fit self X)) /\
  (forall Y : DataFrame V,
     shift_columns self = None ->
     generate_lag_columns to_float64 (fit self X, Y) =
     for_each (schedule (fit self X) (columns X)) (lag_step to_float64) (fit self X, Y)).
Proof.
  split.
  { intros n dna doc one self0 H. unfold __init__ in H.
    destruct (n >? 0)%Z; [|discriminate]. injection H as <-. split; reflexivity. }
  unfold fit. repeat split; try (destruct (shift_columns self); reflexivity).
  - intro H. now rewrite H.
  - intros cols H. now rewrite H.
  - intros Y HY. destruct (shift_columns self); [reflexivity|]. now rewrite HY.
  - intro Y. destruct (shift_columns self) eqn:E; [now rewrite E|reflexivity].
  - intro Y. rewrite transform_self. symmetry.
    match goal with |- context [generate_lag_columns to_float64 (?a, Y)] =>
      destruct (generate_config a Y) as (_ & H & _) end.
    exact H.
  - intros Y H. rewrite generate_lag_columns_eq, H. reflexivity.
Qed.

(** C9.  A [transform] call, whatever its outcome, only extends
    [new_columns] and keeps every key of [column_dtype_map]; when its
    generation loop succeeds, the names it appends are all the generated
    names, in order; [fit] changes neither.  One assignment of the loop
    appends its name to [new_columns] even when the name is there already,
    and sets the entry of that name in [column_dtype_map] to the dtype of
    the current source column: an entry already there is replaced in
    place, the other entries are kept. *)
Theorem lag_tracking_accumulates self X :
  (let self' := fst (fst (transform to_float64 cast_value cast_missing (self, X))) in
   (exists names, new_columns self' = new_columns self ++ names) /\
   incl (Dict.keys (column_dtype_map self)) (Dict.keys (column_dtype_map self')) /\
   (forall cols,
      shift_columns self = Some cols ->
      snd (generate_lag_columns to_float64 (self, X)) = inr tt ->
      new_columns self' = new_columns self ++ generated_names self cols)) /\
  (new_columns (fit self X) = new_columns self /\
   column_dtype_map (fit self X) = column_dtype_map self) /\
  (forall c k (s : Series V),
     (0 < k)%Z -> loc X c = Some s ->
     let name := lag_column_name c k in
     let self1 := fst (fst (assign_lag_column to_float64 c k (self, X))) in
     new_columns self1 = new_columns self ++ [name] /\
     Dict.get name (column_dtype_map self1) = Some (dtype_of s) /\
     (forall m, m <> name ->
        Dict.get m (column_dtype_map self1) = Dict.get m (column_dtype_map self)) /\
     (In name (Dict.keys (column_dtype_map self)) ->
        Dict.keys (column_dtype_map self1) = Dict.keys (column_dtype_map self))).
Proof.
  split; [|split].
  - simpl. rewrite transform_self. split; [|split].
    + rewrite generate_lag_columns_eq. destruct (shift_columns self) as [cols|].
      * destruct (schedule_new_columns (schedule self cols) self X) as [[m Hm] _]. eauto.
      * exists []. simpl. now rewrite app_nil_r.
    + apply generate_keys.
    + intros cols Hs Hok. rewrite generate_lag_columns_eq, Hs in *.
      destruct (schedule_new_columns (schedule self cols) self X) as [_ H].
      rewrite <- schedule_names. auto.
  - unfold fit. destruct (shift_columns self); split; reflexivity.
  - intros c k s Hk Hloc. simpl. rewrite assign_lag_column_eq, Hloc.
    replace (k >? 0)%Z with true by (symmetry; apply Z.gtb_lt; lia).
    destruct (can_shift k s); simpl;
      (split; [reflexivity|]; split; [apply dict_get_set_eq|]; split;
       [intros m Hm; apply dict_get_set_neq; congruence
       |intro Hin; rewrite dict_keys_set; apply dict_mem_In in Hin; now rewrite Hin]).
Qed.

(** *** More on [Lag]: tracking invariant, failures, repeated calls *)

Lemma generated_names_config (a b : Lag) cols :
  same_config a b -> generated_names a cols = generated_names b cols.
Proof.
  intro H. unfold generated_names, names_for. now rewrite (same_config_periods a b H).
Qed.

Lemma lag_periods_nonempty self :
  (0 < n_periods self)%Z ->
  exists rest,
    lag_periods self =
    (if only_one_column_for_periods self then n_periods self else 1%Z) :: rest.
Proof.
  intro Hn. unfold lag_periods. destruct (only_one_column_for_periods self); [eauto|].
  unfold range. replace (n_periods self + 1 - 1)%Z with (n_periods self) by lia.
  destruct (Z.to_nat (n_periods self)) as [|m] eqn:E; [lia|]. simpl. eauto.
Qed.

(** Every key of the dtype map has been logged. *)
Lemma schedule_log_keys sched self X :
  incl (Dict.keys (column_dtype_map self)) (new_columns self) ->
  let self' := fst (fst (for_each sched (lag_step to_float64) (self, X))) in
  incl (Dict.keys (column_dtype_map self')) (new_columns self').
Proof.
  intro H. simpl.
  apply (for_each_inv
           (fun w => incl (Dict.keys (column_dtype_map (fst w))) (new_columns (fst w)))
           (fun _ => True)); [|exact H].
  intros p [self1 X1] _ H1. split; [|trivial]. simpl in *.
  step_cases p self1 X1; auto.
  - rewrite dict_keys_set.
    destruct (Dict.mem (step_name p) (column_dtype_map self1)).
    + apply incl_appl. exact H1.
    + apply incl_app; [apply incl_appl; exact H1|apply incl_appr, incl_refl].
  - rewrite dict_keys_set.
    destruct (Dict.mem (step_name p) (column_dtype_map self1)).
    + apply incl_appl. exact H1.
    + apply incl_app; [apply incl_appl; exact H1|apply incl_appr, incl_refl].
  - apply incl_appl. exact H1.
Qed.

Lemma reachable_tracked self :
  reachable V to_float64 cast_value cast_missing self ->
  incl (Dict.keys (column_dtype_map self)) (new_columns self) /\
  match shift_columns self with
  | None => new_columns self = []
  | Some cols => incl (new_columns self) (generated_names self cols)
  end.
Proof.
  induction 1 as [n cols dna doc one self Hinit|self X _ IH|self X _ IH].
  - unfold __init__ in Hinit. destruct (n >? 0)%Z; [|discriminate].
    injection Hinit as <-. simpl. split; [apply incl_refl|].
    destruct cols; [apply incl_nil_l|reflexivity].
  - unfold fit. destruct (shift_columns self) eqn:E; simpl.
    + rewrite E. exact IH.
    + destruct IH as [IH1 IH2]. split; [exact IH1|]. rewrite IH2. apply incl_nil_l.
  - rewrite transform_self. destruct IH as [IH1 IH2].
    rewrite generate_lag_columns_eq.
    destruct (shift_columns self) as [cols|] eqn:E; simpl; [|rewrite E; auto].
    split; [now apply schedule_log_keys|].
    pose proof (schedule_config (schedule self cols) self X) as Hcfg.
    destruct (schedule_new_columns (schedule self cols) self X) as [[m Hm] _].
    simpl in Hm.
    destruct Hcfg as (Hn & Hs & Hrest). rewrite <- Hs, E.
    rewrite <- (generated_names_config self _ cols (conj Hn (conj Hs Hrest))).
    rewrite Hm. apply incl_app; [exact IH2|].
    rewrite schedule_names. intros x Hx.
    rewrite <- (firstn_skipn m (generated_names self cols)). apply in_or_app. now left.
Qed.

(** X1.  On every object obtained from the constructor by [fit] and
    [transform] calls, the keys of [column_dtype_map] are pairwise distinct
    and all occur in [new_columns]; every logged name is a lag name of the
    configured [shift_columns]; and as long as [shift_columns] is unset,
    nothing has been logged or tracked. *)
Theorem lag_tracked_names_invariant self :
  reachable V to_float64 cast_value cast_missing self ->
  NoDup (Dict.keys (column_dtype_map self)) /\
  incl (Dict.keys (column_dtype_map self)) (new_columns self) /\
  (forall cols, shift_columns self = Some cols ->
                incl (new_columns self) (generated_names self cols)) /\
  (shift_columns self = None -> new_columns self = [] /\ column_dtype_map self = []).
Proof.
  intro Hr. destruct (reachable_tracked self Hr) as [H1 H2].
  split; [now apply (reachable_dict_keys)|].
  split; [exact H1|]. split.
  - intros cols E. now rewrite E in H2.
  - intro E. rewrite E in H2. split; [exact H2|].
    rewrite H2 in H1. destruct (column_dtype_map self) as [|[k0 t0] d]; [reflexivity|].
    exfalso. apply (H1 k0). now left.
Qed.

(** *** What [transform] can raise *)

Lemma schedule_key_error sched self X e :
  (forall p, In p sched -> (0 < snd p < 2 ^ 63)%Z) ->
  snd (for_each sched (lag_step to_float64) (self, X)) = inl e ->
  exists p, In p sched /\ e = KeyError (fst p) /\ ~ In (fst p) (columns X).
Proof.
  intros Hpos.
  apply (for_each_inv (fun w => forall m, In m (columns X) -> In m (columns (snd w)))
           (fun e => exists p, In p sched /\ e = KeyError (fst p) /\ ~ In (fst p) (columns X)));
    [|auto].
  intros p [self1 X1] Hp H. simpl in *. specialize (Hpos p Hp). step_cases p self1 X1.
  - split; [|discriminate]. intros m Hm. apply in_columns_set_loc. auto.
  - rewrite can_shift_fits in * by lia. discriminate.
  - split; [exact H|]. intros e' [= <-]. exists p. repeat split; auto.
    intro Hin. apply H in Hin. apply loc_columns in Hin. congruence.
  - lia.
Qed.

Lemma schedule_sources_present sched self X self' X' :
  for_each sched (lag_step to_float64) (self, X) = ((self', X'), inr tt) ->
  forall p, In p sched -> In (fst p) (columns X').
Proof.
  revert self X. induction sched as [|q sched IH]; intros self X Hrun p Hp; [destruct Hp|].
  rewrite for_each_cons in Hrun. revert Hrun. step_cases q self X; try discriminate.
  intro Hrun. destruct Hp as [<-|Hp]; [|eauto].
  pose proof (schedule_frame sched
    (record_dtype (step_name q) (dtype_of s) (append_new_column (step_name q) self))
    (set_loc X (step_name q) (shifted to_float64 (snd q) s))) as [_ Hmono].
  rewrite Hrun in Hmono. simpl in Hmono. apply Hmono.
  apply in_columns_set_loc. right. apply loc_columns. congruence.
Qed.

Lemma astype_cells_refused t (cs : list (cell V)) :
  astype_cells cast_value cast_missing t cs = None ->
  ~ In None cs ->
  exists v, In (Some v) cs /\ cast_value t v = None.
Proof.
  induction cs as [|cl cs IH]; simpl; [discriminate|]. intros H Hn.
  destruct cl as [v|]; [|exfalso; apply Hn; now left]. simpl in H.
  destruct (cast_value t v) as [v'|] eqn:E; [|exists v; auto].
  simpl in H.
  destruct (astype_cells cast_value cast_missing t cs) as [cs'|]; [discriminate|].
  destruct IH as [v0 [H1 H2]]; [reflexivity|tauto|]. exists v0. auto.
Qed.

(** On a frame without missing cells that holds the tracked columns, the
    cast loop can only stop on a tracked column that holds a value pandas
    refuses to convert to the dtype recorded for it; the column is still in
    the frame as it was when the cast was tried. *)
Lemma cast_loop_error d self X self' X' e :
  no_missing X ->
  (forall n, In n (Dict.keys d) -> In n (columns X)) ->
  for_each d (cast_column cast_value cast_missing) (self, X) = ((self', X'), inl e) ->
  e = ValueError /\ self' = self /\
  exists col t (s : Series V) v,
    In (col, t) d /\ loc X' col = Some s /\ In (Some v) (values s) /\ cast_value t v = None.
Proof.
  revert X. induction d as [|[col t] d IH]; intros X Hmiss Hkeys; [discriminate|].
  rewrite for_each_cons, cast_column_eq.
  destruct (loc X col) as [s|] eqn:Hloc;
    [|exfalso; apply (proj2 (loc_columns X col)) in Hloc; [exact Hloc|apply Hkeys; now left]].
  destruct (astype cast_value cast_missing t s) as [e'|s'] eqn:Hs'.
  - intros [= <- <- <-]. split; [now apply astype_inl in Hs'|]. split; [reflexivity|].
    unfold astype in Hs'.
    destruct (astype_cells cast_value cast_missing t (values s)) eqn:Ec; [discriminate|].
    destruct (astype_cells_refused t (values s) Ec (no_missing_loc X col s Hmiss Hloc))
      as [v [Hv1 Hv2]].
    exists col, t, s, v. repeat split; auto. now left.
  - destruct (astype_inr _ _ _ _ _ Hs') as (_ & _ & Hnone). intro Hrun.
    apply IH in Hrun.
    + destruct Hrun as (He & Hself & col' & t' & s0 & v & H1 & H2 & H3 & H4).
      split; [exact He|]. split; [exact Hself|].
      exists col', t', s0, v. repeat split; auto. now right.
    + apply no_missing_set_loc; [exact Hmiss|].
      intro H. apply Hnone in H. revert H. now apply (no_missing_loc X col s).
    + intros n Hn. apply in_columns_set_loc. right. apply Hkeys. now right.
Qed.

(** X2.  Take an object obtained from the constructor by [fit] and
    [transform] calls, with [n_periods] below [2^63], and a frame whose
    labels are pairwise distinct.  A [transform] call raises nothing but: a
    TypeError, exactly when [shift_columns] is unset, and then neither the
    object nor the frame is touched; the KeyError of a source column that
    the input frame does not hold; or, with [drop_na_rows], the ValueError
    of a cast, and then a column tracked in [column_dtype_map] holds, in
    the frame as the call leaves it, a value that pandas refuses to convert
    to the dtype recorded for that column.  The casts never miss a tracked
    column and the final [drop] never fails. *)
Theorem lag_transform_errors self X :
  reachable V to_float64 cast_value cast_missing self ->
  (n_periods self < 2 ^ 63)%Z ->
  NoDup (columns X) ->
  (shift_columns self = None ->
   transform to_float64 cast_value cast_missing (self, X) = ((self, X), inl TypeError)) /\
  forall self' X' e,
    transform to_float64 cast_value cast_missing (self, X) = ((self', X'), inl e) ->
    (e = TypeError /\ shift_columns self = None) \/
    (exists cols c, shift_columns self = Some cols /\ e = KeyError c /\
                    In c cols /\ ~ In c (columns X)) \/
    (e = ValueError /\ drop_na_rows self = true /\
     exists col t (s : Series V) v,
       In (col, t) (column_dtype_map self') /\ loc X' col = Some s /\
       In (Some v) (values s) /\ cast_value t v = None).
Proof.
  intros Hr Hfit _.
  pose proof (reachable_periods self Hr) as Hn.
  destruct (reachable_tracked self Hr) as [Hk1 Hk2].
  split.
  - intro E. rewrite transform_eq, widen_and_clean_eq, generate_lag_columns_eq, E.
    reflexivity.
  - intros self' X' e He.
    rewrite transform_eq, widen_and_clean_eq, generate_lag_columns_eq in He.
    destruct (shift_columns self) as [cols|] eqn:E;
      [|left; simpl in He; injection He as _ _ <-; auto].
    right.
    pose proof (schedule_config (schedule self cols) self X) as Hcfg.
    pose proof (schedule_keys_bound (schedule self cols) self X) as Hbound.
    pose proof (schedule_key_error (schedule self cols) self X) as Herr.
    destruct (for_each (schedule self cols) (lag_step to_float64) (self, X))
      as [[self1 Xw] [e1|[]]] eqn:Hgen.
    + injection He as _ _ <-. left.
      destruct (Herr e1 (fun p Hp => schedule_fits self cols p (conj Hn Hfit) Hp) eq_refl)
        as [p (Hp & -> & Hnot)].
      exists cols, (fst p). repeat split; auto. apply in_schedule in Hp. tauto.
    + simpl in Hcfg, Hbound. destruct Hcfg as (_ & Hs & Hd & Hdoc & _).
      destruct (schedule_columns _ _ _ _ _ Hgen) as [Hcols _].
      rewrite schedule_names in Hcols, Hbound.
      pose proof (schedule_sources_present _ _ _ _ _ Hgen) as Hsrc.
      assert (Hall : forall c, In c cols -> In c (columns Xw)).
      { intros c Hc. destruct (lag_periods_nonempty self Hn) as [rest Hp].
        apply (Hsrc (c, if only_one_column_for_periods self then n_periods self else 1%Z)).
        apply in_schedule. simpl. rewrite Hp. split; [exact Hc|now left]. }
      assert (Hdrop : forall X1, columns X1 = columns Xw ->
        (if drop_original_columns self1 then
           match shift_columns self1 with
           | None => ((self1, X1), inl TypeError)
           | Some cols => match drop X1 cols with
                          | inl e => ((self1, X1), inl e)
                          | inr X2 => ((self1, X2), inr X2)
                          end
           end
         else ((self1, X1), inr X1)) <> ((self', X'), inl e)).
      { intros X1 HX1. destruct (drop_original_columns self1); [|discriminate].
        rewrite <- Hs, E.
        destruct (drop_total X1 cols) as [X2 ->]; [|discriminate].
        intros c Hc. rewrite HX1. auto. }
      rewrite <- Hd in He. destruct (drop_na_rows self) eqn:Hdna;
        [|exfalso; exact (Hdrop Xw eq_refl He)].
      assert (Hkeys : forall n, In n (Dict.keys (column_dtype_map self1)) ->
                                In n (columns (dropna Xw))).
      { intros n Hin. rewrite columns_dropna. apply Hcols. right.
        apply Hbound, in_app_iff in Hin. destruct Hin as [Hin|Hin]; [|exact Hin].
        apply Hk2, Hk1, Hin. }
      pose proof (cast_loop_error (column_dtype_map self1) self1 (dropna Xw)) as Hce.
      destruct (for_each (column_dtype_map self1) (cast_column cast_value cast_missing)
                  (self1, dropna Xw)) as [[self2 Xc] [e2|[]]] eqn:Hcl.
      * injection He as <- <- <-. right.
        destruct (Hce _ _ _ (dropna_no_missing Xw) Hkeys eq_refl) as (-> & -> & Hv). auto.
      * destruct (cast_loop _ _ _ _ _ Hcl) as (-> & Hcc & _).
        exfalso. apply (Hdrop Xc); [now rewrite Hcc, columns_dropna|exact He].
Qed.

(** X15.  With one column per source column and a shift amount of [2^63]
    or more (one that Python still prints: fewer than 4300 digits), the
    call stops at the first source column, when the frame holds it with at
    least one cell: the name of its lag column is appended to
    [new_columns], the dtype of the source column is recorded under that
    name, and [shift] raises OverflowError.  The frame is left as it
    was. *)
Theorem lag_shift_overflow self X c cols (s : Series V) :
  only_one_column_for_periods self = true ->
  shift_columns self = Some (c :: cols) ->
  loc X c = Some s ->
  values s <> [] ->
  (2 ^ 63 <= n_periods self < 10 ^ 4300)%Z ->
  exists self',
    transform to_float64 cast_value cast_missing (self, X) = ((self', X), inl OverflowError) /\
    new_columns self' = new_columns self ++ [(c ++ "_LAG-" ++ str (n_periods self))%string] /\
    Dict.get (c ++ "_LAG-" ++ str (n_periods self))%string (column_dtype_map self')
      = Some (dtype_of s) /\
    same_config self self'.
Proof.
  intros Hone Hs Hloc Hne Hn.
  assert (Hcan : can_shift (n_periods self) s = false).
  { unfold can_shift, fits_c_long. destruct (values s); [contradiction|].
    apply andb_false_iff. right. apply Z.ltb_ge. lia. }
  rewrite transform_eq, widen_and_clean_eq, generate_lag_columns_eq, Hs.
  change (schedule self (c :: cols))
    with (map (pair c) (lag_periods self) ++ schedule self cols).
  unfold lag_periods at 1. rewrite Hone. simpl map.
  rewrite <- app_comm_cons, for_each_cons, lag_step_eq. simpl fst. simpl snd.
  replace (n_periods self >? 0)%Z with true by (symmetry; apply Z.gtb_lt; lia).
  rewrite Hloc, Hcan. eexists. split; [reflexivity|]. simpl.
  split; [reflexivity|]. split; [apply dict_get_set_eq|]. repeat split.
Qed.

(** *** A call that fails on a missing source column *)

Lemma schedule_app self (cols1 cols2 : list string) :
  schedule self (cols1 ++ cols2) = schedule self cols1 ++ schedule self cols2.
Proof. unfold schedule. apply flat_map_app. Qed.

Lemma in_generated_names self cols m :
  In m (generated_names self cols) <->
  exists c k, In c cols /\ In k (lag_periods self) /\ m = lag_column_name c k.
Proof.
  unfold generated_names, names_for. rewrite in_flat_map. split.
  - intros [c [Hc Hm]]. apply in_map_iff in Hm. destruct Hm as [k [<- Hk]]. eauto.
  - intros (c & k & Hc & Hk & ->). exists c. split; [exact Hc|now apply in_map].
Qed.

(** X3.  When the frame holds the source columns listed before [c] but not
    [c] itself, and [c] is not a lag name of one of those earlier columns
    (which would create it on the way), [transform] raises the KeyError of
    [c] and leaves the work done so far in place: the lag columns of the
    earlier source columns are in the frame, the rest of the frame is as it
    was, and the name of the first lag column of [c] has been appended to
    [new_columns] although that column was never created and its dtype was
    never recorded.  ([n_periods] is below [2^63], so that the shifts of the
    earlier columns go through.) *)
Theorem lag_missing_source_column self X pre c post :
  shift_columns self = Some (pre ++ c :: post) ->
  (0 < n_periods self < 2 ^ 63)%Z ->
  (forall d, In d pre -> In d (columns X)) ->
  ~ In c (columns X) ->
  ~ In c (generated_names self pre) ->
  let name :=
    lag_column_name c (if only_one_column_for_periods self then n_periods self else 1%Z) in
  exists self' X',
    transform to_float64 cast_value cast_missing (self, X) = ((self', X'), inl (KeyError c)) /\
    new_columns self' = new_columns self ++ generated_names self pre ++ [name] /\
    (forall m, In m (columns X') <-> In m (columns X) \/ In m (generated_names self pre)) /\
    (forall m, ~ In m (generated_names self pre) -> loc X' m = loc X m) /\
    (~ In name (Dict.keys (column_dtype_map self)) ->
     ~ In name (Dict.keys (column_dtype_map self'))).
Proof.
  intros Hs Hfit Hpre Hc Hgen name. pose proof (proj1 Hfit) as Hn.
  destruct (lag_periods_nonempty self Hn) as [rest Hp].
  set (k1 := if only_one_column_for_periods self then n_periods self else 1%Z) in *.
  assert (Hk1 : (0 < k1)%Z).
  { apply (lag_periods_pos self k1 Hn). rewrite Hp. now left. }
  rewrite transform_eq, widen_and_clean_eq, generate_lag_columns_eq, Hs.
  rewrite schedule_app, for_each_app.
  pose proof (schedule_success (schedule self pre) self X
                (fun p Hp' => schedule_fits self pre p Hfit Hp')
                (fun p Hp' => Hpre _ (proj1 (proj1 (in_schedule self pre p) Hp')))) as Hok.
  pose proof (schedule_keys_bound (schedule self pre) self X) as Hbound.
  pose proof (schedule_frame (schedule self pre) self X) as [Hframe _].
  destruct (schedule_new_columns (schedule self pre) self X) as [_ Hlog].
  destruct (for_each (schedule self pre) (lag_step to_float64) (self, X)) as [[self1 X1] [e|[]]] eqn:Hrun;
    [discriminate|].
  simpl in Hbound, Hframe, Hlog. specialize (Hlog eq_refl).
  destruct (schedule_columns _ _ _ _ _ Hrun) as [Hcols _].
  rewrite schedule_names in Hbound, Hframe, Hlog, Hcols.
  assert (Hnone : loc X1 c = None).
  { destruct (loc X1 c) eqn:E; [|reflexivity].
    assert (Hin : In c (columns X1)) by (apply loc_columns; congruence).
    apply Hcols in Hin. tauto. }
  change (schedule self (c :: post))
    with (map (pair c) (lag_periods self) ++ schedule self post).
  rewrite Hp. simpl map. rewrite <- app_comm_cons, for_each_cons, lag_step_eq.
  simpl fst. simpl snd.
  replace (k1 >? 0)%Z with true by (symmetry; apply Z.gtb_lt; lia).
  rewrite Hnone.
  exists (append_new_column (step_name (c, k1)) self1), X1.
  split; [reflexivity|]. split; [|split; [|split]].
  - simpl. rewrite Hlog, <- app_assoc. reflexivity.
  - exact Hcols.
  - exact Hframe.
  - intros Hnot Hin. simpl in Hin. apply Hbound, in_app_iff in Hin.
    destruct Hin as [Hin|Hin]; [now apply Hnot|].
    apply in_generated_names in Hin. destruct Hin as (d & k & Hd & Hk & Heq).
    apply lag_column_name_inj in Heq; [|exact Hk1|now apply (lag_periods_pos self k Hn)].
    destruct Heq as [<- _]. auto.
Qed.

(** *** Calling [transform] again on its own result *)

Lemma set_loc_same X m (s : Series V) : loc X m = Some s -> set_loc X m s = X.
Proof.
  induction X as [|[n' s'] X IH]; simpl; [discriminate|].
  destruct (String.eqb n' m) eqn:E.
  - now intros [= ->].
  - intro H. now rewrite IH.
Qed.

Lemma dict_set_same {A} (key : string) (v : A) (d : Dict.dict A) :
  Dict.get key d = Some v -> Dict.set key v d = d.
Proof.
  induction d as [|[k' v'] d IH]; simpl; [discriminate|].
  destruct (String.eqb k' key) eqn:E.
  - now intros [= ->].
  - intro H. now rewrite IH.
Qed.

Lemma schedule_rerun sched self X :
  (forall p, In p sched ->
     (0 < snd p)%Z /\
     exists s, loc X (fst p) = Some s /\
               can_shift (snd p) s = true /\
               loc X (step_name p) = Some (shifted to_float64 (snd p) s) /\
               Dict.get (step_name p) (column_dtype_map self) = Some (dtype_of s)) ->
  exists self',
    for_each sched (lag_step to_float64) (self, X) = ((self', X), inr tt) /\
    column_dtype_map self' = column_dtype_map self /\
    new_columns self' = new_columns self ++ map step_name sched /\
    same_config self self'.
Proof.
  revert self. induction sched as [|p sched IH]; intros self H.
  - exists self. simpl. rewrite app_nil_r. repeat split.
  - destruct (H p (or_introl eq_refl)) as [Hk (s & Hs & Hcan & Hl & Hg)].
    rewrite for_each_cons, lag_step_eq, Hs, Hcan.
    replace (snd p >? 0)%Z with true by (symmetry; apply Z.gtb_lt; lia).
    rewrite (set_loc_same X _ _ Hl).
    destruct (IH (record_dtype (step_name p) (dtype_of s)
                    (append_new_column (step_name p) self))) as (self' & Hrun & Hd & Hnc & Hcfg).
    { intros q Hq. destruct (H q (or_intror Hq)) as [Hkq (sq & H1 & H0 & H2 & H3)].
      split; [exact Hkq|]. exists sq. repeat split; auto.
      simpl. rewrite (dict_set_same _ _ _ Hg). exact H3. }
    exists self'. split; [exact Hrun|]. split; [|split].
    + rewrite Hd. simpl. now apply dict_set_same.
    + rewrite Hnc. simpl. now rewrite <- app_assoc.
    + eapply same_config_trans; [|exact Hcfg]. repeat split.
Qed.

(** X4.  With [drop_na_rows] and [drop_original_columns] off, distinct
    source columns and no lag name among them, calling [transform] a second
    time on the frame the first call returned returns the very same frame
    and leaves [column_dtype_map] as it is; only [new_columns] grows, by
    the same names once more. *)
Theorem lag_transform_again self X cols self1 X1 R :
  drop_na_rows self = false ->
  drop_original_columns self = false ->
  shift_columns self = Some cols ->
  (0 < n_periods self)%Z ->
  NoDup cols ->
  (forall m, In m (generated_names self cols) -> ~ In m cols) ->
  transform to_float64 cast_value cast_missing (self, X) = ((self1, X1), inr R) ->
  exists self2,
    transform to_float64 cast_value cast_missing (self1, X1) = ((self2, X1), inr X1) /\
    column_dtype_map self2 = column_dtype_map self1 /\
    new_columns self2 = new_columns self1 ++ generated_names self cols /\
    new_columns self1 = new_columns self ++ generated_names self cols.
Proof.
  intros Hdna Hdoc Hs Hn Hnd Hfresh Hrun.
  rewrite transform_eq, widen_and_clean_eq, generate_lag_columns_eq, Hs in Hrun.
  pose proof (schedule_config (schedule self cols) self X) as Hcfg.
  pose proof (schedule_frame (schedule self cols) self X) as [Hframe _].
  destruct (schedule_new_columns (schedule self cols) self X) as [_ Hlog].
  destruct (for_each (schedule self cols) (lag_step to_float64) (self, X)) as [[self0 X0] [e|[]]] eqn:Hgen;
    [discriminate|].
  simpl in Hcfg, Hframe, Hlog. specialize (Hlog eq_refl).
  pose proof Hcfg as (Hn1 & Hs1 & Hd1 & Hdoc1 & Hone1).
  rewrite <- Hd1, Hdna, <- Hdoc1, Hdoc in Hrun. injection Hrun as <- <- <-.
  assert (Hnames : NoDup (map step_name (schedule self cols))).
  { rewrite schedule_names. now apply generated_names_NoDup. }
  assert (Hsrc : forall p, In p (schedule self cols) ->
                           ~ In (fst p) (map step_name (schedule self cols))).
  { intros p Hp H. rewrite schedule_names in H. apply (Hfresh _ H).
    apply in_schedule in Hp. tauto. }
  pose proof (schedule_final _ _ _ _ _ Hnames Hsrc Hgen) as Hfin.
  destruct (schedule_rerun (schedule self cols) self0 X0) as (self2 & Hrun2 & Hd2 & Hnc2 & Hcfg2).
  { intros p Hp. split; [exact (schedule_pos self cols p Hn Hp)|].
    destruct (Hfin p Hp) as (s & H1 & H2 & H3). exists s. repeat split; auto.
    - rewrite (Hframe (fst p) (Hsrc p Hp)). exact H1.
    - exact (schedule_shifts _ _ _ _ _ Hsrc Hgen p s Hp H1). }
  exists self2. rewrite schedule_names in Hnc2, Hlog.
  split; [|auto].
  rewrite transform_eq, widen_and_clean_eq, generate_lag_columns_eq, <- Hs1, Hs.
  assert (Hsched : schedule self0 cols = schedule self cols).
  { unfold schedule. now rewrite (same_config_periods self self0 Hcfg). }
  rewrite Hsched, Hrun2.
  destruct Hcfg2 as (_ & _ & Hd3 & Hdoc3 & _).
  rewrite <- Hd3, <- Hd1, Hdna, <- Hdoc3, <- Hdoc1, Hdoc. reflexivity.
Qed.

(** *** [fit] and [transform] on the same frame *)

(** X5.  Take an object that has been given no [shift_columns], with
    [n_periods] below [2^63], and a frame whose labels are pairwise
    distinct (strings, as everywhere in this model).  [fit] followed by
    [transform] on that frame returns: no source column can be missing.
    With [drop_na_rows] this holds when no column of the frame is named
    like a lag column of the call and every value of the frame, as promoted
    by [shift], converts back to the dtype of its column.  Every column of
    the frame gets its lag columns; with [drop_original_columns] the
    returned frame keeps the lag columns that are not named like a column
    of the input, and nothing else. *)
Theorem lag_fit_then_transform self X :
  reachable V to_float64 cast_value cast_missing self ->
  shift_columns self = None ->
  (n_periods self < 2 ^ 63)%Z ->
  NoDup (columns X) ->
  (drop_na_rows self = true ->
   (forall m, In m (generated_names self (columns X)) -> ~ In m (columns X)) /\
   (forall c (s : Series V) v,
      loc X c = Some s -> In (Some v) (values s) ->
      cast_value (dtype_of s) (promote_value to_float64 (dtype_of s) v) <> None)) ->
  exists self' X',
    transform to_float64 cast_value cast_missing (fit self X, X) = ((self', X'), inr X') /\
    shift_columns self' = Some (columns X) /\
    forall m,
      In m (columns X') <->
      (if drop_original_columns self
       then In m (generated_names self (columns X)) /\ ~ In m (columns X)
       else In m (columns X) \/ In m (generated_names self (columns X))).
Proof.
  intros Hr Hs Hbound Hlabels Hcast.
  pose proof (reachable_periods self Hr) as Hn.
  destruct (reachable_tracked self Hr) as [Hk1 Hk2]. rewrite Hs in Hk2.
  assert (Hempty : column_dtype_map self = []).
  { rewrite Hk2 in Hk1. destruct (column_dtype_map self) as [|[k0 t0] d]; [reflexivity|].
    exfalso. apply (Hk1 k0). now left. }
  assert (Hfit : fit self X =
                 mkLag (n_periods self) (Some (columns X)) (drop_na_rows self)
                       (drop_original_columns self) (only_one_column_for_periods self)
                       (new_columns self) (column_dtype_map self)).
  { unfold fit. now rewrite Hs. }
  set (self0 := fit self X) in *.
  assert (Hcfg0 : n_periods self0 = n_periods self /\
                  shift_columns self0 = Some (columns X) /\
                  drop_na_rows self0 = drop_na_rows self /\
                  drop_original_columns self0 = drop_original_columns self /\
                  column_dtype_map self0 = column_dtype_map self /\
                  generated_names self0 (columns X) = generated_names self (columns X)).
  { rewrite Hfit. repeat split. }
  destruct Hcfg0 as (Hn0 & Hs0 & Hd0 & Hdoc0 & Hmap0 & Hg0).
  destruct (transform_returns_fresh self0 X (columns X))
    as (self' & X' & Hrun); auto.
  { now rewrite Hn0. }
  { rewrite Hd0, Hmap0, Hg0, Hempty. intro H. destruct (Hcast H) as [Hfresh Hconv].
    split; [exact Hlabels|]. split; [exact Hfresh|]. split; [constructor|].
    split; [apply incl_nil_l|]. intros c s v _. apply Hconv. }
  exists self', X'. split; [exact Hrun|].
  rewrite transform_eq in Hrun.
  pose proof (widen_and_clean_self self0 X) as Hself.
  pose proof (generate_config self0 X) as Hcfg. rewrite <- Hself in Hcfg.
  destruct (widen_and_clean to_float64 cast_value cast_missing (self0, X)) as [[self1 Xc] [e|[]]] eqn:Hw;
    [discriminate|].
  simpl in Hcfg. destruct Hcfg as (_ & Hs1 & _ & Hdoc1 & _).
  pose proof (widen_and_clean_columns _ _ _ _ _ Hs0 Hw) as Hcols.
  rewrite Hg0 in Hcols.
  rewrite <- Hdoc1, Hdoc0, <- Hs1, Hs0 in Hrun.
  destruct (drop_original_columns self).
  - destruct (drop Xc (columns X)) as [e|X2] eqn:Hdr; [discriminate|].
    injection Hrun as <- <-. split; [now rewrite <- Hs1|].
    apply drop_inr in Hdr. destruct Hdr as [-> _].
    intro m. rewrite <- loc_columns, loc_filter_names.
    destruct (existsb (String.eqb m) (columns X)) eqn:E.
    + apply mem_columns in E. split; [congruence|tauto].
    + assert (Hm : ~ In m (columns X)) by (rewrite <- mem_columns; congruence).
      rewrite loc_columns, Hcols. tauto.
  - injection Hrun as <- <-. split; [now rewrite <- Hs1|exact Hcols].
Qed.

(** X6.  For positive shift amounts the name of a lag column determines its
    source column and its shift amount, so two assignments of one
    [transform] call never write the same column unless a source column is
    listed twice: with pairwise distinct source columns the generated names
    are pairwise distinct. *)
Theorem lag_names_distinct self cols :
  (0 < n_periods self)%Z ->
  (forall c k c' k',
     In k (lag_periods self) -> In k' (lag_periods self) ->
     lag_column_name c k = lag_column_name c' k' -> c = c' /\ k = k') /\
  (NoDup cols ->
   NoDup (generated_names self cols) /\
   length (generated_names self cols) = length cols * length (lag_periods self)).
Proof.
  intro Hn. split.
  - intros c k c' k' Hk Hk'. apply lag_column_name_inj; now apply (lag_periods_pos self _ Hn).
  - intro Hnd. split; [now apply generated_names_NoDup|].
    unfold generated_names, names_for. clear.
    induction cols as [|c cols IH]; simpl; [reflexivity|].
    now rewrite length_app, length_map, IH.
Qed.

(** *** The rows that [drop_na_rows] removes *)

Lemma filter_none {A} (f : A -> bool) (l : list A) :
  (forall x, In x l -> f x = false) -> filter f l = [].
Proof.
  induction l as [|a l IH]; simpl; intro H; [reflexivity|].
  rewrite (H a (or_introl eq_refl)). apply IH. intros; apply H; now right.
Qed.

Lemma filter_seq_threshold (f : nat -> bool) (a N : nat) :
  (forall i, i < a -> i < N -> f i = false) ->
  (forall i, a <= i -> i < N -> f i = true) ->
  filter f (seq 0 N) = seq a (N - a).
Proof.
  intros Hlo Hhi. destruct (Nat.le_gt_cases a N) as [Ha|Ha].
  - replace N with (a + (N - a)) at 1 by lia.
    rewrite seq_app, filter_app. simpl.
    rewrite filter_none, forallb_filter_id; [reflexivity| |].
    + apply forallb_forall. intros i Hi. apply in_seq in Hi. apply Hhi; lia.
    + intros i Hi. apply in_seq in Hi. apply Hlo; lia.
  - replace (N - a) with 0 by lia. simpl. apply filter_none.
    intros i Hi. apply in_seq in Hi. apply Hlo; lia.
Qed.

Lemma take_seq_app (l1 l2 : list (cell V)) len :
  len <= length l2 -> take (seq (length l1) len) (l1 ++ l2) = firstn len l2.
Proof.
  revert l1 l2. induction len as [|len IH]; intros l1 l2 Hlen; [reflexivity|].
  destruct l2 as [|x l2]; [simpl in Hlen; lia|].
  simpl. rewrite nth_error_app2, Nat.sub_diag by lia. simpl. f_equal.
  replace (l1 ++ x :: l2) with ((l1 ++ [x]) ++ l2) by (now rewrite <- app_assoc).
  replace (S (length l1)) with (length (l1 ++ [x])) by (rewrite length_app; simpl; lia).
  apply IH. simpl in Hlen. lia.
Qed.

Lemma take_seq_skipn a (vs : list (cell V)) :
  take (seq a (length vs - a)) vs = skipn a vs.
Proof.
  destruct (Nat.le_gt_cases a (length vs)) as [Ha|Ha].
  - rewrite <- (firstn_skipn a vs) at 2.
    replace a with (length (firstn a vs)) at 1 by (rewrite length_firstn; lia).
    rewrite take_seq_app by (rewrite length_skipn; lia).
    apply firstn_all2. rewrite length_skipn. lia.
  - replace (length vs - a) with 0 by lia. simpl.
    symmetry. apply skipn_all2. lia.
Qed.

(** The widened frame, when the input frame is rectangular and has no
    missing cell: every column has the same length and is complete from row
    [n] on. *)
Lemma schedule_cells sched self X (n : Z) :
  (forall p, In p sched -> (0 < snd p <= n)%Z) ->
  (forall p, In p sched -> ~ In (fst p) (map step_name sched)) ->
  well_formed X -> no_missing X ->
  forall m (s : Series V),
    In (m, s) (snd (fst (for_each sched (lag_step to_float64) (self, X)))) ->
    length (values s) = nrows X /\
    forall i, Z.to_nat n <= i -> i < nrows X ->
              exists v, nth_error (values s) i = Some (Some v).
Proof.
  intros Hk Hsrc Hwf Hmiss.
  assert (Hgood : forall m (s : Series V), In (m, s) X ->
            length (values s) = nrows X /\
            forall i, i < nrows X -> exists v, nth_error (values s) i = Some (Some v)).
  { intros m s Hin. unfold well_formed in Hwf. rewrite Forall_forall in Hwf.
    pose proof (Hwf _ Hin) as Hlen. simpl in Hlen. split; [exact Hlen|].
    intros i Hi. destruct (nth_error (values s) i) as [c|] eqn:E.
    - destruct c as [v|]; [eauto|]. apply nth_error_In in E.
      exfalso. exact (Hmiss m s None Hin E eq_refl).
    - apply nth_error_None in E. lia. }
  apply (for_each_inv
           (fun w => (forall p, In p sched -> loc (snd w) (fst p) = loc X (fst p)) /\
                     forall m (s : Series V), In (m, s) (snd w) ->
                       length (values s) = nrows X /\
                       forall i, Z.to_nat n <= i -> i < nrows X ->
                                 exists v, nth_error (values s) i = Some (Some v))
           (fun _ => True)).
  - intros p [self1 X1] Hp [Hsame Hcells]. split; [|trivial]. simpl in *.
    step_cases p self1 X1; [|split; [exact Hsame|exact Hcells]..]. split.
    + intros q Hq. rewrite loc_set_loc_neq; [auto|].
      intro Heq. apply (Hsrc q Hq). rewrite <- Heq. now apply in_map.
    + intros m s0 Hin. apply in_set_loc in Hin.
      destruct Hin as [[= -> ->]|Hin]; [|exact (Hcells _ _ Hin)].
      assert (HX : In (fst p, s) X) by (apply loc_Some_In; rewrite <- (Hsame p Hp); assumption).
      destruct (Hgood _ _ HX) as [Hlen Hall]. split.
      * rewrite shifted_length. exact Hlen.
      * intros i Hn Hi. specialize (Hk p Hp).
        rewrite (shifted_nth to_float64) by lia.
        replace (Z.of_nat i <? snd p)%Z with false by (symmetry; apply Z.ltb_ge; lia).
        destruct (Hall (i - Z.to_nat (snd p))) as [v ->]; [lia|]. simpl. eauto.
  - split; [reflexivity|]. intros m s Hin. destruct (Hgood m s Hin) as [H1 H2].
    split; [exact H1|]. intros i _ Hi. auto.
Qed.

Lemma cast_loop_lengths d self X (L : nat) :
  (forall p, In p X -> length (values (snd p)) = L) ->
  forall p, In p (snd (fst (for_each d (cast_column cast_value cast_missing) (self, X)))) ->
            length (values (snd p)) = L.
Proof.
  intro H.
  apply (for_each_inv
           (fun w : world V =>
              forall p : string * Series V, In p (snd w) -> length (values (snd p)) = L)
           (fun _ => True)); [|exact H].
  intros [col t] [self1 X1] _ H1. split; [|trivial]. rewrite cast_column_eq.
  destruct (loc X1 col) as [s|] eqn:Hloc; [|exact H1].
  destruct (astype cast_value cast_missing t s) as [e|s'] eqn:Hs'; [exact H1|].
  simpl. intros p Hp. apply in_set_loc in Hp. destruct Hp as [->|Hp]; [|auto].
  simpl. destruct (astype_inr _ _ _ _ _ Hs') as (_ & Hlen & _). rewrite Hlen.
  apply (H1 (col, s)). now apply loc_Some_In.
Qed.

(** X7.  With [drop_na_rows], on a rectangular frame without missing
    cells, with distinct source columns (at least one) and no lag name
    among them, a [transform] call that returns has removed exactly the
    first [n_periods] rows (all rows when the frame has no more): every
    column of the returned frame has [nrows X - n_periods] cells, and every
    column of it that is not tracked is the column of the input frame
    without its first [n_periods] cells. *)
Theorem lag_dropna_row_count self X cols self' X' R :
  drop_na_rows self = true ->
  shift_columns self = Some cols ->
  cols <> [] ->
  NoDup cols ->
  (0 < n_periods self)%Z ->
  (forall m, In m (generated_names self cols) -> ~ In m cols) ->
  well_formed X ->
  no_missing X ->
  transform to_float64 cast_value cast_missing (self, X) = ((self', X'), inr R) ->
  (forall p, In p X' -> length (values (snd p)) = nrows X - Z.to_nat (n_periods self)) /\
  (forall m (s : Series V),
     ~ In m (Dict.keys (column_dtype_map self')) ->
     loc X' m = Some s ->
     exists s0, loc X m = Some s0 /\
                s = mkSeries (dtype_of s0) (skipn (Z.to_nat (n_periods self)) (values s0))).
Proof.
  intros Hdna Hs Hne Hnd Hn Hfresh Hwf Hmiss Hrun.
  set (n := Z.to_nat (n_periods self)).
  rewrite transform_eq, widen_and_clean_eq, generate_lag_columns_eq, Hs in Hrun.
  assert (Hsrc : forall p, In p (schedule self cols) ->
                           ~ In (fst p) (map step_name (schedule self cols))).
  { intros p Hp H. rewrite schedule_names in H. apply (Hfresh _ H).
    apply in_schedule in Hp. tauto. }
  assert (Hk : forall p, In p (schedule self cols) -> (0 < snd p <= n_periods self)%Z).
  { intros p Hp. apply in_schedule in Hp. now apply (lag_periods_pos self). }
  pose proof (schedule_cells (schedule self cols) self X (n_periods self) Hk Hsrc Hwf Hmiss)
    as Hcells.
  pose proof (schedule_config (schedule self cols) self X) as Hcfg.
  pose proof (schedule_frame (schedule self cols) self X) as [Hframe _].
  pose proof (schedule_well_formed (schedule self cols) self X Hwf) as [_ Hrows].
  destruct (for_each (schedule self cols) (lag_step to_float64) (self, X)) as [[self1 Xw] [e|[]]] eqn:Hgen;
    [discriminate|].
  simpl in Hcells, Hcfg, Hframe, Hrows. fold n in Hcells.
  destruct Hcfg as (_ & Hs1 & Hd1 & Hdoc1 & _).
  destruct (schedule_columns _ _ _ _ _ Hgen) as [_ Htracked].
  (* the rows that are complete in the widened frame *)
  assert (Hnames : NoDup (map step_name (schedule self cols))).
  { rewrite schedule_names. now apply generated_names_NoDup. }
  destruct cols as [|c0 cols0]; [contradiction|].
  assert (Hp0 : In (c0, n_periods self) (schedule self (c0 :: cols0))).
  { apply in_schedule. simpl. split; [now left|].
    unfold lag_periods. destruct (only_one_column_for_periods self); [now left|].
    apply range_spec. lia. }
  destruct (schedule_final _ _ _ _ _ Hnames Hsrc Hgen _ Hp0) as (s0 & Hs0 & _ & Hlag).
  simpl in Hs0, Hlag.
  assert (Hlen0 : length (values s0) = nrows X).
  { apply loc_Some_In in Hs0. unfold well_formed in Hwf. rewrite Forall_forall in Hwf.
    exact (Hwf _ Hs0). }
  assert (Hkeep : filter (row_complete Xw) (seq 0 (nrows Xw)) = seq n (nrows X - n)).
  { rewrite Hrows. apply filter_seq_threshold.
    - intros i Hi HiN. apply not_true_is_false. intro Hc.
      unfold row_complete in Hc. rewrite forallb_forall in Hc.
      specialize (Hc _ (loc_Some_In _ _ _ Hlag)). cbn [snd] in Hc.
      rewrite (shifted_nth to_float64) in Hc by (lia || (rewrite Hlen0; exact HiN)).
      replace (Z.of_nat i <? n_periods self)%Z with true in Hc
        by (symmetry; apply Z.ltb_lt; lia).
      discriminate.
    - intros i Hi HiN. unfold row_complete. apply forallb_forall.
      intros [m s] Hin. simpl.
      destruct (Hcells m s Hin) as [_ Hall]. destruct (Hall i Hi HiN) as [v ->].
      reflexivity. }
  assert (Hdropna : forall m,
            loc (dropna Xw) m =
            option_map (fun s => mkSeries (dtype_of s) (skipn n (values s))) (loc Xw m)).
  { intro m. rewrite loc_dropna, Hkeep.
    destruct (loc Xw m) as [s|] eqn:E; [|reflexivity]. simpl. f_equal. f_equal.
    destruct (Hcells m s (loc_Some_In _ _ _ E)) as [Hl _]. rewrite <- Hl.
    apply take_seq_skipn. }
  assert (Hlens : forall p, In p (dropna Xw) -> length (values (snd p)) = nrows X - n).
  { intros p Hp. unfold dropna in Hp. apply in_map_iff in Hp.
    destruct Hp as [[m s] [<- Hin]]. simpl. rewrite Hkeep.
    destruct (Hcells m s Hin) as [Hl _]. rewrite <- Hl at 1.
    rewrite take_seq_skipn, length_skipn. now rewrite Hl. }
  rewrite <- Hd1, Hdna in Hrun.
  pose proof (cast_loop_lengths (column_dtype_map self1) self1 (dropna Xw) _ Hlens) as Hcl.
  destruct (for_each (column_dtype_map self1) (cast_column cast_value cast_missing)
              (self1, dropna Xw)) as [[self2 Xc] [e|[]]] eqn:Hcast; [discriminate|].
  simpl in Hcl.
  destruct (cast_loop _ _ _ _ _ Hcast) as (-> & _ & _ & Hother & _).
  assert (Hresult : forall m (s : Series V),
            ~ In m (Dict.keys (column_dtype_map self1)) ->
            loc Xc m = Some s ->
            exists s1, loc X m = Some s1 /\
                       s = mkSeries (dtype_of s1) (skipn n (values s1))).
  { intros m s Hm Hloc. rewrite (Hother m Hm), Hdropna in Hloc.
    rewrite Hframe in Hloc.
    - destruct (loc X m) as [s1|]; [|discriminate]. injection Hloc as <-. eauto.
    - intro H. apply Hm. apply in_map_iff in H. destruct H as [p [<- Hp]]. auto. }
  rewrite <- Hdoc1, <- Hs1, Hs in Hrun.
  destruct (drop_original_columns self).
  - destruct (drop Xc (c0 :: cols0)) as [e|X2] eqn:Hdr; [discriminate|].
    injection Hrun as <- <- <-. apply drop_inr in Hdr. destruct Hdr as [-> _]. split.
    + intros p Hp. apply filter_In in Hp. apply Hcl, Hp.
    + intros m s Hm Hloc. rewrite loc_filter_names in Hloc.
      destruct (existsb (String.eqb m) (c0 :: cols0)); [discriminate|]. eauto.
  - injection Hrun as <- <- <-. split; [exact Hcl|exact Hresult].
Qed.

(** *** A second call after the source columns were removed *)

(** X13.  With [drop_original_columns], the frame a [transform] call returns
    no longer holds the first source column, so a second [transform] call
    on that frame raises the KeyError of that column, after logging the
    name of its first lag column once more; the frame is not touched. *)
Theorem lag_transform_after_drop self X c cols self1 X1 R :
  drop_original_columns self = true ->
  shift_columns self = Some (c :: cols) ->
  (0 < n_periods self)%Z ->
  transform to_float64 cast_value cast_missing (self, X) = ((self1, X1), inr R) ->
  ~ In c (columns X1) /\
  exists self2,
    transform to_float64 cast_value cast_missing (self1, X1) = ((self2, X1), inl (KeyError c)) /\
    new_columns self2 =
      new_columns self1 ++
      [lag_column_name c (if only_one_column_for_periods self then n_periods self else 1%Z)].
Proof.
  intros Hdoc Hs Hn Hrun. rewrite transform_eq in Hrun.
  pose proof (widen_and_clean_self self X) as Hself.
  pose proof (generate_config self X) as Hcfg. rewrite <- Hself in Hcfg.
  destruct (widen_and_clean to_float64 cast_value cast_missing (self, X)) as [[self0 Xc] [e|[]]] eqn:Hw;
    [discriminate|].
  simpl in Hcfg. pose proof Hcfg as (Hn0 & Hs0 & _ & Hd0 & Hone0).
  rewrite <- Hd0, Hdoc, <- Hs0, Hs in Hrun.
  destruct (drop Xc (c :: cols)) as [e|X2] eqn:Hdr; [discriminate|].
  injection Hrun as <- <- <-. apply drop_inr in Hdr. destruct Hdr as [-> _].
  assert (Hnone : loc (filter (fun p => negb (existsb (String.eqb (fst p)) (c :: cols))) Xc) c
                  = None).
  { rewrite loc_filter_names. simpl. now rewrite String.eqb_refl. }
  split; [rewrite <- loc_columns; congruence|].
  rewrite transform_eq, widen_and_clean_eq, generate_lag_columns_eq, <- Hs0, Hs.
  destruct (lag_periods_nonempty self Hn) as [rest Hp].
  change (schedule self0 (c :: cols))
    with (map (pair c) (lag_periods self0) ++ schedule self0 cols).
  rewrite <- (same_config_periods self self0 Hcfg), Hp. simpl map.
  rewrite <- app_comm_cons, for_each_cons, lag_step_eq. simpl fst. simpl snd.
  replace ((if only_one_column_for_periods self then n_periods self else 1) >? 0)%Z
    with true.
  - rewrite Hnone. eexists. split; reflexivity.
  - symmetry. apply Z.gtb_lt. destruct (only_one_column_for_periods self); lia.
Qed.

End LagProofs.

(** ** Properties of [DateTimeFeatures] *)

Section DateTimeClaims.

Import Pandas dt_features dt_props.

Implicit Types (self : DateTimeFeatures) (X : DataFrame value).

(** *** The constructor *)

Lemma check_features_eq features acc self :
  check_features features acc self =
  if forallb (fun f => Dict.mem f (included_features_and_methods_map self)) features
  then (self, inr (acc ++ features))
  else (self, inl AssertionError).
Proof.
  revert acc. induction features as [|f features IH]; intro acc; simpl.
  - now rewrite app_nil_r.
  - unfold bind, get, assert.
    destruct (Dict.mem f (included_features_and_methods_map self)); simpl; [|reflexivity].
    rewrite IH, <- app_assoc. reflexivity.
Qed.

Lemma pop_feature_eq f self :
  pop_feature f self =
  match Dict.pop f (included_features_and_methods_map self) with
  | None => (self, inl (KeyError f))
  | Some d => (mkDateTimeFeatures (dt_columns self) (exclude_features self)
                                  (drop_original_columns self) d, inr tt)
  end.
Proof.
  unfold pop_feature, bind, get, modify, raise.
  destruct (Dict.pop f (included_features_and_methods_map self)); reflexivity.
Qed.

Lemma pop_loop_exn l self e :
  snd (for_each l pop_feature self) = inl e -> exists f, e = KeyError f.
Proof.
  apply (for_each_inv (fun _ => True) (fun e => exists f, e = KeyError f)); [|trivial].
  intros f w _ _. split; [trivial|]. intro e'. rewrite pop_feature_eq.
  destruct (Dict.pop f (included_features_and_methods_map w)); [discriminate|].
  intros [= <-]. eauto.
Qed.

Lemma dict_pop_length {A} k (d d' : Dict.dict A) :
  Dict.pop k d = Some d' -> S (length d') = length d.
Proof.
  revert d'. induction d as [|[k' v'] d IH]; simpl; intros d' H; [discriminate|].
  destruct (String.eqb k' k); [now injection H as <-|].
  destruct (Dict.pop k d) as [d0|]; [|discriminate].
  injection H as <-. simpl. f_equal. now apply IH.
Qed.

Lemma filter_filter {A} (f g : A -> bool) (l : list A) :
  filter g (filter f l) = filter (fun x => f x && g x) l.
Proof.
  induction l as [|a l IH]; simpl; [reflexivity|].
  destruct (f a); simpl; [destruct (g a); now rewrite IH|exact IH].
Qed.

(** A loop of pops that succeeds has removed distinct keys that were there. *)
Lemma pop_loop l self self' :
  NoDup (enabled self) ->
  for_each l pop_feature self = (self', inr tt) ->
  NoDup l /\
  incl l (enabled self) /\
  enabled self' = filter (fun k => negb (existsb (String.eqb k) l)) (enabled self) /\
  length (enabled self') + length l = length (enabled self) /\
  dt_columns self' = dt_columns self /\
  drop_original_columns self' = drop_original_columns self.
Proof.
  unfold enabled. revert self. induction l as [|f l IH]; intros self Hnd.
  - simpl. unfold ret. intros [= <-]. repeat split; auto using NoDup_nil, incl_nil_l.
    symmetry. apply forallb_filter_id. now apply forallb_forall.
  - rewrite for_each_cons, pop_feature_eq.
    destruct (Dict.pop f (included_features_and_methods_map self)) as [d|] eqn:Ep;
      [|discriminate].
    intro Hrun. pose proof (dict_keys_pop _ _ _ Ep Hnd) as Hkeys.
    apply IH in Hrun; simpl; [|rewrite Hkeys; now apply NoDup_filter].
    simpl in Hrun. destruct Hrun as (Hl & Hincl & Hen & Hlen & Hdt & Hdoc).
    assert (Hf : In f (Dict.keys (included_features_and_methods_map self))).
    { destruct (in_dec string_dec f (Dict.keys (included_features_and_methods_map self)))
        as [H|H]; [exact H|].
      apply dict_pop_None in H. congruence. }
    assert (Hnot : ~ In f l).
    { intro H. apply Hincl in H. rewrite Hkeys in H. apply filter_In in H.
      destruct H as [_ H]. now rewrite String.eqb_refl in H. }
    repeat split; auto.
    + now constructor.
    + intros x [<-|Hx]; [exact Hf|].
      apply Hincl in Hx. rewrite Hkeys in Hx. apply filter_In in Hx. tauto.
    + rewrite Hen, Hkeys, filter_filter. apply filter_ext. intro k. simpl.
      rewrite (String.eqb_sym k f). now destruct (String.eqb f k).
    + apply dict_pop_length in Ep. unfold Dict.keys in *.
      rewrite !length_map in *. simpl. lia.
Qed.

Lemma catalog_keys_eq : Dict.keys catalog = catalog_keys.
Proof. reflexivity. Qed.

Lemma catalog_NoDup : NoDup catalog_keys.
Proof.
  unfold catalog_keys.
  repeat (constructor; [simpl; intuition discriminate|]). constructor.
Qed.

Lemma init_eq dt_cols ex doc :
  __init__ dt_cols ex doc =
  let self0 := mkDateTimeFeatures dt_cols ex doc catalog in
  match ex with
  | None => inr self0
  | Some features =>
      if forallb (fun f => Dict.mem f catalog) features
      then match for_each features pop_feature self0 with
           | (_, inl e) => inl e
           | (self, inr _) => inr self
           end
      else inl AssertionError
  end.
Proof.
  unfold __init__, handle_excluded_features, bind, get.
  cbn [exclude_features included_features_and_methods_map].
  destruct ex as [features|]; [|reflexivity].
  rewrite check_features_eq.
  cbn [exclude_features included_features_and_methods_map].
  destruct (forallb (fun f => Dict.mem f catalog) features); reflexivity.
Qed.

(** C6.  The constructor of [DateTimeFeatures] raises the AssertionError
    of [handle_excluded_features] exactly when [exclude_features] is a
    list with an entry that is not one of the nine keys of the catalog.
    The constructor takes no frame: the error is raised before any frame
    can be handed to the object. *)
Theorem dt_unknown_excluded_feature dt_cols ex doc :
  Dict.keys catalog =
    [ "year"; "month"; "day-of-month"; "day-of-year"; "day-of-week";
      "is-weekend"; "hour"; "minute"; "second" ]%string /\
  (__init__ dt_cols ex doc = inl AssertionError <->
   exists features f, ex = Some features /\ In f features /\ ~ In f (Dict.keys catalog)).
Proof.
  split; [reflexivity|].
  rewrite init_eq. cbv zeta.
  destruct ex as [features|].
  - destruct (forallb (fun f => Dict.mem f catalog) features) eqn:E.
    + split.
      * intro H.
        match type of H with context [for_each ?l ?b ?w] =>
          pose proof (pop_loop_exn l w) as He;
          destruct (for_each l b w) as [w' [e|u]] end; [|discriminate].
        injection H as ->. destruct (He _ eq_refl). discriminate.
      * intros (l & f & Hl & Hin & Hnot). injection Hl as <-. exfalso. apply Hnot.
        rewrite forallb_forall in E. apply (proj1 (dict_mem_In f catalog)). auto.
    + split; [intros _|reflexivity].
      assert (Hex : exists f, In f features /\ Dict.mem f catalog = false).
      { clear -E. induction features as [|f l IH]; [discriminate|].
        cbn [forallb] in E.
        destruct (Dict.mem f catalog) eqn:Ef.
        - destruct (IH E) as [g [Hg1 Hg2]]. exists g. split; [now right|exact Hg2].
        - exists f. split; [now left|exact Ef]. }
      destruct Hex as [f [Hin Hf]]. exists features, f. repeat split; auto.
      intro H. apply (proj2 (dict_mem_In f catalog)) in H. congruence.
  - split; [discriminate|]. intros (l & f & H & _). discriminate.
Qed.

(** *** The loop of [transform] *)

Lemma assign_feature_eq d item X :
  assign_feature d item X =
  match loc X d with
  | None => (X, inl (KeyError d))
  | Some s =>
      match series_map (snd item) s with
      | inl e => (X, inl e)
      | inr s' => (set_loc X (_get_new_feature_name d (fst item)) s', inr tt)
      end
  end.
Proof.
  destruct item as [kind f]. unfold assign_feature, bind, get, modify, raise. simpl.
  destruct (loc X d) as [s|]; [|reflexivity].
  destruct (series_map f s); reflexivity.
Qed.

Lemma dt_loop_eq self X :
  for_each (dt_columns self) (fun original_column =>
    for_each (included_features_and_methods_map self) (assign_feature original_column)) X =
  for_each (dt_schedule self) dt_step X.
Proof.
  unfold dt_schedule. rewrite for_each_flat_map.
  apply (for_each_ext_inv (fun _ => True)); auto.
  intros d w _ _. now rewrite for_each_map.
Qed.

Lemma transform_eq_dt self X :
  transform self X =
  match for_each (dt_schedule self) dt_step X with
  | (X1, inl e) => (X1, inl e)
  | (X1, inr _) =>
      if drop_original_columns self then
        match drop X1 (dt_columns self) with
        | inl e => (X1, inl e)
        | inr X2 => (X2, inr X2)
        end
      else (X1, inr X1)
  end.
Proof.
  unfold transform, bind. rewrite dt_loop_eq.
  destruct (for_each (dt_schedule self) dt_step X) as [X1 [e|u]]; [reflexivity|].
  destruct (drop_original_columns self); [|reflexivity].
  unfold get, modify, raise.
  destruct (drop X1 (dt_columns self)); reflexivity.
Qed.

Lemma dt_schedule_names self : map dt_step_name (dt_schedule self) = generated_names self.
Proof.
  unfold dt_schedule, generated_names, feature_names, enabled, Dict.keys.
  induction (dt_columns self) as [|d l IH]; simpl; [reflexivity|].
  rewrite map_app, IH, !map_map. reflexivity.
Qed.

Lemma dt_schedule_columns sched X X1 :
  for_each sched dt_step X = (X1, inr tt) ->
  (forall m, In m (columns X1) <-> In m (columns X) \/ In m (map dt_step_name sched)) /\
  (NoDup (map dt_step_name sched) ->
   (forall m, In m (map dt_step_name sched) -> ~ In m (columns X)) ->
   columns X1 = columns X ++ map dt_step_name sched).
Proof.
  revert X. induction sched as [|p sched IH]; intro X.
  - simpl. unfold ret. intros [= <-]. split; [intro m; tauto|].
    intros _ _. now rewrite app_nil_r.
  - rewrite for_each_cons. unfold dt_step at 1. rewrite assign_feature_eq.
    destruct (loc X (fst p)) as [s|]; [|discriminate].
    destruct (series_map (snd (snd p)) s) as [e|s']; [discriminate|].
    intro Hrun. destruct (IH _ Hrun) as [Hc Ho]. split.
    + intro m. rewrite Hc, in_columns_set_loc. simpl. unfold dt_step_name at 2. intuition.
    + intros Hnd Hfresh. simpl in Hnd. inversion Hnd as [|? ? Hp Hnd']; subst.
      assert (Hcols : columns (set_loc X (_get_new_feature_name (fst p) (fst (snd p))) s')
                      = columns X ++ [dt_step_name p]).
      { rewrite columns_set_loc.
        destruct (existsb (String.eqb (_get_new_feature_name (fst p) (fst (snd p))))
                          (columns X)) eqn:E; [|reflexivity].
        apply mem_columns in E. exfalso. apply (Hfresh (dt_step_name p)); simpl; auto. }
      rewrite Ho; [rewrite Hcols, <- app_assoc; reflexivity|exact Hnd'|].
      intros m Hm. rewrite Hcols, in_app_iff. simpl. intros [H|[<-|[]]]; [|contradiction].
      apply (Hfresh m); simpl; auto.
Qed.

(** *** Frames on which the loop succeeds *)

Lemma catalog_methods_total kind (f : method) c :
  In (kind, f) catalog -> timestamp_cell c -> exists c', f c = inr c'.
Proof.
  intros Hin Hc. destruct c as [[t| | | | |]|]; simpl in Hc; try contradiction;
    unfold catalog in Hin; simpl in Hin;
    repeat (destruct Hin as [[= <- <-]|Hin]; [
      unfold _get_year, _get_month, _get_day_of_month, _get_day_of_year,
        _get_day_of_week, _get_hour, _get_minute, _get_second, _get_is_weekend,
        int_method, attribute;
      repeat match goal with
             | |- context [match ?x with _ => _ end] => destruct x
             end; eauto |]);
    destruct Hin.
Qed.

Lemma map_cells_total (f : method) cs :
  (forall c, timestamp_cell c -> exists c', f c = inr c') ->
  Forall timestamp_cell cs -> exists cs', map_cells f cs = inr cs'.
Proof.
  intros Hf. induction 1 as [|c cs Hc _ [cs' IH]]; simpl; [eauto|].
  destruct (Hf c Hc) as [c' ->]. rewrite IH. eauto.
Qed.

Lemma dict_pop_incl {A} k (d d' : Dict.dict A) : Dict.pop k d = Some d' -> incl d' d.
Proof.
  revert d'. induction d as [|[k' v'] d IH]; simpl; intros d' H; [discriminate|].
  destruct (String.eqb k' k).
  - injection H as <-. apply incl_tl, incl_refl.
  - destruct (Dict.pop k d) as [d0|]; [|discriminate].
    injection H as <-. intros x [<-|Hx]; [now left|right; now apply (IH d0)].
Qed.

Lemma pop_loop_items l self :
  incl (included_features_and_methods_map (fst (for_each l pop_feature self)))
       (included_features_and_methods_map self).
Proof.
  apply (for_each_inv
           (fun w => incl (included_features_and_methods_map w)
                          (included_features_and_methods_map self))
           (fun _ => True)); [|apply incl_refl].
  intros f w _ H. split; [|trivial]. rewrite pop_feature_eq.
  destruct (Dict.pop f (included_features_and_methods_map w)) as [d|] eqn:E; simpl;
    [|exact H].
  eapply incl_tran; [eapply dict_pop_incl; eauto|exact H].
Qed.

Lemma dt_schedule_success sched X :
  (forall p, In p sched -> In (snd p) catalog) ->
  (forall p, In p sched ->
     exists s, loc X (fst p) = Some s /\ Forall timestamp_cell (values s)) ->
  (forall p, In p sched -> ~ In (fst p) (map dt_step_name sched)) ->
  snd (for_each sched dt_step X) = inr tt.
Proof.
  revert X. induction sched as [|p sched IH]; intros X Hcat Hts Hfresh; [reflexivity|].
  rewrite for_each_cons. unfold dt_step at 1. rewrite assign_feature_eq.
  destruct (Hts p (or_introl eq_refl)) as [s [Hs Hcells]]. rewrite Hs.
  destruct (snd p) as [kind f] eqn:Ep. simpl.
  assert (Hf : In (kind, f) catalog) by (rewrite <- Ep; apply Hcat; now left).
  destruct (map_cells_total f (values s) (fun c => catalog_methods_total kind f c Hf) Hcells)
    as [cs Hcs].
  unfold series_map. rewrite Hcs. apply IH.
  - intros q Hq. apply Hcat. now right.
  - intros q Hq. destruct (Hts q (or_intror Hq)) as [s0 [Hs0 H0]].
    exists s0. split; [|exact H0]. rewrite <- Hs0. apply loc_set_loc_neq.
    intro Heq. apply (Hfresh q (or_intror Hq)). left.
    unfold dt_step_name. rewrite Ep. exact Heq.
  - intros q Hq H. apply (Hfresh q (or_intror Hq)). now right.
Qed.

(** *** The names of the generated columns *)

Lemma upper_catalog_inj x y :
  In x catalog_keys -> In y catalog_keys -> upper x = upper y -> x = y.
Proof.
  unfold catalog_keys. intros Hx Hy.
  simpl in Hx, Hy.
  repeat (destruct Hx as [<-|Hx]; [
    repeat (destruct Hy as [<-|Hy]; [intro H; try reflexivity; discriminate H|]);
    destruct Hy |]).
  destruct Hx.
Qed.

Lemma init_inr dt_cols ex doc self :
  __init__ dt_cols ex doc = inr self ->
  dt_columns self = dt_cols /\
  drop_original_columns self = doc /\
  NoDup (excluded ex) /\
  incl (excluded ex) catalog_keys /\
  enabled self =
    filter (fun kind => negb (existsb (String.eqb kind) (excluded ex))) catalog_keys /\
  length (enabled self) + length (excluded ex) = 9 /\
  incl (included_features_and_methods_map self) catalog.
Proof.
  rewrite init_eq. cbv zeta. destruct ex as [features|].
  - destruct (forallb (fun f => Dict.mem f catalog) features); [|discriminate].
    pose proof (pop_loop_items features (mkDateTimeFeatures dt_cols (Some features) doc catalog))
      as Hitems.
    destruct (for_each features pop_feature
                (mkDateTimeFeatures dt_cols (Some features) doc catalog))
      as [self1 [e|[]]] eqn:Hrun; [discriminate|].
    intros [= <-]. apply pop_loop in Hrun; [|apply catalog_NoDup].
    destruct Hrun as (H1 & H2 & H3 & H4 & H5 & H6). simpl in Hitems. auto 10.
  - intros [= <-]. simpl. repeat split; auto using NoDup_nil, incl_nil_l, incl_refl.
Qed.

Lemma upper_catalog_names p : In p catalog_names -> upper (fst p) = snd p.
Proof.
  unfold catalog_names. intro H. simpl in H.
  repeat (destruct H as [<-|H]; [reflexivity|]). destruct H.
Qed.

Lemma catalog_names_keys : map fst catalog_names = catalog_keys.
Proof. reflexivity. Qed.

Lemma filter_map_fst {A B} (f : A -> bool) (l : list (A * B)) :
  filter f (map fst l) = map fst (filter (fun p => f (fst p)) l).
Proof.
  induction l as [|[a b] l IH]; simpl; [reflexivity|].
  destruct (f a); simpl; now rewrite IH.
Qed.

(** C7.  An object built with the exclusion list [ex] has as enabled
    feature kinds the catalog keys that are not in [ex], in catalog order:
    9 minus the length of [ex] of them (7 for ["is-weekend"; "second"]).
    For every column [d], the names of its feature columns are [d + "_" +
    KIND] for the enabled kinds, with [KIND] the kind in upper case (YEAR,
    MONTH, DAY-OF-MONTH, DAY-OF-YEAR, DAY-OF-WEEK, IS-WEEKEND, HOUR, MINUTE,
    SECOND); they are pairwise distinct, so there is one name per enabled
    kind.  A [transform] call that returns has assigned, for every [d] of
    [dt_columns] in order and every enabled kind in catalog order, the
    column of that name: the columns of the frame after the loop are the
    old ones and the generated ones, appended in that order when they are
    new.  The call returns on every frame whose [dt_columns] hold
    timestamps or NaT, when no generated name is itself in [dt_columns]. *)
Theorem dt_generated_columns dt_cols ex doc self :
  __init__ dt_cols ex doc = inr self ->
  let kept :=
    filter (fun p => negb (existsb (String.eqb (fst p)) (excluded ex)))
      [ ("year", "YEAR"); ("month", "MONTH"); ("day-of-month", "DAY-OF-MONTH");
        ("day-of-year", "DAY-OF-YEAR"); ("day-of-week", "DAY-OF-WEEK");
        ("is-weekend", "IS-WEEKEND"); ("hour", "HOUR"); ("minute", "MINUTE");
        ("second", "SECOND") ]%string in
  let names := fun d => map (fun p => (d ++ "_" ++ snd p)%string) kept in
  enabled self = map fst kept /\
  length kept = 9 - length (excluded ex) /\
  (ex = Some ["is-weekend"; "second"]%string -> length kept = 7) /\
  (forall d,
     feature_names self d = names d /\
     NoDup (names d) /\
     length (names d) = 9 - length (excluded ex)) /\
  (forall X X' R,
     transform self X = (X', inr R) ->
     R = X' /\
     exists X1,
       for_each (dt_schedule self) dt_step X = (X1, inr tt) /\
       map dt_step_name (dt_schedule self) = flat_map names dt_cols /\
       (forall m, In m (columns X1) <->
                  In m (columns X) \/ exists d, In d dt_cols /\ In m (names d)) /\
       (NoDup (flat_map names dt_cols) ->
        (forall m, In m (flat_map names dt_cols) -> ~ In m (columns X)) ->
        columns X1 = columns X ++ flat_map names dt_cols) /\
       (if doc then drop X1 dt_cols = inr X' else X' = X1)) /\
  (forall X,
     (forall d, In d dt_cols ->
        exists s, loc X d = Some s /\ Forall timestamp_cell (values s)) ->
     (forall d, In d dt_cols -> ~ In d (flat_map names dt_cols)) ->
     exists X', transform self X = (X', inr X')).
Proof.
  intros Hinit kept names. fold catalog_names in kept. apply init_inr in Hinit.
  destruct Hinit as (Hdt & Hdoc & Hnd & Hincl & Hen & Hlen & Hitems).
  assert (Hkept : enabled self = map fst kept).
  { rewrite Hen, <- catalog_names_keys.
    exact (filter_map_fst (fun kind => negb (existsb (String.eqb kind) (excluded ex)))
                          catalog_names). }
  assert (Hfn : forall d, feature_names self d = names d).
  { intro d. unfold feature_names, names. rewrite Hkept, map_map.
    apply map_ext_in. intros p Hp. unfold _get_new_feature_name.
    apply filter_In in Hp. now rewrite (upper_catalog_names p (proj1 Hp)). }
  assert (Hflat : flat_map (feature_names self) dt_cols = flat_map names dt_cols)
    by (apply flat_map_ext; intro d; apply Hfn).
  assert (Hklen : length kept = 9 - length (excluded ex)).
  { rewrite <- (length_map fst kept), <- Hkept. lia. }
  assert (Hnames : map dt_step_name (dt_schedule self) = flat_map names dt_cols).
  { rewrite dt_schedule_names. unfold generated_names. now rewrite Hdt. }
  split; [exact Hkept|]. split; [exact Hklen|].
  split; [intros ->; simpl in Hklen; exact Hklen|].
  split; [|split].
  - intro d. split; [apply Hfn|]. rewrite <- Hfn. split.
    + unfold feature_names. apply NoDup_map_on.
      * intros x y Hx Hy H. unfold _get_new_feature_name in H.
        apply append_inv_head in H. simpl in H. injection H as H.
        rewrite Hen in Hx, Hy. apply filter_In in Hx, Hy.
        apply upper_catalog_inj; tauto.
      * rewrite Hen. apply NoDup_filter, catalog_NoDup.
    + unfold feature_names. rewrite length_map. lia.
  - intros X X' R Hrun. rewrite transform_eq_dt in Hrun.
    destruct (for_each (dt_schedule self) dt_step X) as [X1 [e|[]]] eqn:Hloop;
      [discriminate|].
    destruct (dt_schedule_columns _ _ _ Hloop) as [Hc Ho].
    rewrite Hnames in Hc, Ho. rewrite Hdoc, Hdt in Hrun.
    assert (Hcols : forall m, In m (columns X1) <->
               In m (columns X) \/ exists d, In d dt_cols /\ In m (names d)).
    { intro m. rewrite Hc, in_flat_map. reflexivity. }
    destruct doc.
    + destruct (drop X1 dt_cols) as [e|X2] eqn:Hd; [discriminate|].
      injection Hrun as <- <-. split; [reflexivity|]. exists X1. auto 10.
    + injection Hrun as <- <-. split; [reflexivity|]. exists X1. auto 10.
  - intros X Hts Hfresh. rewrite transform_eq_dt.
    assert (Hok : snd (for_each (dt_schedule self) dt_step X) = inr tt).
    { apply dt_schedule_success.
      - intros p Hp. unfold dt_schedule in Hp. apply in_flat_map in Hp.
        destruct Hp as [d [_ Hp]]. apply in_map_iff in Hp. destruct Hp as [item [<- Hi]].
        simpl. now apply Hitems.
      - intros p Hp. apply Hts. unfold dt_schedule in Hp. apply in_flat_map in Hp.
        destruct Hp as [d [Hd Hp]]. apply in_map_iff in Hp. destruct Hp as [item [<- _]].
        simpl. now rewrite <- Hdt.
      - intros p Hp. rewrite Hnames. apply Hfresh.
        unfold dt_schedule in Hp. apply in_flat_map in Hp.
        destruct Hp as [d [Hd Hp]]. apply in_map_iff in Hp. destruct Hp as [item [<- _]].
        simpl. now rewrite <- Hdt. }
    destruct (for_each (dt_schedule self) dt_step X) as [X1 [e|[]]] eqn:Hloop;
      [discriminate|].
    destruct (dt_schedule_columns _ _ _ Hloop) as [Hc _].
    rewrite Hdoc, Hdt. destruct doc; [|eauto].
    destruct (drop_total X1 dt_cols) as [X2 ->]; [|eauto].
    intros d Hd. apply Hc. left. destruct (Hts d Hd) as [s [Hs _]].
    apply loc_columns. congruence.
Qed.

End DateTimeClaims.

(** ** The properties on the sample frames *)

Section Instances.

Import Pandas samples.
Local Open Scope string_scope.

(** [lag_test]: [x1 = [1,2,3,4,5]] with [n_periods = 2] and one column per
    source gives [x1_LAG-2 = [missing, missing, 1, 2, 3]], a float64
    column. *)
Lemma lag_column_values_witness :
  lag.shift_columns lag_demo = Some ["x1"; "x2"] /\
  In "x1" ["x1"; "x2"] /\
  (0 < lag.n_periods lag_demo < 2 ^ 63)%Z /\
  loc X_test "x1" = Some (ints [1; 2; 3; 4; 5]%Z) /\
  exists self' X' s',
    lag.assign_lag_column round_float64 "x1" 2 (lag_demo, X_test) = ((self', X'), inr tt) /\
    loc X' "x1_LAG-2" = Some s' /\
    length (values s') = 5 /\
    dtype_of s' = Float64.
Proof.
  assert (H1 : lag.shift_columns lag_demo = Some ["x1"; "x2"]) by reflexivity.
  assert (H2 : In "x1" ["x1"; "x2"]) by (left; reflexivity).
  assert (H3 : (0 < lag.n_periods lag_demo < 2 ^ 63)%Z) by (split; reflexivity).
  assert (H4 : if lag.only_one_column_for_periods lag_demo
               then 2%Z = lag.n_periods lag_demo
               else (1 <= 2 <= lag.n_periods lag_demo)%Z) by reflexivity.
  assert (H5 : loc X_test "x1" = Some (ints [1; 2; 3; 4; 5]%Z)) by reflexivity.
  refine (conj H1 (conj H2 (conj H3 (conj H5 _)))).
  destruct (proj2 (proj2 (lag_column_values round_float64 keep_value refuse_missing
                            lag_demo X_test _ "x1" 2%Z _ H1 H2 H3 H4 H5)))
    as (self' & X' & s' & Hrun & Hloc & Hlen & Hdt & _).
  exists self', X', s'. split; [exact Hrun|]. split; [exact Hloc|].
  split; [exact Hlen|exact Hdt].
Defined.

(** [lag_test]: the frame gets one column per source column, in order. *)
Lemma lag_generated_columns_witness :
  lag.shift_columns lag_demo = Some ["x1"; "x2"] /\
  (0 < lag.n_periods lag_demo < 2 ^ 63)%Z /\
  NoDup ["x1"; "x2"] /\
  run_demo = ((fst (fst run_demo), snd (fst run_demo)), inr (snd (fst run_demo))) /\
  columns (snd (fst run_demo)) = ["x1"; "x2"; "x1_LAG-2"; "x2_LAG-2"] /\
  lag.new_columns (fst (fst run_demo)) = ["x1_LAG-2"; "x2_LAG-2"].
Proof.
  assert (H1 : lag.shift_columns lag_demo = Some ["x1"; "x2"]) by reflexivity.
  assert (H2 : (0 < lag.n_periods lag_demo < 2 ^ 63)%Z) by (split; reflexivity).
  assert (H3 : NoDup ["x1"; "x2"]).
  { repeat constructor; [intros [H|[]]; discriminate H|intros []]. }
  assert (H4 : forall c m, In c ["x1"; "x2"] ->
            In m (if lag.only_one_column_for_periods lag_demo
                  then [c ++ "_LAG-" ++ str (lag.n_periods lag_demo)]
                  else map (fun i => c ++ "_LAG-" ++ str (Z.of_nat i))
                           (seq 1 (Z.to_nat (lag.n_periods lag_demo)))) ->
            ~ In m (columns X_test)).
  { intros c m [<-|[<-|[]]] [<-|[]] [H|[H|[]]]; discriminate H. }
  assert (H5 : run_demo = ((fst (fst run_demo), snd (fst run_demo)),
                           inr (snd (fst run_demo)))) by (vm_compute; reflexivity).
  refine (conj H1 (conj H2 (conj H3 (conj H5 _)))).
  destruct (proj1 (proj2 (lag_generated_columns round_float64 keep_value refuse_missing
                            lag_demo X_test _ H1 H2 H3 H4)) _ _ _ H5)
    as (_ & Hcols & _ & _ & Hlog).
  split; [exact Hcols|exact Hlog].
Defined.


Lemma lag_drop_source_columns_witness :
  lag.drop_original_columns lag_full = true /\
  run_full = ((fst (fst run_full), snd (fst run_full)), inr (snd (fst run_full))) /\
  forall m, In m (lag_props.generated_names lag_full ["x1"; "x2"]) ->
            ~ In m ["x1"; "x2"] -> In m (columns (snd (fst run_full))).
Proof.
  assert (H1 : lag.drop_original_columns lag_full = true) by reflexivity.
  assert (H2 : run_full = ((fst (fst run_full), snd (fst run_full)),
                           inr (snd (fst run_full)))) by (vm_compute; reflexivity).
  refine (conj H1 (conj H2 _)).
  destruct (proj2 (lag_drop_source_columns round_float64 keep_value refuse_missing
                     lag_full X_test H1) _ _ _ H2)
    as (_ & cols & Xc & Hs & _ & _ & _ & _ & _ & Hgen).
  injection Hs as <-. exact Hgen.
Defined.

Lemma lag_transform_frame_witness :
  lag.drop_na_rows lag_one = false /\
  lag.drop_original_columns lag_one = false /\
  lag.shift_columns lag_one = Some ["x"] /\
  run_one = ((fst (fst run_one), snd (fst run_one)), inr (snd (fst run_one))) /\
  forall m, In m (columns X_single) -> In m (columns (snd (fst run_one))).
Proof.
  assert (H1 : lag.drop_na_rows lag_one = false) by reflexivity.
  assert (H2 : lag.drop_original_columns lag_one = false) by reflexivity.
  assert (H3 : lag.shift_columns lag_one = Some ["x"]) by reflexivity.
  assert (H4 : run_one = ((fst (fst run_one), snd (fst run_one)),
                          inr (snd (fst run_one)))) by (vm_compute; reflexivity).
  refine (conj H1 (conj H2 (conj H3 (conj H4 _)))).
  exact (proj1 (proj2 (proj2 (proj2 (lag_transform_frame round_float64 keep_value
                                       refuse_missing lag_one X_single _ H1 H2 H3)
                                    _ _ _ H4)))).
Defined.

(** The demo of [dt_features.py]: seven columns for [dt1], named in upper
    case. *)
Lemma dt_generated_columns_witness :
  dt_features.__init__ ["dt1"] (Some ["is-weekend"; "second"]) false = inr dtf_demo /\
  dt_props.feature_names dtf_demo "dt1" =
    ["dt1_YEAR"; "dt1_MONTH"; "dt1_DAY-OF-MONTH"; "dt1_DAY-OF-YEAR";
     "dt1_DAY-OF-WEEK"; "dt1_HOUR"; "dt1_MINUTE"].
Proof.
  assert (H1 : dt_features.__init__ ["dt1"] (Some ["is-weekend"; "second"]) false
               = inr dtf_demo) by reflexivity.
  refine (conj H1 _).
  exact (proj1 (proj1 (proj2 (proj2 (proj2 (dt_generated_columns _ _ _ _ H1)))) "dt1")).
Defined.

(** The scenario of [lag_test]: [x1_LAG-2 = [missing, missing, 1, 2, 3]]. *)
Example lag_test_scenario :
  option_map values (loc (snd (fst run_demo)) "x1_LAG-2")
  = Some [None; None; Some 1%Z; Some 2%Z; Some 3%Z].
Proof. reflexivity. Qed.

(** 1994-08-15 00:00:00 is a Monday: year 1994, month 8, day 15, weekday 0,
    and no weekend column since "is-weekend" is excluded from [dtf_demo]. *)
Example monday_scenario :
  let X' := fst (dt_features.transform dtf_demo X_dates) in
  columns X' =
    ["dt1"; "dt1_YEAR"; "dt1_MONTH"; "dt1_DAY-OF-MONTH"; "dt1_DAY-OF-YEAR";
     "dt1_DAY-OF-WEEK"; "dt1_HOUR"; "dt1_MINUTE"] /\
  option_map values (loc X' "dt1_YEAR") = Some [Some (dt_features.VInt 1994)] /\
  option_map values (loc X' "dt1_MONTH") = Some [Some (dt_features.VInt 8)] /\
  option_map values (loc X' "dt1_DAY-OF-MONTH") = Some [Some (dt_features.VInt 15)] /\
  option_map values (loc X' "dt1_DAY-OF-WEEK") = Some [Some (dt_features.VInt 0)] /\
  dt_features._get_is_weekend (Some (dt_features.VTimestamp monday))
    = inr (Some (dt_features.VBool false)).
Proof. repeat split. Qed.

(** C1, as stated, fails on an int64 column: [shift] turns it into a
    float64 column, and the lag of [2^53 + 1] is [2^53]. *)
Lemma lag_shift_rounds_integers :
  ~ (forall self (X : DataFrame Z) cols c k (s s' : Series Z) self' X' R i,
       lag.shift_columns self = Some cols ->
       In c cols ->
       (if lag.only_one_column_for_periods self
        then k = lag.n_periods self
        else (1 <= k <= lag.n_periods self)%Z) ->
       loc X c = Some s ->
       lag.transform round_float64 keep_value refuse_missing (self, X) = ((self', X'), inr R) ->
       loc R (c ++ "_LAG-" ++ str k) = Some s' ->
       (k <= Z.of_nat i)%Z ->
       i < length (values s) ->
       nth_error (values s') i = nth_error (values s) (i - Z.to_nat k)).
Proof.
  intro H.
  assert (Hrun : run_big = ((fst (fst run_big), snd (fst run_big)),
                            inr (snd (fst run_big)))) by (vm_compute; reflexivity).
  assert (Hk : if lag.only_one_column_for_periods lag_one
               then 1%Z = lag.n_periods lag_one
               else (1 <= 1 <= lag.n_periods lag_one)%Z) by (vm_compute; intuition discriminate).
  specialize (H lag_one X_big ["x"] "x" 1%Z (ints [9007199254740993; 1]%Z)
                (mkSeries Float64 [None; Some 9007199254740992%Z]) _ _ _ 1
                eq_refl (or_introl eq_refl) Hk eq_refl Hrun eq_refl).
  assert (H1 : (1 <= Z.of_nat 1)%Z) by (vm_compute; discriminate).
  assert (H2 : 1 < length (values (ints [9007199254740993; 1]%Z))) by (vm_compute; constructor).
  specialize (H H1 H2). vm_compute in H. discriminate H.
Qed.

(** C2, as stated, fails: on a frame that already has a column called like
    a lag column, the call writes that column and adds none. *)
Lemma lag_existing_name_adds_no_column :
  ~ (forall self (X : DataFrame Z) cols self' X' R,
       lag.shift_columns self = Some cols ->
       lag.drop_original_columns self = false ->
       lag.transform round_float64 keep_value refuse_missing (self, X) = ((self', X'), inr R) ->
       length (columns R) =
       length (columns X) +
       length cols * (if lag.only_one_column_for_periods self
                      then 1 else Z.to_nat (lag.n_periods self))).
Proof.
  intro H.
  assert (Hrun : run_clash = ((fst (fst run_clash), snd (fst run_clash)),
                              inr (snd (fst run_clash)))) by (vm_compute; reflexivity).
  specialize (H lag_one X_clash ["x"] _ _ _ eq_refl eq_refl Hrun).
  vm_compute in H. discriminate H.
Qed.

(** C4, as stated, fails: with [shift_columns = ["x"; "x_LAG-1"]] the
    generated column [x_LAG-1] is itself a source column and is removed
    with the source columns. *)
Lemma lag_drop_removes_generated_column :
  ~ (forall self (X : DataFrame Z) self' X' R cols,
       lag.drop_original_columns self = true ->
       lag.shift_columns self = Some cols ->
       lag.transform round_float64 keep_value refuse_missing (self, X) = ((self', X'), inr R) ->
       forall m, In m (lag_props.generated_names self cols) -> In m (columns X')).
Proof.
  intro H.
  assert (Hrun : run_chain = ((fst (fst run_chain), snd (fst run_chain)),
                              inr (snd (fst run_chain)))) by (vm_compute; reflexivity).
  specialize (H lag_chain X_single _ _ _ _ eq_refl eq_refl Hrun "x_LAG-1").
  vm_compute in H. destruct H as [H|[]]; [left; reflexivity|discriminate H].
Qed.

(** C10, as stated, fails: a column of the input frame that is called like
    a lag column is overwritten by the generated column. *)
Lemma lag_transform_overwrites_column :
  ~ (forall self (X : DataFrame Z) self' X' R,
       lag.drop_na_rows self = false ->
       lag.drop_original_columns self = false ->
       lag.transform round_float64 keep_value refuse_missing (self, X) = ((self', X'), inr R) ->
       forall m s, loc X m = Some s ->
                   exists s', loc X' m = Some s' /\ values s' = values s).
Proof.
  intro H.
  assert (Hrun : run_clash = ((fst (fst run_clash), snd (fst run_clash)),
                              inr (snd (fst run_clash)))) by (vm_compute; reflexivity).
  destruct (H lag_one X_clash _ _ _ eq_refl eq_refl Hrun "x_LAG-1" (ints [7; 8]%Z) eq_refl)
    as [s' [Hs' Hv]].
  vm_compute in Hs'. injection Hs' as <-. discriminate Hv.
Qed.

End Instances.

(** ** More on [DateTimeFeatures]: construction, names, extracted values *)

Section DateTimeMore.

Import Pandas dt_features dt_props.

Implicit Types (self : DateTimeFeatures) (X : DataFrame value).

(** *** Outcomes of the constructor *)

Lemma pop_loop_success l self :
  NoDup (enabled self) -> NoDup l -> incl l (enabled self) ->
  snd (for_each l pop_feature self) = inr tt.
Proof.
  unfold enabled. revert self. induction l as [|f l IH]; intros self Hk Hl Hincl; [reflexivity|].
  rewrite for_each_cons, pop_feature_eq.
  destruct (dict_pop_Some f (included_features_and_methods_map self)) as [d Hd];
    [apply Hincl; now left|].
  rewrite Hd. inversion Hl as [|? ? Hf Hl']; subst.
  pose proof (dict_keys_pop _ _ _ Hd Hk) as Hkeys.
  apply IH; simpl; [rewrite Hkeys; now apply NoDup_filter|exact Hl'|].
  intros x Hx. rewrite Hkeys. apply filter_In. split; [apply Hincl; now right|].
  destruct (String.eqb x f) eqn:E; [|reflexivity].
  apply String.eqb_eq in E. subst. contradiction.
Qed.

Lemma pop_loop_key_error l self e :
  snd (for_each l pop_feature self) = inl e -> exists f, e = KeyError f /\ In f l.
Proof.
  apply (for_each_inv (fun _ => True) (fun e => exists f, e = KeyError f /\ In f l)); [|trivial].
  intros f w Hf _. split; [trivial|]. intro e'. rewrite pop_feature_eq.
  destruct (Dict.pop f (included_features_and_methods_map w)); [discriminate|].
  intros [= <-]. eauto.
Qed.

(** X8.  When every entry of [exclude_features] is a catalog key, the
    constructor returns an object exactly when the entries are pairwise
    distinct; a repeated entry makes the second [pop] of it fail, and the
    constructor raises the KeyError of an entry of the list. *)
Theorem dt_init_outcome dt_cols ex doc :
  (forall f, In f (excluded ex) -> In f catalog_keys) ->
  ((exists self, __init__ dt_cols ex doc = inr self) <-> NoDup (excluded ex)) /\
  (forall e, __init__ dt_cols ex doc = inl e ->
             exists f, e = KeyError f /\ In f (excluded ex) /\ ~ NoDup (excluded ex)).
Proof.
  intro Hvalid.
  assert (Hok : NoDup (excluded ex) -> exists self, __init__ dt_cols ex doc = inr self).
  { intro Hnd. rewrite init_eq. cbv zeta. destruct ex as [features|]; [|eauto].
    simpl in Hvalid, Hnd.
    replace (forallb (fun f => Dict.mem f catalog) features) with true.
    - pose proof (pop_loop_success features
                    (mkDateTimeFeatures dt_cols (Some features) doc catalog)
                    catalog_NoDup Hnd Hvalid) as Hs.
      destruct (for_each features pop_feature
                  (mkDateTimeFeatures dt_cols (Some features) doc catalog))
        as [self [e|[]]]; [discriminate|eauto].
    - symmetry. apply forallb_forall. intros f Hf.
      apply (proj2 (dict_mem_In f catalog)). now apply Hvalid. }
  split.
  - split; [|exact Hok]. intros [self Hself]. now apply init_inr in Hself.
  - intros e He.
    assert (Hnot : ~ NoDup (excluded ex)).
    { intro Hnd. destruct (Hok Hnd) as [self Hself]. congruence. }
    rewrite init_eq in He. cbv zeta in He. destruct ex as [features|]; [|discriminate].
    simpl in Hvalid.
    replace (forallb (fun f => Dict.mem f catalog) features) with true in He.
    + pose proof (pop_loop_key_error features
                    (mkDateTimeFeatures dt_cols (Some features) doc catalog)) as Hk.
      destruct (for_each features pop_feature
                  (mkDateTimeFeatures dt_cols (Some features) doc catalog))
        as [self [e'|[]]]; [|discriminate].
      injection He as <-. destruct (Hk e' eq_refl) as [f [-> Hf]]. eauto.
    + symmetry. apply forallb_forall. intros f Hf.
      apply (proj2 (dict_mem_In f catalog)). now apply Hvalid.
Qed.

(** *** Names of the feature columns *)

Lemma split_at_last (ch : ascii) (a a' d d' : list ascii) :
  ~ In ch d -> ~ In ch d' ->
  a ++ ch :: d = a' ++ ch :: d' -> a = a' /\ d = d'.
Proof.
  intros Hd Hd'. revert a'. induction a as [|x a IH]; intros [|x' a'] H; simpl in H.
  - injection H as H. auto.
  - injection H as <- H. exfalso. apply Hd. rewrite H. apply in_elt.
  - injection H as -> H. exfalso. apply Hd'. rewrite <- H. apply in_elt.
  - injection H as <- H. destruct (IH _ H) as [-> ->]. auto.
Qed.

Lemma upper_catalog_no_underscore kind :
  In kind catalog_keys -> ~ In "_"%char (list_ascii_of_string (upper kind)).
Proof.
  unfold catalog_keys. intro H. simpl in H.
  repeat (destruct H as [<-|H]; [simpl; intuition discriminate|]). destruct H.
Qed.

Lemma feature_name_inj d1 k1 d2 k2 :
  In k1 catalog_keys -> In k2 catalog_keys ->
  _get_new_feature_name d1 k1 = _get_new_feature_name d2 k2 -> d1 = d2 /\ k1 = k2.
Proof.
  intros H1 H2 H. unfold _get_new_feature_name in H.
  apply (f_equal list_ascii_of_string) in H.
  rewrite !list_ascii_of_string_app in H. simpl in H.
  apply split_at_last in H; try now apply upper_catalog_no_underscore.
  destruct H as [Hd Hk]. split.
  - now apply list_ascii_of_string_inj.
  - apply list_ascii_of_string_inj in Hk. now apply upper_catalog_inj.
Qed.

Lemma NoDup_flat_map_pairs {A B} (l1 : list A) (l2 : list B) :
  NoDup l1 -> NoDup l2 -> NoDup (flat_map (fun a => map (pair a) l2) l1).
Proof.
  intros H1 H2. induction H1 as [|a l1 Ha _ IH]; simpl; [constructor|].
  apply NoDup_app.
  - apply NoDup_map_on; [|exact H2]. now intros x y _ _ [= ->].
  - exact IH.
  - intros p Hp1 Hp2. apply in_map_iff in Hp1. destruct Hp1 as [b [<- _]].
    apply in_flat_map in Hp2. destruct Hp2 as [a0 [Ha0 Hp2]].
    apply in_map_iff in Hp2. destruct Hp2 as [b0 [[= ->] _]]. contradiction.
Qed.

Lemma generated_names_pairs self :
  generated_names self =
  map (fun p => _get_new_feature_name (fst p) (snd p))
      (flat_map (fun d => map (pair d) (enabled self)) (dt_columns self)).
Proof.
  unfold generated_names, feature_names.
  induction (dt_columns self) as [|d l IH]; simpl; [reflexivity|].
  now rewrite map_app, IH, map_map.
Qed.

Lemma dt_generated_names_NoDup dt_cols ex doc self :
  __init__ dt_cols ex doc = inr self -> NoDup dt_cols -> NoDup (generated_names self).
Proof.
  intros Hinit Hnd. apply init_inr in Hinit.
  destruct Hinit as (Hdt & _ & _ & _ & Hen & _).
  assert (Hcat : forall k, In k (enabled self) -> In k catalog_keys).
  { intros k Hk. rewrite Hen in Hk. apply filter_In in Hk. tauto. }
  rewrite generated_names_pairs. apply NoDup_map_on.
  - intros [d1 k1] [d2 k2] Hp1 Hp2 H. simpl in H.
    apply in_flat_map in Hp1, Hp2.
    destruct Hp1 as [a1 [_ Hp1]], Hp2 as [a2 [_ Hp2]].
    apply in_map_iff in Hp1, Hp2.
    destruct Hp1 as [b1 [[= <- <-] Hb1]], Hp2 as [b2 [[= <- <-] Hb2]].
    apply feature_name_inj in H; auto. destruct H as [-> ->]. reflexivity.
  - apply NoDup_flat_map_pairs; [now rewrite Hdt|].
    rewrite Hen. apply NoDup_filter, catalog_NoDup.
Qed.

(** X9.  The name of a feature column determines its source column and its
    feature kind: no column name ends in two different ways as
    ["_" + KIND].  So with pairwise distinct [dt_columns] the generated
    names are pairwise distinct, [9 - k] per column. *)
Theorem dt_names_distinct dt_cols ex doc self :
  __init__ dt_cols ex doc = inr self ->
  (forall d1 k1 d2 k2,
     In k1 catalog_keys -> In k2 catalog_keys ->
     _get_new_feature_name d1 k1 = _get_new_feature_name d2 k2 -> d1 = d2 /\ k1 = k2) /\
  (NoDup dt_cols ->
   NoDup (generated_names self) /\
   length (generated_names self) = length dt_cols * (9 - length (excluded ex))).
Proof.
  intro Hinit. split; [intros; now apply feature_name_inj|].
  intro Hnd. split; [now apply (dt_generated_names_NoDup dt_cols ex doc)|].
  apply init_inr in Hinit. destruct Hinit as (Hdt & _ & _ & _ & _ & Hlen & _).
  unfold generated_names, feature_names. rewrite Hdt.
  assert (Hl : length (enabled self) = 9 - length (excluded ex)) by lia.
  rewrite <- Hl. clear.
  induction dt_cols as [|d l IH]; simpl; [reflexivity|].
  now rewrite length_app, length_map, IH.
Qed.

(** *** The extracted values *)

Lemma dt_step_eq p X :
  dt_step p X =
  match loc X (fst p) with
  | None => (X, inl (KeyError (fst p)))
  | Some s =>
      match series_map (snd (snd p)) s with
      | inl e => (X, inl e)
      | inr s' => (set_loc X (dt_step_name p) s', inr tt)
      end
  end.
Proof. unfold dt_step. apply assign_feature_eq. Qed.

Lemma dt_schedule_frame sched X :
  let X' := fst (for_each sched dt_step X) in
  (forall m, ~ In m (map dt_step_name sched) -> loc X' m = loc X m) /\
  (forall m, In m (columns X) -> In m (columns X')).
Proof.
  simpl.
  apply (for_each_inv
           (fun w : DataFrame value =>
              (forall m, ~ In m (map dt_step_name sched) -> loc w m = loc X m) /\
              (forall m, In m (columns X) -> In m (columns w)))
           (fun _ => True)); [|split; auto].
  intros p X1 Hp [Hl Hc]. split; [|trivial]. rewrite dt_step_eq.
  destruct (loc X1 (fst p)) as [s|]; [|split; assumption].
  destruct (series_map (snd (snd p)) s) as [e|s']; [split; assumption|]. simpl. split.
  - intros m Hm. rewrite loc_set_loc_neq; [auto|].
    intros <-. apply Hm. now apply in_map.
  - intros m Hm. apply in_columns_set_loc. auto.
Qed.

Lemma dt_schedule_final sched X X1 :
  NoDup (map dt_step_name sched) ->
  (forall p, In p sched -> ~ In (fst p) (map dt_step_name sched)) ->
  for_each sched dt_step X = (X1, inr tt) ->
  forall p, In p sched ->
    exists s s', loc X (fst p) = Some s /\
                 series_map (snd (snd p)) s = inr s' /\
                 loc X1 (dt_step_name p) = Some s'.
Proof.
  revert X. induction sched as [|q sched IH]; intros X Hnd Hsrc Hrun p Hp; [destruct Hp|].
  rewrite for_each_cons, dt_step_eq in Hrun.
  destruct (loc X (fst q)) as [s|] eqn:Hs; [|discriminate].
  destruct (series_map (snd (snd q)) s) as [e|s'] eqn:Hm; [discriminate|].
  simpl in Hnd. inversion Hnd as [|? ? Hq Hnd']; subst.
  destruct Hp as [<-|Hp].
  - exists s, s'. repeat split; auto.
    pose proof (dt_schedule_frame sched (set_loc X (dt_step_name q) s')) as [Hloc _].
    rewrite Hrun in Hloc. simpl in Hloc. rewrite (Hloc _ Hq). apply loc_set_loc_eq.
  - destruct (IH _ Hnd' (fun r Hr H => Hsrc r (or_intror Hr) (or_intror H)) Hrun p Hp)
      as (s0 & s0' & H1 & H2 & H3).
    exists s0, s0'. repeat split; auto.
    rewrite <- H1. symmetry. apply loc_set_loc_neq.
    intro Heq. apply (Hsrc p (or_intror Hp)). left. exact Heq.
Qed.

Lemma map_cells_inr (f : method) cs cs' :
  map_cells f cs = inr cs' ->
  length cs' = length cs /\
  forall i c, nth_error cs i = Some c ->
              exists c', nth_error cs' i = Some c' /\ f c = inr c'.
Proof.
  revert cs'. induction cs as [|c cs IH]; simpl; intros cs' H.
  - injection H as <-. split; [reflexivity|]. intros [|i] c'; discriminate.
  - destruct (f c) as [e|c1] eqn:Ef; [discriminate|].
    destruct (map_cells f cs) as [e|cs1]; [discriminate|].
    injection H as <-. destruct (IH cs1 eq_refl) as [Hl Hn]. split; [simpl; now rewrite Hl|].
    intros [|i] c0 Hc0; simpl in *.
    + injection Hc0 as <-. eauto.
    + now apply Hn.
Qed.

(** X10.  With pairwise distinct [dt_columns] and no feature name among
    them, a [transform] call that returns has stored under
    [d + "_" + KIND], for every column [d] of [dt_columns] and every
    enabled kind, a column with as many cells as [d] has in the input
    frame, whose cell at each row is what the method of that kind (a method
    of the catalog) returns on the cell of [d] at that row. *)
Theorem dt_feature_values dt_cols ex doc self X X' R d kind (f : method) (s : Series value) :
  __init__ dt_cols ex doc = inr self ->
  NoDup dt_cols ->
  (forall m, In m (generated_names self) -> ~ In m dt_cols) ->
  In d dt_cols ->
  In (kind, f) (included_features_and_methods_map self) ->
  loc X d = Some s ->
  transform self X = (X', inr R) ->
  In (kind, f) catalog /\
  exists s',
    loc X' (d ++ "_" ++ upper kind)%string = Some s' /\
    length (values s') = length (values s) /\
    forall i c, nth_error (values s) i = Some c ->
                exists c', nth_error (values s') i = Some c' /\ f c = inr c'.
Proof.
  intros Hinit Hnd Hfresh Hd Hkf Hs Hrun.
  pose proof (dt_generated_names_NoDup _ _ _ _ Hinit Hnd) as Hnames.
  apply init_inr in Hinit. destruct Hinit as (Hdt & Hdoc & _ & _ & _ & _ & Hitems).
  split; [now apply Hitems|].
  rewrite transform_eq_dt in Hrun.
  destruct (for_each (dt_schedule self) dt_step X) as [X1 [e|[]]] eqn:Hloop; [discriminate|].
  rewrite <- dt_schedule_names in Hnames, Hfresh.
  assert (Hp : In (d, (kind, f)) (dt_schedule self)).
  { unfold dt_schedule. apply in_flat_map. exists d. split; [now rewrite Hdt|].
    now apply in_map. }
  assert (Hsrc : forall p, In p (dt_schedule self) ->
                           ~ In (fst p) (map dt_step_name (dt_schedule self))).
  { intros p Hp' H. apply (Hfresh _ H). unfold dt_schedule in Hp'.
    apply in_flat_map in Hp'. destruct Hp' as [d0 [Hd0 Hp']].
    apply in_map_iff in Hp'. destruct Hp' as [item [<- _]]. simpl. now rewrite <- Hdt. }
  destruct (dt_schedule_final _ _ _ Hnames Hsrc Hloop _ Hp) as (s0 & s' & H1 & H2 & H3).
  simpl in H1, H2, H3. rewrite Hs in H1. injection H1 as <-.
  unfold dt_step_name in H3. simpl in H3. unfold _get_new_feature_name in H3.
  unfold series_map in H2. destruct (map_cells f (values s)) as [e|cs] eqn:Hcs; [discriminate|].
  injection H2 as <-. destruct (map_cells_inr _ _ _ Hcs) as [Hl Hn].
  assert (Hloc : loc X' (d ++ "_" ++ upper kind)%string
                 = Some (mkSeries (infer_dtype cs) cs)).
  { destruct (drop_original_columns self).
    - destruct (drop X1 (dt_columns self)) as [e|X2] eqn:Hdr; [discriminate|].
      injection Hrun as <- _. apply drop_inr in Hdr. destruct Hdr as [-> _].
      rewrite loc_filter_names.
      destruct (existsb (String.eqb (d ++ "_" ++ upper kind)%string) (dt_columns self)) eqn:E;
        [|exact H3].
      apply mem_columns in E. exfalso. rewrite Hdt in E.
      apply (Hfresh (dt_step_name (d, (kind, f)))); [now apply in_map|exact E].
    - injection Hrun as <- _. exact H3. }
  eexists. split; [exact Hloc|]. split; [exact Hl|exact Hn].
Qed.

Lemma weekend_eq (z : Z) :
  match z with
  | 5%Z | 6%Z => inr (Some (VBool true))
  | _ => @inr exn (cell value) (Some (VBool false))
  end = inr (Some (VBool ((z =? 5) || (z =? 6))%Z)).
Proof.
  destruct z as [|q|q]; try reflexivity.
  repeat (destruct q as [q|q|]; try reflexivity).
Qed.

(** X11.  What the method filed under each kind of the catalog returns.
    On a timestamp it is a value, never a missing cell and never an error:
    the attribute the kind is named after ([year], [month], [day] for
    day-of-month, [dayofyear], [dayofweek], [hour], [minute], [second]) as
    an integer, and for "is-weekend" the boolean that is true exactly for
    the weekdays 5 and 6.  On NaT the integer methods return a missing
    cell, and "is-weekend" returns False.  On a missing cell (NaN, None),
    an int, a bool or a string every method raises AttributeError.  On
    another object a method returns the attribute it reads when the object
    has it, and raises AttributeError otherwise. *)
Theorem dt_extraction_contract :
  (forall t : Timestamp,
     extracts "year" (Some (VTimestamp t)) (inr (Some (VInt (year t)))) /\
     extracts "month" (Some (VTimestamp t)) (inr (Some (VInt (month t)))) /\
     extracts "day-of-month" (Some (VTimestamp t)) (inr (Some (VInt (day t)))) /\
     extracts "day-of-year" (Some (VTimestamp t)) (inr (Some (VInt (dayofyear t)))) /\
     extracts "day-of-week" (Some (VTimestamp t)) (inr (Some (VInt (dayofweek t)))) /\
     extracts "hour" (Some (VTimestamp t)) (inr (Some (VInt (hour t)))) /\
     extracts "minute" (Some (VTimestamp t)) (inr (Some (VInt (minute t)))) /\
     extracts "second" (Some (VTimestamp t)) (inr (Some (VInt (second t)))) /\
     extracts "is-weekend" (Some (VTimestamp t))
       (inr (Some (VBool ((dayofweek t =? 5) || (dayofweek t =? 6))%Z)))) /\
  (forall kind (f : method),
     In (kind, f) catalog ->
     f (Some VNaT) = inr (if String.eqb kind "is-weekend" then Some (VBool false) else None) /\
     f None = inl AttributeError /\
     (forall z, f (Some (VInt z)) = inl AttributeError) /\
     (forall b, f (Some (VBool b)) = inl AttributeError) /\
     (forall s, f (Some (VStr s)) = inl AttributeError)) /\
  (forall kind name attrs,
     In (kind, name)
        [ ("year", "year"); ("month", "month"); ("day-of-month", "day");
          ("day-of-year", "dayofyear"); ("day-of-week", "dayofweek");
          ("hour", "hour"); ("minute", "minute"); ("second", "second") ]%string ->
     extracts kind (Some (VObject attrs))
       (match Dict.get name attrs with
        | Some z => inr (Some (VInt z))
        | None => inl AttributeError
        end)) /\
  (forall attrs,
     extracts "is-weekend" (Some (VObject attrs))
       (match Dict.get "dayofweek" attrs with
        | Some z => inr (Some (VBool ((z =? 5) || (z =? 6))%Z))
        | None => inl AttributeError
        end)).
Proof.
  split; [|split; [|split]].
  - intro t. repeat split; try (eexists; split; reflexivity).
    exists _get_is_weekend. split; [reflexivity|].
    unfold _get_is_weekend, attribute. apply weekend_eq.
  - intros kind f Hin. unfold catalog in Hin. simpl in Hin.
    repeat (destruct Hin as [[= <- <-]|Hin]; [repeat split|]). destruct Hin.
  - intros kind name attrs Hin. simpl in Hin.
    repeat (destruct Hin as [[= <- <-]|Hin];
            [eexists; split; [reflexivity|];
             unfold _get_year, _get_month, _get_day_of_month, _get_day_of_year,
               _get_day_of_week, _get_hour, _get_minute, _get_second, int_method, attribute;
             match goal with |- context [Dict.get ?n attrs] => destruct (Dict.get n attrs) end;
             reflexivity|]).
    destruct Hin.
  - intro attrs. exists _get_is_weekend. split; [reflexivity|].
    unfold _get_is_weekend, attribute.
    destruct (Dict.get "dayofweek" attrs) as [z|]; [apply weekend_eq|reflexivity].
Qed.

(** *** Failures and the rest of the frame *)

Lemma catalog_method_error kind (f : method) c e :
  In (kind, f) catalog -> f c = inl e -> e = AttributeError.
Proof.
  intros Hin He. unfold catalog in Hin. simpl in Hin.
  assert (Hint : forall name field, int_method name field c = inl e -> e = AttributeError).
  { intros name field H. unfold int_method, attribute in H.
    destruct c as [[t| | | | |attrs]|]; simpl in H; try congruence.
    destruct (Dict.get name attrs); congruence. }
  repeat (destruct Hin as [[= <- <-]|Hin]; [first [now apply (Hint _ _ He) | idtac]|]);
    [|destruct Hin].
  unfold _get_is_weekend, attribute in He.
  destruct c as [[t| | | | |attrs]|]; simpl in He; try congruence.
  - repeat match type of He with
           | context [match ?x with _ => _ end] => destruct x
           end; discriminate.
  - destruct (Dict.get "dayofweek"%string attrs) as [z|]; [|congruence].
    repeat match type of He with
           | context [match ?x with _ => _ end] => destruct x
           end; discriminate.
Qed.

Lemma map_cells_error kind (f : method) cs e :
  In (kind, f) catalog -> map_cells f cs = inl e -> e = AttributeError.
Proof.
  intro Hin. induction cs as [|c cs IH]; simpl; [discriminate|].
  destruct (f c) as [e'|c'] eqn:Ef.
  - intros [= <-]. eapply catalog_method_error; eauto.
  - destruct (map_cells f cs) as [e'|cs']; [|discriminate].
    intros [= <-]. now apply IH.
Qed.

Lemma in_dt_schedule self p :
  In p (dt_schedule self) <->
  In (fst p) (dt_columns self) /\ In (snd p) (included_features_and_methods_map self).
Proof.
  unfold dt_schedule. rewrite in_flat_map. split.
  - intros [d [Hd Hp]]. apply in_map_iff in Hp. destruct Hp as [item [<- Hi]]. auto.
  - intros [Hd Hi]. exists (fst p). split; [exact Hd|].
    apply in_map_iff. exists (snd p). split; [now destruct p|exact Hi].
Qed.

(** X12.  A [transform] call of [DateTimeFeatures] raises nothing but the
    KeyError of a column of [dt_columns] that the input frame does not
    hold, or the AttributeError of a cell that is neither a timestamp nor
    NaT (nor another object with the attribute that is read).  A call that
    returns leaves every column that is neither a feature
    name nor removed as it was, keeps the number of cells of every column,
    and, with [drop_original_columns], has removed every column of
    [dt_columns].  When every feature kind is excluded and the source
    columns are kept, the call returns the frame untouched, whatever
    [dt_columns] names. *)
Theorem dt_transform_frame dt_cols ex doc self X :
  __init__ dt_cols ex doc = inr self ->
  (forall e, snd (transform self X) = inl e ->
     (exists d, e = KeyError d /\ In d dt_cols /\ ~ In d (columns X)) \/
     e = AttributeError) /\
  (enabled self = [] -> doc = false -> transform self X = (X, inr X)) /\
  (forall X' R, transform self X = (X', inr R) ->
     R = X' /\
     (forall m, ~ In m (generated_names self) ->
                loc X' m = if andb doc (existsb (String.eqb m) dt_cols)
                           then None else loc X m) /\
     (doc = true -> forall d, In d dt_cols -> ~ In d (columns X')) /\
     (lag_props.well_formed X -> forall p, In p X' -> length (values (snd p)) = nrows X)).
Proof.
  intro Hinit. apply init_inr in Hinit.
  destruct Hinit as (Hdt & Hdoc & _ & _ & _ & _ & Hitems).
  assert (Hloop : forall m, In m (columns X) ->
                            In m (columns (fst (for_each (dt_schedule self) dt_step X)))).
  { apply dt_schedule_frame. }
  split; [|split].
  - intros e He. rewrite transform_eq_dt in He.
    assert (Herr : forall e', snd (for_each (dt_schedule self) dt_step X) = inl e' ->
               (exists d, e' = KeyError d /\ In d dt_cols /\ ~ In d (columns X)) \/
               e' = AttributeError).
    { apply (for_each_inv
               (fun w : DataFrame value => forall m, In m (columns X) -> In m (columns w))
               (fun e' => (exists d, e' = KeyError d /\ In d dt_cols /\ ~ In d (columns X)) \/
                          e' = AttributeError)); [|auto].
      intros p X1 Hp H. rewrite dt_step_eq. apply in_dt_schedule in Hp. destruct Hp as [Hd Hi].
      destruct (loc X1 (fst p)) as [s|] eqn:Hs.
      - destruct (series_map (snd (snd p)) s) as [e'|s'] eqn:Hm; simpl.
        + split; [exact H|]. intros e0 [= <-]. right. unfold series_map in Hm.
          destruct (map_cells (snd (snd p)) (values s)) as [e1|cs] eqn:Hc; [|discriminate].
          injection Hm as <-. destruct (snd p) as [kind f] eqn:Ep. simpl in Hc.
          eapply map_cells_error; [|exact Hc]. apply Hitems. exact Hi.
        + split; [|discriminate]. intros m Hm'. apply in_columns_set_loc. auto.
      - simpl. split; [exact H|]. intros e0 [= <-]. left. exists (fst p).
        repeat split; [now rewrite <- Hdt|].
        intro Hin. apply H, loc_columns in Hin. congruence. }
    destruct (for_each (dt_schedule self) dt_step X) as [X1 [e1|[]]] eqn:Hrun.
    + simpl in He. injection He as <-. now apply Herr.
    + simpl in Hloop. destruct (drop_original_columns self); [|discriminate].
      destruct (drop X1 (dt_columns self)) as [e1|X2] eqn:Hdr; [|discriminate].
      simpl in He. injection He as <-. left.
      unfold drop in Hdr.
      destruct (find (fun n => negb (existsb (String.eqb n) (columns X1))) (dt_columns self))
        as [d|] eqn:Hf; [|discriminate].
      injection Hdr as <-. apply find_some in Hf. destruct Hf as [Hd Hno].
      exists d. repeat split; [now rewrite <- Hdt|].
      intro Hin. apply Hloop, mem_columns in Hin. rewrite Hin in Hno. discriminate.
  - intros Hen Hd. rewrite transform_eq_dt.
    assert (Hsched : dt_schedule self = []).
    { unfold dt_schedule. unfold enabled, Dict.keys in Hen.
      apply map_eq_nil in Hen. rewrite Hen. clear.
      induction (dt_columns self); simpl; auto. }
    rewrite Hsched. simpl. unfold ret. rewrite Hdoc, Hd. reflexivity.
  - intros X' R Hrun. rewrite transform_eq_dt in Hrun.
    pose proof (dt_schedule_frame (dt_schedule self) X) as [Hframe _].
    assert (Hwf : lag_props.well_formed X ->
              forall p, In p (fst (for_each (dt_schedule self) dt_step X)) ->
                        length (values (snd p)) = nrows X).
    { intro HX.
      apply (for_each_inv
               (fun w : DataFrame value =>
                  forall p, In p w -> length (values (snd p)) = nrows X)
               (fun _ => True)).
      - intros p X1 _ H. split; [|trivial]. rewrite dt_step_eq.
        destruct (loc X1 (fst p)) as [s|] eqn:Hs; [|exact H].
        destruct (series_map (snd (snd p)) s) as [e'|s'] eqn:Hm; [exact H|]. simpl.
        intros q Hq. apply in_set_loc in Hq. destruct Hq as [->|Hq]; [|auto]. simpl.
        unfold series_map in Hm.
        destruct (map_cells (snd (snd p)) (values s)) as [e1|cs] eqn:Hc; [discriminate|].
        injection Hm as <-. simpl. destruct (map_cells_inr _ _ _ Hc) as [-> _].
        apply (H (fst p, s)). now apply loc_Some_In.
      - unfold lag_props.well_formed in HX. rewrite Forall_forall in HX. exact HX. }
    destruct (for_each (dt_schedule self) dt_step X) as [X1 [e1|[]]] eqn:Hloop';
      [discriminate|].
    simpl in Hframe, Hwf. rewrite dt_schedule_names in Hframe.
    rewrite Hdoc, Hdt in Hrun. destruct doc.
    + destruct (drop X1 dt_cols) as [e1|X2] eqn:Hdr; [discriminate|].
      injection Hrun as <- <-. apply drop_inr in Hdr. destruct Hdr as [-> _].
      split; [reflexivity|]. split; [|split].
      * intros m Hm. rewrite loc_filter_names. simpl.
        destruct (existsb (String.eqb m) dt_cols); [reflexivity|auto].
      * intros _ d Hd Hin. apply loc_columns in Hin. rewrite loc_filter_names in Hin.
        apply mem_columns in Hd. rewrite Hd in Hin. now apply Hin.
      * intros HX p Hp. apply filter_In in Hp. apply (Hwf HX), Hp.
    + injection Hrun as <- <-. split; [reflexivity|]. split; [|split].
      * intros m Hm. simpl. auto.
      * discriminate.
      * exact Hwf.
Qed.

(** *** Calling [transform] again on its own result *)

Lemma dt_schedule_rerun sched X :
  (forall p, In p sched ->
     exists s s', loc X (fst p) = Some s /\
                  series_map (snd (snd p)) s = inr s' /\
                  loc X (dt_step_name p) = Some s') ->
  for_each sched dt_step X = (X, inr tt).
Proof.
  induction sched as [|p sched IH]; intro H; [reflexivity|].
  destruct (H p (or_introl eq_refl)) as (s & s' & H1 & H2 & H3).
  rewrite for_each_cons, dt_step_eq, H1, H2.
  assert (Hsame : set_loc X (dt_step_name p) s' = X).
  { clear -H3. induction X as [|[n0 s0] X IH]; simpl in *; [discriminate|].
    destruct (String.eqb n0 (dt_step_name p)); [now injection H3 as ->|].
    now rewrite IH. }
  rewrite Hsame. apply IH. intros q Hq. apply H. now right.
Qed.

(** X14.  With pairwise distinct [dt_columns] and no feature name among
    them, calling [transform] again on the frame a first call returned
    gives, when the source columns are kept, the very same frame; and when
    they are removed, the KeyError of the first column of [dt_columns],
    with the frame left as it is. *)
Theorem dt_transform_again dt_cols ex doc self X X1 R :
  __init__ dt_cols ex doc = inr self ->
  NoDup dt_cols ->
  (forall m, In m (generated_names self) -> ~ In m dt_cols) ->
  transform self X = (X1, inr R) ->
  (doc = false -> transform self X1 = (X1, inr X1)) /\
  (doc = true -> forall d rest, dt_cols = d :: rest ->
                 transform self X1 = (X1, inl (KeyError d))).
Proof.
  intros Hinit Hnd Hfresh Hrun.
  pose proof (dt_generated_names_NoDup _ _ _ _ Hinit Hnd) as Hnames.
  apply init_inr in Hinit. destruct Hinit as (Hdt & Hdoc & _).
  rewrite transform_eq_dt in Hrun.
  destruct (for_each (dt_schedule self) dt_step X) as [X0 [e|[]]] eqn:Hloop; [discriminate|].
  rewrite <- dt_schedule_names in Hnames, Hfresh.
  assert (Hsrc : forall p, In p (dt_schedule self) ->
                           ~ In (fst p) (map dt_step_name (dt_schedule self))).
  { intros p Hp H. apply (Hfresh _ H). apply in_dt_schedule in Hp. now rewrite <- Hdt. }
  pose proof (dt_schedule_final _ _ _ Hnames Hsrc Hloop) as Hfin.
  pose proof (dt_schedule_frame (dt_schedule self) X) as [Hframe _].
  rewrite Hloop in Hframe. simpl in Hframe.
  rewrite Hdoc in Hrun. split.
  - intros ->. injection Hrun as <- _. rewrite transform_eq_dt, Hdoc.
    rewrite dt_schedule_rerun; [reflexivity|].
    intros p Hp. destruct (Hfin p Hp) as (s & s' & H1 & H2 & H3).
    exists s, s'. repeat split; auto. rewrite (Hframe _ (Hsrc p Hp)). exact H1.
  - intros -> d rest Hd. rewrite Hdt in Hrun.
    destruct (drop X0 dt_cols) as [e|X2] eqn:Hdr; [discriminate|].
    injection Hrun as <- _. apply drop_inr in Hdr. destruct Hdr as [-> _].
    set (X2 := filter (fun p => negb (existsb (String.eqb (fst p)) dt_cols)) X0).
    assert (Hnone : loc X2 d = None).
    { unfold X2. rewrite loc_filter_names, Hd. simpl. now rewrite String.eqb_refl. }
    rewrite transform_eq_dt, Hdoc.
    destruct (included_features_and_methods_map self) as [|item items] eqn:Hitems.
    + assert (Hsched : dt_schedule self = []).
      { unfold dt_schedule. rewrite Hitems. clear.
        induction (dt_columns self); simpl; auto. }
      rewrite Hsched. simpl. unfold ret. rewrite Hdt, Hd. unfold drop. simpl.
      replace (existsb (String.eqb d) (columns X2)) with false; [reflexivity|].
      symmetry. apply not_true_is_false. intro H. apply mem_columns, loc_columns in H.
      congruence.
    + assert (Hsched : exists sched, dt_schedule self = (d, item) :: sched).
      { unfold dt_schedule. rewrite Hitems, Hdt, Hd. simpl. eauto. }
      destruct Hsched as [sched ->].
      rewrite for_each_cons, dt_step_eq. simpl fst. rewrite Hnone. reflexivity.
Qed.

End DateTimeMore.

(** ** The further properties on the sample frames *)

Section MoreInstances.

Import Pandas samples more_samples.
Local Open Scope string_scope.

Lemma lag_demo_reachable :
  lag_props.reachable Z round_float64 keep_value refuse_missing lag_demo.
Proof.
  apply (lag_props.reach_init Z _ _ _ 2%Z (Some ["x1"; "x2"]) false false true). reflexivity.
Defined.

Lemma lag_fresh_dropna_reachable :
  lag_props.reachable Z round_float64 keep_value refuse_missing lag_fresh_dropna.
Proof.
  apply (lag_props.reach_init Z _ _ _ 1%Z None true false false). reflexivity.
Defined.

Lemma lag_gap_reachable :
  lag_props.reachable Z round_float64 keep_value refuse_missing lag_gap.
Proof.
  apply (lag_props.reach_init Z _ _ _ 1%Z (Some ["x"; "zz"]) false false false). reflexivity.
Defined.

Lemma lag_used_reachable :
  lag_props.reachable Z round_float64 keep_value refuse_missing lag_used.
Proof.
  apply (lag_props.reach_transform Z round_float64 keep_value refuse_missing
           (fst (fst run_one)) X_single).
  apply (lag_props.reach_transform Z round_float64 keep_value refuse_missing lag_one X_single).
  apply (lag_props.reach_init Z _ _ _ 1%Z (Some ["x"]) false false false). reflexivity.
Defined.

Lemma X_test_no_missing : lag_props.no_missing X_test.
Proof.
  intros n s c Hin Hc. simpl in Hin.
  destruct Hin as [H|[H|[]]]; injection H as <- <-; simpl in Hc;
    repeat (destruct Hc as [<-|Hc]; [discriminate|]); destruct Hc.
Defined.

Lemma X_test_well_formed : lag_props.well_formed X_test.
Proof. repeat constructor. Defined.

(** After two calls the name [x_LAG-1] is logged twice and tracked once. *)
Lemma lag_tracked_names_invariant_witness :
  lag_props.reachable Z round_float64 keep_value refuse_missing lag_used /\
  lag.new_columns lag_used = ["x_LAG-1"; "x_LAG-1"] /\
  lag.column_dtype_map lag_used = [("x_LAG-1", Int64)] /\
  NoDup (Dict.keys (lag.column_dtype_map lag_used)) /\
  incl (Dict.keys (lag.column_dtype_map lag_used)) (lag.new_columns lag_used) /\
  incl (lag.new_columns lag_used) (lag_props.generated_names lag_used ["x"]).
Proof.
  refine (conj lag_used_reachable (conj eq_refl (conj eq_refl _))).
  destruct (lag_tracked_names_invariant round_float64 keep_value refuse_missing lag_used
              lag_used_reachable) as (H1 & H2 & H3 & _).
  split; [exact H1|]. split; [exact H2|]. exact (H3 ["x"] eq_refl).
Defined.

(** [zz] is not a column of [X_single]: the call stops with its KeyError,
    which is the second of the three ways to fail. *)
Lemma lag_transform_errors_witness :
  lag_props.reachable Z round_float64 keep_value refuse_missing lag_gap /\
  (lag.n_periods lag_gap < 2 ^ 63)%Z /\
  NoDup (columns X_single) /\
  run_gap = ((fst (fst run_gap), snd (fst run_gap)), inl (KeyError "zz")) /\
  exists cols c,
    lag.shift_columns lag_gap = Some cols /\ KeyError "zz" = KeyError c /\
    In c cols /\ ~ In c (columns X_single).
Proof.
  assert (H2 : (lag.n_periods lag_gap < 2 ^ 63)%Z) by reflexivity.
  assert (H3 : NoDup (columns X_single)) by (repeat constructor; intros []).
  assert (H4 : run_gap = ((fst (fst run_gap), snd (fst run_gap)), inl (KeyError "zz")))
    by (vm_compute; reflexivity).
  refine (conj lag_gap_reachable (conj H2 (conj H3 (conj H4 _)))).
  destruct (proj2 (lag_transform_errors round_float64 keep_value refuse_missing
                     lag_gap X_single lag_gap_reachable H2 H3) _ _ _ H4)
    as [[H _]|[H|[H _]]]; [discriminate H|exact H|discriminate H].
Defined.

Lemma lag_missing_source_column_witness :
  lag.shift_columns lag_gap = Some (["x"] ++ "zz" :: [])%list /\
  (0 < lag.n_periods lag_gap < 2 ^ 63)%Z /\
  (forall d, In d ["x"] -> In d (columns X_single)) /\
  ~ In "zz" (columns X_single) /\
  ~ In "zz" (lag_props.generated_names lag_gap ["x"]) /\
  exists self' X',
    run_gap = ((self', X'), inl (KeyError "zz")) /\
    lag.new_columns self' = ["x_LAG-1"; "zz_LAG-1"].
Proof.
  assert (H1 : lag.shift_columns lag_gap = Some (["x"] ++ "zz" :: [])%list) by reflexivity.
  assert (H2 : (0 < lag.n_periods lag_gap < 2 ^ 63)%Z) by (split; reflexivity).
  assert (H3 : forall d, In d ["x"] -> In d (columns X_single)).
  { intros d [<-|[]]. left. reflexivity. }
  assert (H4 : ~ In "zz" (columns X_single)).
  { intros [H|[]]. discriminate H. }
  assert (H5 : ~ In "zz" (lag_props.generated_names lag_gap ["x"])).
  { intros [H|[]]. discriminate H. }
  refine (conj H1 (conj H2 (conj H3 (conj H4 (conj H5 _))))).
  destruct (lag_missing_source_column round_float64 keep_value refuse_missing lag_gap X_single
              ["x"] "zz" [] H1 H2 H3 H4 H5) as (self' & X' & Hrun & Hlog & _).
  exists self', X'. split; [exact Hrun|exact Hlog].
Defined.

Lemma lag_transform_again_witness :
  lag.drop_na_rows lag_one = false /\
  lag.drop_original_columns lag_one = false /\
  lag.shift_columns lag_one = Some ["x"] /\
  (0 < lag.n_periods lag_one)%Z /\
  NoDup ["x"] /\
  (forall m, In m (lag_props.generated_names lag_one ["x"]) -> ~ In m ["x"]) /\
  run_one = ((fst (fst run_one), snd (fst run_one)), inr (snd (fst run_one))) /\
  exists self2,
    lag.transform round_float64 keep_value refuse_missing
      (fst (fst run_one), snd (fst run_one))
      = ((self2, snd (fst run_one)), inr (snd (fst run_one))).
Proof.
  assert (H1 : lag.drop_na_rows lag_one = false) by reflexivity.
  assert (H2 : lag.drop_original_columns lag_one = false) by reflexivity.
  assert (H3 : lag.shift_columns lag_one = Some ["x"]) by reflexivity.
  assert (H4 : (0 < lag.n_periods lag_one)%Z) by reflexivity.
  assert (H5 : NoDup ["x"]) by (repeat constructor; intros []).
  assert (H6 : forall m, In m (lag_props.generated_names lag_one ["x"]) -> ~ In m ["x"]).
  { intros m [<-|[]] [H|[]]. discriminate H. }
  assert (H7 : run_one = ((fst (fst run_one), snd (fst run_one)),
                          inr (snd (fst run_one)))) by (vm_compute; reflexivity).
  refine (conj H1 (conj H2 (conj H3 (conj H4 (conj H5 (conj H6 (conj H7 _))))))).
  destruct (lag_transform_again round_float64 keep_value refuse_missing lag_one X_single
              ["x"] _ _ _ H1 H2 H3 H4 H5 H6 H7) as (self2 & Hrun & _).
  exists self2. exact Hrun.
Defined.

(** [fit] on [X_test] and then [transform], with row dropping. *)
Lemma lag_fit_then_transform_witness :
  lag_props.reachable Z round_float64 keep_value refuse_missing lag_fresh_dropna /\
  lag.shift_columns lag_fresh_dropna = None /\
  (lag.n_periods lag_fresh_dropna < 2 ^ 63)%Z /\
  NoDup (columns X_test) /\
  exists self' X',
    lag.transform round_float64 keep_value refuse_missing
      (lag.fit lag_fresh_dropna X_test, X_test) = ((self', X'), inr X') /\
    lag.shift_columns self' = Some ["x1"; "x2"].
Proof.
  assert (H2 : lag.shift_columns lag_fresh_dropna = None) by reflexivity.
  assert (H3 : (lag.n_periods lag_fresh_dropna < 2 ^ 63)%Z) by reflexivity.
  assert (H4 : NoDup (columns X_test)).
  { repeat constructor; [intros [H|[]]; discriminate H|intros []]. }
  assert (H5 : lag.drop_na_rows lag_fresh_dropna = true ->
            (forall m, In m (lag_props.generated_names lag_fresh_dropna (columns X_test)) ->
                       ~ In m (columns X_test)) /\
            (forall c (s : Series Z) v,
               loc X_test c = Some s -> In (Some v) (values s) ->
               keep_value (dtype_of s) (promote_value round_float64 (dtype_of s) v) <> None)).
  { intros _. split.
    - intros m [<-|[<-|[]]] [H|[H|[]]]; discriminate H.
    - intros c s v _ _. discriminate. }
  refine (conj lag_fresh_dropna_reachable (conj H2 (conj H3 (conj H4 _)))).
  destruct (lag_fit_then_transform round_float64 keep_value refuse_missing
              lag_fresh_dropna X_test lag_fresh_dropna_reachable H2 H3 H4 H5)
    as (self' & X' & Hrun & Hs & _).
  exists self', X'. split; [exact Hrun|exact Hs].
Defined.

Lemma lag_names_distinct_witness :
  (0 < lag.n_periods lag_full)%Z /\
  (NoDup ["x1"; "x2"] ->
   NoDup (lag_props.generated_names lag_full ["x1"; "x2"]) /\
   length (lag_props.generated_names lag_full ["x1"; "x2"]) =
     length ["x1"; "x2"] * length (lag_props.lag_periods lag_full)).
Proof.
  assert (H1 : (0 < lag.n_periods lag_full)%Z) by reflexivity.
  refine (conj H1 _).
  exact (proj2 (lag_names_distinct lag_full ["x1"; "x2"] H1)).
Defined.

Lemma lag_dropna_row_count_witness :
  lag.drop_na_rows lag_full = true /\
  lag.shift_columns lag_full = Some ["x1"; "x2"] /\
  ["x1"; "x2"] <> [] /\
  NoDup ["x1"; "x2"] /\
  (0 < lag.n_periods lag_full)%Z /\
  (forall m, In m (lag_props.generated_names lag_full ["x1"; "x2"]) -> ~ In m ["x1"; "x2"]) /\
  lag_props.well_formed X_test /\
  lag_props.no_missing X_test /\
  run_full = ((fst (fst run_full), snd (fst run_full)), inr (snd (fst run_full))) /\
  forall p, In p (snd (fst run_full)) -> length (values (snd p)) = 3.
Proof.
  assert (H1 : lag.drop_na_rows lag_full = true) by reflexivity.
  assert (H2 : lag.shift_columns lag_full = Some ["x1"; "x2"]) by reflexivity.
  assert (H3 : ["x1"; "x2"] <> []) by discriminate.
  assert (H4 : NoDup ["x1"; "x2"]).
  { repeat constructor; [intros [H|[]]; discriminate H|intros []]. }
  assert (H5 : (0 < lag.n_periods lag_full)%Z) by reflexivity.
  assert (H6 : forall m, In m (lag_props.generated_names lag_full ["x1"; "x2"]) ->
                         ~ In m ["x1"; "x2"]).
  { intros m Hm Hin. simpl in Hm.
    destruct Hin as [<-|[<-|[]]];
      repeat (destruct Hm as [Hm|Hm]; [discriminate Hm|]); destruct Hm. }
  assert (H9 : run_full = ((fst (fst run_full), snd (fst run_full)),
                           inr (snd (fst run_full)))) by (vm_compute; reflexivity).
  refine (conj H1 (conj H2 (conj H3 (conj H4 (conj H5 (conj H6
           (conj X_test_well_formed (conj X_test_no_missing (conj H9 _))))))))).
  exact (proj1 (lag_dropna_row_count round_float64 keep_value refuse_missing lag_full X_test
                  ["x1"; "x2"] _ _ _ H1 H2 H3 H4 H5 H6
                  X_test_well_formed X_test_no_missing H9)).
Defined.

Lemma dtf_demo_init :
  dt_features.__init__ ["dt1"] (Some ["is-weekend"; "second"]) false = inr dtf_demo.
Proof. reflexivity. Defined.

Lemma dt_init_outcome_witness :
  (forall f, In f (dt_props.excluded (Some ["year"; "year"])) -> In f dt_props.catalog_keys) /\
  ~ exists self, dt_features.__init__ ["dt1"] (Some ["year"; "year"]) false = inr self.
Proof.
  assert (H1 : forall f, In f (dt_props.excluded (Some ["year"; "year"])) ->
                         In f dt_props.catalog_keys).
  { intros f [<-|[<-|[]]]; left; reflexivity. }
  refine (conj H1 _).
  intro H.
  apply (proj1 (proj1 (dt_init_outcome ["dt1"] (Some ["year"; "year"]) false H1))) in H.
  inversion H as [|? ? Hn _]. apply Hn. left. reflexivity.
Defined.

Lemma dt_names_distinct_witness :
  dt_features.__init__ ["dt1"] (Some ["is-weekend"; "second"]) false = inr dtf_demo /\
  (NoDup ["dt1"] ->
   NoDup (dt_props.generated_names dtf_demo) /\
   length (dt_props.generated_names dtf_demo) = 1 * (9 - 2)).
Proof.
  refine (conj dtf_demo_init _).
  exact (proj2 (dt_names_distinct _ _ _ _ dtf_demo_init)).
Defined.

Lemma dt_feature_values_witness :
  dt_features.__init__ ["dt1"] (Some ["is-weekend"; "second"]) false = inr dtf_demo /\
  NoDup ["dt1"] /\
  (forall m, In m (dt_props.generated_names dtf_demo) -> ~ In m ["dt1"]) /\
  In "dt1" ["dt1"] /\
  In ("year", dt_features._get_year)
     (dt_features.included_features_and_methods_map dtf_demo) /\
  loc X_dates "dt1" = Some (mkSeries Datetime64 [Some (dt_features.VTimestamp monday)]) /\
  run_dates = (fst run_dates, inr (fst run_dates)) /\
  exists s', loc (fst run_dates) "dt1_YEAR" = Some s' /\ length (values s') = 1.
Proof.
  assert (H2 : NoDup ["dt1"]) by (repeat constructor; intros []).
  assert (H3 : forall m, In m (dt_props.generated_names dtf_demo) -> ~ In m ["dt1"]).
  { intros m Hm [<-|[]]. simpl in Hm.
    repeat (destruct Hm as [Hm|Hm]; [discriminate Hm|]). destruct Hm. }
  assert (H4 : In "dt1" ["dt1"]) by (left; reflexivity).
  assert (H5 : In ("year", dt_features._get_year)
                  (dt_features.included_features_and_methods_map dtf_demo))
    by (left; reflexivity).
  assert (H6 : loc X_dates "dt1"
               = Some (mkSeries Datetime64 [Some (dt_features.VTimestamp monday)]))
    by reflexivity.
  assert (H7 : run_dates = (fst run_dates, inr (fst run_dates))) by reflexivity.
  refine (conj dtf_demo_init (conj H2 (conj H3 (conj H4 (conj H5 (conj H6 (conj H7 _))))))).
  destruct (dt_feature_values _ _ _ _ _ _ _ _ _ _ _ dtf_demo_init H2 H3 H4 H5 H6 H7)
    as (_ & s' & Hloc & Hlen & _).
  exists s'. split; [exact Hloc|exact Hlen].
Defined.

Lemma dt_transform_frame_witness :
  dt_features.__init__ ["dt1"] (Some ["is-weekend"; "second"]) false = inr dtf_demo /\
  forall p, In p (fst run_dates) -> length (values (snd p)) = nrows X_dates.
Proof.
  refine (conj dtf_demo_init _).
  assert (Hrun : dt_features.transform dtf_demo X_dates = (fst run_dates, inr (fst run_dates)))
    by reflexivity.
  assert (Hwf : lag_props.well_formed X_dates) by (repeat constructor).
  destruct (proj2 (proj2 (dt_transform_frame _ _ _ _ X_dates dtf_demo_init)) _ _ Hrun)
    as (_ & _ & _ & Hlen).
  exact (Hlen Hwf).
Defined.

Lemma lag_transform_after_drop_witness :
  lag.drop_original_columns lag_full = true /\
  lag.shift_columns lag_full = Some ("x1" :: ["x2"]) /\
  (0 < lag.n_periods lag_full)%Z /\
  run_full = ((fst (fst run_full), snd (fst run_full)), inr (snd (fst run_full))) /\
  ~ In "x1" (columns (snd (fst run_full))).
Proof.
  assert (H1 : lag.drop_original_columns lag_full = true) by reflexivity.
  assert (H2 : lag.shift_columns lag_full = Some ("x1" :: ["x2"])) by reflexivity.
  assert (H3 : (0 < lag.n_periods lag_full)%Z) by reflexivity.
  assert (H4 : run_full = ((fst (fst run_full), snd (fst run_full)),
                           inr (snd (fst run_full)))) by (vm_compute; reflexivity).
  refine (conj H1 (conj H2 (conj H3 (conj H4 _)))).
  exact (proj1 (lag_transform_after_drop round_float64 keep_value refuse_missing lag_full
                  X_test "x1" ["x2"] _ _ _ H1 H2 H3 H4)).
Defined.

Lemma dt_transform_again_witness :
  dt_features.__init__ ["dt1"] (Some ["is-weekend"; "second"]) false = inr dtf_demo /\
  NoDup ["dt1"] /\
  (forall m, In m (dt_props.generated_names dtf_demo) -> ~ In m ["dt1"]) /\
  run_dates = (fst run_dates, inr (fst run_dates)) /\
  dt_features.transform dtf_demo (fst run_dates) = (fst run_dates, inr (fst run_dates)).
Proof.
  assert (H2 : NoDup ["dt1"]) by (repeat constructor; intros []).
  assert (H3 : forall m, In m (dt_props.generated_names dtf_demo) -> ~ In m ["dt1"]).
  { intros m Hm [<-|[]]. simpl in Hm.
    repeat (destruct Hm as [Hm|Hm]; [discriminate Hm|]). destruct Hm. }
  assert (H4 : run_dates = (fst run_dates, inr (fst run_dates))) by reflexivity.
  refine (conj dtf_demo_init (conj H2 (conj H3 (conj H4 _)))).
  exact (proj1 (dt_transform_again _ _ _ _ _ _ _ dtf_demo_init H2 H3 H4) eq_refl).
Defined.

Lemma lag_shift_overflow_witness :
  lag.only_one_column_for_periods lag_huge = true /\
  lag.shift_columns lag_huge = Some ("x" :: []) /\
  loc X_single "x" = Some (ints [1; 2; 3]%Z) /\
  values (ints [1; 2; 3]%Z) <> [] /\
  (2 ^ 63 <= lag.n_periods lag_huge < 10 ^ 4300)%Z /\
  exists self',
    run_huge = ((self', X_single), inl OverflowError) /\
    lag.new_columns self' = ["x_LAG-9223372036854775808"].
Proof.
  assert (H1 : lag.only_one_column_for_periods lag_huge = true) by reflexivity.
  assert (H2 : lag.shift_columns lag_huge = Some ("x" :: [])) by reflexivity.
  assert (H3 : loc X_single "x" = Some (ints [1; 2; 3]%Z)) by reflexivity.
  assert (H4 : values (ints [1; 2; 3]%Z) <> []) by discriminate.
  assert (H5 : (2 ^ 63 <= lag.n_periods lag_huge < 10 ^ 4300)%Z).
  { split; [vm_compute; discriminate|vm_compute; reflexivity]. }
  refine (conj H1 (conj H2 (conj H3 (conj H4 (conj H5 _))))).
  destruct (lag_shift_overflow round_float64 keep_value refuse_missing lag_huge X_single
              "x" [] _ H1 H2 H3 H4 H5) as (self' & Hrun & Hlog & _).
  exists self'. split; [exact Hrun|exact Hlog].
Defined.

(** A shift by [2^63] on a column with cells: the name is logged, the dtype
    recorded, and [shift] raises OverflowError; the frame is untouched. *)
Example overflow_scenario :
  run_huge =
    ((lag.mkLag 9223372036854775808 (Some ["x"]) false false true
        ["x_LAG-9223372036854775808"] [("x_LAG-9223372036854775808", Int64)],
      X_single),
     inl OverflowError).
Proof. vm_compute. reflexivity. Qed.

(** An int64 column comes back from [shift] as float64: [2^53 + 1] is
    stored as [2^53]. *)
Example rounding_scenario :
  loc (snd (fst run_big)) "x_LAG-1"
  = Some (mkSeries Float64 [None; Some 9007199254740992%Z]).
Proof. vm_compute. reflexivity. Qed.

(** NaT in a timestamp column gives nan for the year and False for the
    weekend flag; a None in an object column makes the call fail. *)
Example nat_scenario :
  let X' := fst (dt_features.transform dtf_all X_nat) in
  loc X' "d_YEAR" = Some (mkSeries Float64 [Some (dt_features.VInt 1994); None]) /\
  loc X' "d_IS-WEEKEND"
    = Some (mkSeries Bool [Some (dt_features.VBool false); Some (dt_features.VBool false)]) /\
  dt_features.transform dtf_all X_none = (X_none, inl AttributeError).
Proof. repeat split. Qed.

End MoreInstances.
